(** * simplify-hono: the REST handlers of [src/adapters/drizzle.ts], the
      strategies that route to them, and the generator of
      [src/adapters/openapi.ts]

    A shallow embedding of the request handlers that [createHandler] returns
    (GET, GET_BY_ID, POST, PUT, PATCH, DELETE), of the filter compiler
    [buildWhereCondition] they share, of the route strategies, and of the
    loops of [generateOpenAPISpec] over the tables and the custom routes.

    Modelling conventions.
    - A value produced by [JSON.parse] is a [JSON] tree.  An object is the
      list of its own enumerable properties in enumeration order.  What an
      object inherits from [Object.prototype] is modelled where the code
      can see it: [key in obj] and [obj[key]] find the inherited names
      ([inherited]), and a call of [obj.hasOwnProperty] throws when the
      object has a property of that name of its own.
    - Numbers are the integers among the doubles, the infinities and NaN:
      [Number], [parseInt] and the arithmetic of the handlers round to the
      nearest double ([double]).  Fractions are outside the model.
    - A drizzle table object is the list of its own properties, name to
      column definition, over [Table.prototype] and [Object.prototype]
      ([inherited_by_table]).  The schema object is
      the module namespace [import * as schema] of [rest-handler.ts] and
      [openapi-handler.ts]: an object without prototype, whose
      properties are the exported tables.
    - drizzle's query builder is modelled by the statement it describes
      ([Query]); its condition constructors ([and], [or], [not], [eq], ...)
      are the constructors of [SQL].  The builder and the executor behind
      it are a parameter ([db]): a statement is refused with an exception
      while it is put together, or it is run and its promise is fulfilled
      or rejected.  A refusal is taken where the statement is complete:
      in POST and PUT that is where drizzle's builder refuses ([values],
      [set]), after the handler's own checks; the calls of the select
      builder only record what they are given.
    - A handler is a promise of a [Response].  It is modelled as the tree
      of what the promise waits for: the request body ([request.json()])
      and the statement handed to drizzle.  An exception that no [catch]
      of the handler takes is a leaf of the tree ([raise]).
    - [JSON.parse] itself belongs to the host; the handlers are
      parametric in it.  So is the wording of the host's own exceptions:
      a response that quotes one carries it unread ([message_of]). *)

From Stdlib Require Import String Ascii List ZArith Bool Lia DecimalString.
Import ListNotations.
Open Scope string_scope.

(** ** JavaScript values and the string helpers the handlers rely on *)

Module JS.

(** *** Numbers *)

Inductive Num : Type :=
| finite (z : Z)
| infinity
| neg_infinity
| NaN.

Coercion finite : Z >-> Num.

(** The double nearest to the natural number [n], ties to even: [n] less
    the bits beyond the 53 of a significand, rounded. *)
Definition nearest (n : Z) : Z :=
  let excess := (Z.log2 n + 1 - 53)%Z in
  if (excess <=? 0)%Z then n
  else
    let unit := (2 ^ excess)%Z in
    let quotient := (n / unit)%Z in
    let remainder := (n mod unit)%Z in
    let half := (unit / 2)%Z in
    if (half <? remainder)%Z || ((remainder =? half)%Z && Z.odd quotient)
    then ((quotient + 1) * unit)%Z
    else (quotient * unit)%Z.

(** The double nearest to the integer [z]; beyond the largest double
    ([2 ^ 1024] is the first power of two that is none), an infinity. *)
Definition double (z : Z) : Num :=
  let magnitude := nearest (Z.abs z) in
  if (1024 <=? Z.log2 magnitude)%Z
  then (if (z <? 0)%Z then neg_infinity else infinity)
  else finite (Z.sgn z * magnitude).

(** [a - b] and [a * b]: the exact result, rounded. *)
Definition sub (a b : Num) : Num :=
  match a, b with
  | NaN, _ | _, NaN => NaN
  | finite x, finite y => double (x - y)
  | infinity, infinity | neg_infinity, neg_infinity => NaN
  | infinity, _ | _, neg_infinity => infinity
  | neg_infinity, _ | _, infinity => neg_infinity
  end.

Definition sign (a : Num) : Z :=
  match a with
  | finite x => Z.sgn x
  | infinity => 1
  | neg_infinity => (-1)
  | NaN => 0
  end.

Definition mul (a b : Num) : Num :=
  match a, b with
  | NaN, _ | _, NaN => NaN
  | finite x, finite y => double (x * y)
  | _, _ =>
      match (sign a * sign b)%Z with
      | Z0 => NaN
      | Zpos _ => infinity
      | Zneg _ => neg_infinity
      end
  end.

(** [n > 0], [n >= 0] and [!!n] *)
Definition positive (n : Num) : bool :=
  match n with
  | finite z => (0 <? z)%Z
  | infinity => true
  | neg_infinity | NaN => false
  end.

Definition nonnegative (n : Num) : bool :=
  match n with
  | finite z => (0 <=? z)%Z
  | infinity => true
  | neg_infinity | NaN => false
  end.

Definition number_truthy (n : Num) : bool :=
  match n with
  | finite z => negb (z =? 0)%Z
  | infinity | neg_infinity => true
  | NaN => false
  end.

(** *** Values *)

#[local] Unset Elimination Schemes.

Inductive JSON : Type :=
| JNull
| JBool (b : bool)
| JNumber (n : Num)
| JString (s : string)
| JArray (items : list JSON)
| JObject (props : list (string * JSON)).

#[local] Set Elimination Schemes.

Arguments JNumber n%_Z.

(** [!!v] *)
Definition truthy (v : JSON) : bool :=
  match v with
  | JNull => false
  | JBool b => b
  | JNumber n => number_truthy n
  | JString s => negb (s =? "")
  | JArray _ | JObject _ => true
  end.

(** *** Exceptions

    A [TypeError] is raised by the call of [callee], whose value [value]
    ([None]: undefined) is no function; a [NotPrimitive] (a TypeError
    too) by the conversion to a string of an object that has no primitive
    value; a [ReferenceError] by the use of a name that is not bound; an
    [Error] is thrown by a library with the message it carries. *)
Inductive Exception : Type :=
| TypeError (callee : string) (value : option JSON)
| NotPrimitive (value : JSON)
| ReferenceError (name : string)
| Error (message : string).

Inductive Completion (A : Type) : Type :=
| normal (a : A)
| throw (e : Exception).

Arguments normal {A} a.
Arguments throw {A} e.

Definition bind {A B : Type} (c : Completion A) (f : A -> Completion B)
  : Completion B :=
  match c with
  | normal a => f a
  | throw e => throw e
  end.

(** [typeof v === 'object'] (which holds of [null] too) *)
Definition typeof_object (v : JSON) : bool :=
  match v with
  | JNull | JArray _ | JObject _ => true
  | _ => false
  end.

Definition is_null (v : JSON) : bool :=
  match v with JNull => true | _ => false end.

Definition string_of_nat (n : nat) : string :=
  NilZero.string_of_uint (Nat.to_uint n).

Definition string_of_Z (z : Z) : string :=
  NilZero.string_of_int (Z.to_int z).

(** The decimal numerals of [k] significant digits next to the positive
    double [z] of [n] digits, below and above it: the one that reads back
    as [z], the nearer of the two when both do. *)
Definition rounded_to (z : Z) (n k : nat) : option Z :=
  let unit := (10 ^ Z.of_nat (n - k))%Z in
  let below := (z / unit * unit)%Z in
  let above := (below + unit)%Z in
  match (nearest below =? z)%Z, (nearest above =? z)%Z with
  | true, true =>
      Some (if (z - below <? above - z)%Z then below
            else if (above - z <? z - below)%Z then above
            else if Z.even (below / unit) then below else above)
  | true, false => Some below
  | false, true => Some above
  | false, false => None
  end.

Fixpoint first_defined {A B : Type} (f : A -> option B) (xs : list A) : option B :=
  match xs with
  | [] => None
  | x :: rest => match f x with Some y => Some y | None => first_defined f rest end
  end.

(** The shortest decimal numeral that reads back as the positive double
    [z] (seventeen digits always do), as the integer it denotes. *)
Definition shortest (z : Z) : Z :=
  let n := String.length (string_of_Z z) in
  match first_defined (rounded_to z n) (seq 1 (Nat.min n 17)) with
  | Some v => v
  | None => z
  end.

Fixpoint drop_zeros (cs : list ascii) : list ascii :=
  match cs with
  | "0"%char :: rest => drop_zeros rest
  | _ => cs
  end.

(** [String(x)] for a positive integer [x]: the digits of the shortest
    numeral, in full below [10 ^ 21] and with an exponent from there on. *)
Definition string_of_double (z : Z) : string :=
  let v := shortest z in
  let numeral := string_of_Z v in
  if (v <? 10 ^ 21)%Z then numeral
  else
    match rev (drop_zeros (rev (list_ascii_of_string numeral))) with
    | [] => numeral
    | first :: rest =>
        String first
          ((match rest with
            | [] => ""
            | _ => String "."%char (string_of_list_ascii rest)
            end)
           ++ "e+" ++ string_of_nat (String.length numeral - 1))
    end.

Definition string_of_Num (n : Num) : string :=
  match n with
  | finite Z0 => "0"
  | finite (Zpos p) => string_of_double (Zpos p)
  | finite (Zneg p) => "-" ++ string_of_double (Zpos p)
  | infinity => "Infinity"
  | neg_infinity => "-Infinity"
  | NaN => "NaN"
  end.

Definition dquote : string := String (ascii_of_nat 34) EmptyString.

(** Lookup of an own property in a property list. *)
Fixpoint lookup {A : Type} (key : string) (props : list (string * A)) : option A :=
  match props with
  | [] => None
  | (k, v) :: rest => if k =? key then Some v else lookup key rest
  end.

Definition has_key {A : Type} (key : string) (props : list (string * A)) : bool :=
  match lookup key props with Some _ => true | None => false end.

(** The names every object inherits from [Object.prototype]: [key in obj]
    holds of them and [obj[key]] is a function (for [__proto__], the
    prototype itself), which is truthy. *)
Definition inherited (key : string) : bool :=
  existsb (String.eqb key)
    ["constructor"; "__defineGetter__"; "__defineSetter__"; "hasOwnProperty";
     "__lookupGetter__"; "__lookupSetter__"; "isPrototypeOf";
     "propertyIsEnumerable"; "toString"; "valueOf"; "__proto__"; "toLocaleString"].

(** [obj[key]] followed by a use [f] of the value found, [d] when the
    property is absent: [lookup] in continuation form, so that a
    recursive function may descend into the value. *)
Section WithProp.
Context {A B : Type} (f : A -> B) (d : B) (key : string).

Fixpoint with_prop (props : list (string * A)) : B :=
  match props with
  | [] => d
  | (k, v) :: rest => if k =? key then f v else with_prop rest
  end.
End WithProp.

(** [xs.map(f).filter(c => c !== undefined)] *)
Section MapDefined.
Context {A B : Type} (f : A -> option B).

Fixpoint map_defined (xs : list A) : list B :=
  match xs with
  | [] => []
  | x :: rest =>
      match f x with
      | Some y => y :: map_defined rest
      | None => map_defined rest
      end
  end.
End MapDefined.

(** The same, for an [f] that may throw: the first exception ends it. *)
Section MapCompleted.
Context {A B : Type} (f : A -> Completion (option B)).

Fixpoint map_completed (xs : list A) : Completion (list B) :=
  match xs with
  | [] => normal []
  | x :: rest =>
      match f x with
      | throw e => throw e
      | normal found =>
          match map_completed rest with
          | throw e => throw e
          | normal ys =>
              normal (match found with Some y => y :: ys | None => ys end)
          end
      end
  end.
End MapCompleted.

(** A loop that pushes what [f] gives for each element, in order. *)
Section PushEach.
Context {A B : Type} (f : A -> Completion (list B)).

Fixpoint push_each (xs : list A) : Completion (list B) :=
  match xs with
  | [] => normal []
  | x :: rest =>
      match f x with
      | throw e => throw e
      | normal pushed =>
          match push_each rest with
          | throw e => throw e
          | normal ys => normal (pushed ++ ys)%list
          end
      end
  end.
End PushEach.

Fixpoint indexed {A : Type} (i : nat) (xs : list A) : list (string * A) :=
  match xs with
  | [] => []
  | x :: rest => (string_of_nat i, x) :: indexed (S i) rest
  end.

(** The own enumerable properties of a value, as [for (const key in obj)]
    and the spread [{ ...obj }] visit them: the properties of an object,
    the indices of an array or of a string, nothing for the other values. *)
Definition ownEntries (obj : JSON) : list (string * JSON) :=
  match obj with
  | JObject props => props
  | JArray items => indexed 0 items
  | JString s =>
      indexed 0 (map (fun c => JString (String c EmptyString)) (list_ascii_of_string s))
  | _ => []
  end.

(** [for (const key in obj) { if (obj.hasOwnProperty(key)) ... }], where
    the source writes the object as [callee]: the pairs [(key, obj[key])]
    the body sees.  The guard calls whatever [obj.hasOwnProperty] is: the
    inherited function as a rule, but the value of the property of that
    name when the object has one of its own, which is no function, and
    the first turn of the loop throws. *)
Definition guardedEntries (callee : string) (obj : JSON)
  : Completion (list (string * JSON)) :=
  match obj with
  | JObject props =>
      match lookup "hasOwnProperty" props with
      | Some value => throw (TypeError (callee ++ ".hasOwnProperty") (Some value))
      | None => normal props
      end
  | _ => normal (ownEntries obj)
  end.


(** [Object.keys(obj).length], and ['id' in obj] for [typeof obj === 'object']
    (read for the key [id], which no prototype has) *)
Definition keys_length (obj : JSON) : nat :=
  match obj with
  | JObject props => length props
  | JArray items => length items
  | _ => 0
  end.

Definition has_property (key : string) (obj : JSON) : bool :=
  match obj with
  | JObject props => has_key key props
  | _ => false
  end.

Fixpoint join (sep : string) (xs : list string) : string :=
  match xs with
  | [] => ""
  | [x] => x
  | x :: rest => x ++ sep ++ join sep rest
  end.

(** [String(v)], as a template literal interpolates a value.  An array
    is the texts of its elements, joined; an object is
    ["[object Object]"] by the [toString] it inherits, but one that has a
    property [toString] of its own, which is no function, has no
    primitive value, and the conversion throws. *)
Fixpoint toString (v : JSON) : Completion string :=
  match v with
  | JNull => normal "null"
  | JBool true => normal "true"
  | JBool false => normal "false"
  | JNumber n => normal (string_of_Num n)
  | JString s => normal s
  | JArray items =>
      bind
        ((fix elements (xs : list JSON) : Completion (list string) :=
            match xs with
            | [] => normal []
            | x :: rest =>
                bind (match x with JNull => normal "" | _ => toString x end)
                  (fun text =>
                bind (elements rest) (fun texts => normal (text :: texts)))
            end) items)
        (fun texts => normal (join "," texts))
  | JObject props =>
      if has_key "toString" props then throw (NotPrimitive v)
      else normal "[object Object]"
  end.

Definition is_digit (c : ascii) : bool :=
  let n := nat_of_ascii c in Nat.leb 48 n && Nat.leb n 57.

(** White space that [trim] and [parseInt] strip (the ASCII part of it). *)
Definition is_space (c : ascii) : bool :=
  let n := nat_of_ascii c in
  Nat.eqb n 32 || (Nat.leb 9 n && Nat.leb n 13).

Fixpoint skip_spaces (cs : list ascii) : list ascii :=
  match cs with
  | c :: rest => if is_space c then skip_spaces rest else cs
  | [] => []
  end.

Definition trim (s : string) : string :=
  string_of_list_ascii
    (rev (skip_spaces (rev (skip_spaces (list_ascii_of_string s))))).

Fixpoint digits_prefix (cs : list ascii) : list ascii :=
  match cs with
  | c :: rest => if is_digit c then c :: digits_prefix rest else []
  | [] => []
  end.

Definition digit_value (c : ascii) : Z := Z.of_nat (nat_of_ascii c) - 48.

Definition decimal_value (ds : list ascii) : Z :=
  fold_left (fun acc c => 10 * acc + digit_value c)%Z ds 0%Z.

(** [parseInt(s, 10)] *)
Definition parseInt (s : string) : Num :=
  let cs := skip_spaces (list_ascii_of_string s) in
  let '(negative, cs) :=
    match cs with
    | "-"%char :: rest => (true, rest)
    | "+"%char :: rest => (false, rest)
    | _ => (false, cs)
    end in
  match digits_prefix cs with
  | [] => NaN
  | ds => double (if negative then - decimal_value ds else decimal_value ds)%Z
  end.

(** [/^\d+$/.test(s)] *)
Definition all_digits (s : string) : bool :=
  match list_ascii_of_string s with
  | [] => false
  | cs => forallb is_digit cs
  end.

(** [Number(s)] on a string that passed [all_digits] *)
Definition Number (s : string) : Num := double (decimal_value (list_ascii_of_string s)).

(** [s.split(sep)] for a one-character separator. *)
Fixpoint split_chars (sep : ascii) (cur : list ascii) (cs : list ascii) : list string :=
  match cs with
  | [] => [string_of_list_ascii (rev cur)]
  | c :: rest =>
      if Ascii.eqb c sep
      then string_of_list_ascii (rev cur) :: split_chars sep [] rest
      else split_chars sep (c :: cur) rest
  end.

Definition split (sep : ascii) (s : string) : list string :=
  split_chars sep [] (list_ascii_of_string s).

(** [s.includes(sub)] *)
Definition includes (sub s : string) : bool :=
  match String.index 0 sub s with Some _ => true | None => false end.

(** [acc[field] = value] *)
Fixpoint assign {A : Type} (key : string) (value : A) (props : list (string * A))
  : list (string * A) :=
  match props with
  | [] => [(key, value)]
  | (k, v) :: rest =>
      if k =? key then (k, value) :: rest else (k, v) :: assign key value rest
  end.

End JS.

(** ** The first-order image of drizzle-orm's condition and query builders *)

Module Drizzle.
Import JS.

(** What the generators read of a column definition. *)
Record Column : Type := {
  name : string;
  dataType : option string;
  columnType : option string;
  type_ : option string;
  description : option string;
  notNull : bool;
  isNullable : option bool;  (* [Some b]: a function that returns [b] *)
  hasDefault : bool
}.

Definition Table : Type := list (string * Column).

(** What a table object inherits beside the members of
    [Object.prototype]: drizzle-orm defines [getSQL] on
    [Table.prototype]. *)
Definition tablePrototype : list string := ["getSQL"].

(** The names a table object inherits: [key in tableSchema] holds of
    them and [tableSchema[key]] is truthy. *)
Definition inherited_by_table (key : string) : bool :=
  inherited key || existsb (String.eqb key) tablePrototype.

(** What [tableSchema[key]] is when it is not undefined, and what the code
    then takes for a column ([as AnyColumn]): a property of the table's
    own, or what the table inherits under [key]. *)
Inductive AnyColumn : Type :=
| own (column : Column)
| prototype (key : string).

Coercion own : Column >-> AnyColumn.

(** [tableSchema[key]] *)
Definition member (key : string) (tableSchema : Table) : option AnyColumn :=
  match lookup key tableSchema with
  | Some column => Some (own column)
  | None => if inherited_by_table key then Some (prototype key) else None
  end.

(** [key in tableSchema] *)
Definition has_member (key : string) (tableSchema : Table) : bool :=
  has_key key tableSchema || inherited_by_table key.

#[local] Unset Elimination Schemes.

(** Conditions: one constructor per operator of drizzle-orm. *)
Inductive SQL : Type :=
| and_ (conditions : list SQL)
| or_ (conditions : list SQL)
| not_ (condition : SQL)
| eq (column : AnyColumn) (value : JSON)
| ne (column : AnyColumn) (value : JSON)
| gt (column : AnyColumn) (value : JSON)
| gte (column : AnyColumn) (value : JSON)
| lt (column : AnyColumn) (value : JSON)
| lte (column : AnyColumn) (value : JSON)
| like (column : AnyColumn) (value : JSON)
| ilike (column : AnyColumn) (value : JSON).

#[local] Set Elimination Schemes.

(** [conditions.length > 0 ? and(...conditions) : undefined] *)
Definition finish (conditions : list SQL) : option SQL :=
  match conditions with
  | [] => None
  | _ => Some (and_ conditions)
  end.

Definition is_logical (key : string) : bool :=
  (key =? "AND") || (key =? "OR") || (key =? "NOT").

(** The [switch (operator)] of the field loop. *)
Definition operatorCondition (column : AnyColumn) (entry : string * JSON) : option SQL :=
  let '(operator, operatorValue) := entry in
  if operator =? "eq" then Some (eq column operatorValue)
  else if operator =? "ne" then Some (not_ (eq column operatorValue))
  else if operator =? "gt" then Some (gt column operatorValue)
  else if operator =? "gte" then Some (gte column operatorValue)
  else if operator =? "lt" then Some (lt column operatorValue)
  else if operator =? "lte" then Some (lte column operatorValue)
  else if operator =? "like" then Some (ilike column operatorValue)
  else if operator =? "ilike" then Some (ilike column operatorValue)
  else None.

(** [objectToEntries(obj)] *)
Definition objectToEntries : JSON -> Completion (list (string * JSON)) :=
  guardedEntries "obj".

(** One iteration of [for (const [key, value] of objectToEntries(whereObj))]:
    the conditions it pushes. *)
Definition fieldCondition (tableSchema : Table) (entry : string * JSON)
  : Completion (list SQL) :=
  let '(key, value) := entry in
  if is_logical key then normal []
  else
    match member key tableSchema with
    | None => normal []
    | Some column =>
        if typeof_object value && negb (is_null value) then
          bind (objectToEntries value) (fun entries =>
            normal
              match map_defined (operatorCondition column) entries with
              | [] => []
              | onlyDefinedFields => [and_ onlyDefinedFields]
              end)
        else normal [eq column value]
    end.

Fixpoint buildWhereCondition (whereObj : JSON) (tableSchema : Table) {struct whereObj}
  : Completion (option SQL) :=
  match whereObj with
  | JObject props =>
      let compile := fun condition => buildWhereCondition condition tableSchema in
      bind
        (with_prop (fun v =>
           match v with
           | JArray items =>
               bind (map_completed compile items) (fun onlyDefinedAnd =>
                 normal
                   match onlyDefinedAnd with
                   | [] => []
                   | _ => [and_ onlyDefinedAnd]
                   end)
           | _ => normal []
           end) (normal []) "AND" props)
        (fun andPart =>
      bind
        (with_prop (fun v =>
           match v with
           | JArray items =>
               bind (map_completed compile items) (fun onlyDefinedOr =>
                 normal
                   match onlyDefinedOr with
                   | [] => []
                   | _ => [or_ onlyDefinedOr]
                   end)
           | _ => normal []
           end) (normal []) "OR" props)
        (fun orPart =>
      bind
        (with_prop (fun v =>
           if truthy v then
             bind (compile v) (fun notCondition =>
               normal
                 match notCondition with
                 | Some condition => [not_ condition]
                 | None => []
                 end)
           else normal []) (normal []) "NOT" props)
        (fun notPart =>
      bind (objectToEntries whereObj) (fun entries =>
      bind (push_each (fieldCondition tableSchema) entries) (fun fields =>
      normal (finish (andPart ++ orPart ++ notPart ++ fields)))))))
  | JArray _ =>
      bind (objectToEntries whereObj) (fun entries =>
      bind (push_each (fieldCondition tableSchema) entries) (fun fields =>
      normal (finish fields)))
  | _ => normal None
  end.

(** [asc(column)], [desc(column)]; the column is what [tableSchema[key]]
    gave, which may be [undefined]. *)
Inductive OrderTerm : Type :=
| asc (column : option AnyColumn)
| desc (column : option AnyColumn).

(** The statement a builder chain describes. *)
Inductive Query : Type :=
| select_from (fields : option (list (string * Column))) (table : Table)
    (where_ : option SQL) (orderBy : list OrderTerm) (limit offset : option Num)
| insert_values (table : Table) (values : JSON)
| update_set (table : Table) (set : JSON) (where_ : SQL)
| delete_from (table : Table) (where_ : SQL).

(** What becomes of a statement that is handed to drizzle and awaited: one
    of the builder's calls throws while the statement is put together or
    started (as [values([])] and [set({})] do), and nothing reaches the
    executor; or the statement is run, and its promise is fulfilled with
    rows or rejected with an error. *)
Inductive QueryResult : Type :=
| fulfilled (rows : list JSON)
| rejected (message : string)
| thrown (message : string).

(** [config]: the builder with the executor behind it, and the schema, the
    namespace object of the module that exports the tables. *)
Record Database : Type := {
  db : Query -> QueryResult;
  schema : list (string * Table)
}.

Record Meta : Type := {
  total : nat;
  meta_page : option Num;
  meta_limit : option Num
}.

(** [error.message]: a text the model knows, or the host's wording for one
    of its own exceptions. *)
Inductive Message : Type :=
| worded (s : string)
| message_of (e : Exception).

Coercion worded : string >-> Message.

Definition describe (e : Exception) : Message :=
  match e with
  | Error msg => worded msg
  | _ => message_of e
  end.

Record ApiResponse : Type := {
  success : bool;
  data : option JSON;
  error : option string;
  message : option Message;
  meta : option Meta
}.

Record Response : Type := {
  status : nat;
  json : ApiResponse
}.

(** [Response.json({ success: false, error }, { status })] *)
Definition failure (code : nat) (err : string) : Response :=
  {| status := code;
     json := {| success := false; data := None; error := Some err;
                message := None; meta := None |} |}.

Definition failure_with (code : nat) (err : string) (msg : Message) : Response :=
  {| status := code;
     json := {| success := false; data := None; error := Some err;
                message := Some msg; meta := None |} |}.

(** The [catch (error)] around the body of a handler *)
Definition internalError (e : Exception) : Response :=
  failure_with 500 "Internal server error" (describe e).

(** What a request carries: the path and the query string of its URL, and
    the outcome of [request.json()] ([None] when that promise rejects). *)
Record Request : Type := {
  pathname : string;
  searchParams : list (string * string);
  body : option JSON
}.

(** A handler's promise. *)
Inductive Handler : Type :=
| resolve (response : Response)
| raise (e : Exception)
| request_json (next : option JSON -> Handler)
| execute (query : Query) (next : QueryResult -> Handler).

(** How a call of a handler ends: with a response, or with an exception
    that nothing in the handler takes. *)
Inductive Outcome : Type :=
| answers (response : Response)
| raises (e : Exception).

Coercion answers : Response >-> Outcome.

(** The statements that reach the executor, of the one that is awaited. *)
Definition reached (result : QueryResult) (query : Query) : list Query :=
  match result with
  | thrown _ => []
  | _ => [query]
  end.

(** Settling the promise: how the call ends, and the statements the
    executor ran. *)
Fixpoint run (config : Database) (request : Request) (h : Handler)
  : Outcome * list Query :=
  match h with
  | resolve response => (answers response, [])
  | raise e => (raises e, [])
  | request_json next => run config request (next (body request))
  | execute query next =>
      let '(outcome, queries) := run config request (next (db config query)) in
      (outcome, (reached (db config query) query ++ queries)%list)
  end.

Record QueryParams : Type := {
  select : option (list string);
  where_ : option JSON;
  orderBy : option JSON;
  limit : option Num;
  page : option Num;
  offset : option Num
}.

(** [if (n)] on an optional number: set, and neither zero nor NaN *)
Definition nonzero (n : option Num) : bool :=
  match n with Some z => number_truthy z | None => false end.

(** [urlObj.pathname.split('/').filter(Boolean)], less a leading ['api'] *)
Definition pathParts (url : Request) : list string :=
  let parts := filter (fun part => negb (part =? "")) (split "/"%char (pathname url)) in
  match parts with
  | first :: rest => if first =? "api" then rest else parts
  | [] => []
  end.

Definition extractTableFromUrl (url : Request) : option string :=
  match pathParts url with
  | tableName :: _ => Some tableName
  | [] => None
  end.

Section Handlers.

(** [JSON.parse]; [None] when it throws. *)
Variable JSON_parse : string -> option JSON.

(** [if (text) { const n = parseInt(text, 10); if (!isNaN(n) && accept(n)) ... }] *)
Definition parseNumber (accept : Num -> bool) (raw : option string) : option Num :=
  match raw with
  | Some text =>
      if text =? "" then None
      else
        let n := parseInt text in
        if accept n then Some n else None
  | None => None
  end.

Definition parseJSON (raw : option string) : option JSON :=
  match raw with
  | Some text => if text =? "" then None else JSON_parse text
  | None => None
  end.

Definition parseQueryParams (url : Request) : QueryParams :=
  let get := fun key => lookup key (searchParams url) in
  {| select :=
       match get "select" with
       | Some text =>
           if text =? "" then None else Some (map trim (split ","%char text))
       | None => None
       end;
     where_ := parseJSON (get "where");
     orderBy := parseJSON (get "orderBy");
     limit := parseNumber positive (get "limit");
     page := parseNumber positive (get "page");
     offset := parseNumber nonnegative (get "offset") |}.

Section WithConfig.

Variable config : Database.

Definition validateTable (tableName : string) : bool :=
  has_key tableName (schema config).

Definition validateFields (tableName : string) (fields : list string) : list string :=
  match lookup tableName (schema config) with
  | None => []
  | Some tableSchema =>
      filter (fun field => (field =? "*") || has_member field tableSchema) fields
  end.

(** The [reduce] that collects the selected columns into an object: those
    of the fields that [Object.prototype.hasOwnProperty.call(tableSchema,
    field)] holds of. *)
Definition selectedColumns (tableSchema : Table) (validFields : list string)
  : list (string * Column) :=
  fold_left
    (fun acc field =>
       match lookup field tableSchema with
       | Some column => assign field column acc
       | None => acc
       end)
    validFields [].

(** [direction === text] *)
Definition is_text (text : string) (direction : JSON) : bool :=
  match direction with
  | JString s => s =? text
  | _ => false
  end.

Definition invalidField (key : string) : Response :=
  failure 400 ("Invalid field " ++ dquote ++ key ++ dquote ++ " in orderBy").

(** The response that quotes a refused direction, which is converted to
    a string for it. *)
Definition invalidDirection (key : string) (direction : JSON) : Completion Response :=
  bind (toString direction) (fun text =>
    normal
      (failure 400
         ("Invalid direction " ++ dquote ++ text ++ dquote
          ++ " for field " ++ dquote ++ key ++ dquote
          ++ ". Use " ++ dquote ++ "asc" ++ dquote ++ " or " ++ dquote ++ "desc"
          ++ dquote))).

(** The body of [for (const key in params.orderBy)], for the entries that
    pass its guard: a response when an entry is refused, the collected
    terms otherwise. *)
Fixpoint orderLoop (tableName : string) (tableSchema : Table)
  (entries : list (string * JSON)) (orderConditions : list OrderTerm)
  : Completion (Response + list OrderTerm) :=
  match entries with
  | [] => normal (inr orderConditions)
  | (key, direction) :: rest =>
      if Nat.eqb (length (validateFields tableName [key])) 0 then
        normal (inl (invalidField key))
      else if negb (is_text "asc" direction) && negb (is_text "desc" direction) then
        bind (invalidDirection key direction) (fun response => normal (inl response))
      else
        let column := member key tableSchema in
        orderLoop tableName tableSchema rest
          (orderConditions
           ++ [if is_text "desc" direction then desc column else asc column])
  end.

Definition tableNotFound (tableName : string) : Response :=
  failure 404 ("Table " ++ dquote ++ tableName ++ dquote ++ " not found").

(** The offset the list handler gives the builder. *)
Definition effectiveOffset (params : QueryParams) : option Num :=
  if nonzero (offset params) then offset params
  else if nonzero (page params) && nonzero (limit params) then
    match page params, limit params with
    | Some p, Some l => Some (mul (sub p (finite 1)) l)
    | _, _ => None
    end
  else None.

Definition listResponse (params : QueryParams) (result : list JSON) : Response :=
  {| status := 200;
     json := {| success := true;
                data := Some (JArray result);
                error := None;
                message := None;
                meta := Some {| total := length result;
                                meta_page := if nonzero (page params)
                                             then page params else None;
                                meta_limit := if nonzero (limit params)
                                              then limit params else None |} |} |}.

(** The [then] and [catch] of the awaited list query, and the [catch] of
    the handler for what the builder throws. *)
Definition listOutcome (params : QueryParams) (outcome : QueryResult) : Handler :=
  match outcome with
  | fulfilled result => resolve (listResponse params result)
  | rejected msg => resolve (failure_with 500 "Database query failed" msg)
  | thrown msg => resolve (internalError (Error msg))
  end.

Definition tableNameRequired : Response :=
  failure 400 "Table name is required in URL path".

(** "Handle field selection": a response when no selected field is valid,
    the columns to select otherwise ([None]: all). *)
Definition selectionOf (tableName : string) (tableSchema : Table) (params : QueryParams)
  : Response + option (list (string * Column)) :=
  match select params with
  | Some ((_ :: _) as fields) =>
      let validFields := validateFields tableName fields in
      if Nat.eqb (length validFields) 0 then
        inl (failure 400 "No valid fields specified for selection")
      else if existsb (String.eqb "*") validFields then inr None
      else inr (Some (selectedColumns tableSchema validFields))
  | _ => inr None
  end.

(** "Add WHERE conditions" *)
Definition conditionOf (tableSchema : Table) (params : QueryParams)
  : Completion (option SQL) :=
  match where_ params with
  | Some w => if truthy w then buildWhereCondition w tableSchema else normal None
  | None => normal None
  end.

(** "Add ORDER BY" *)
Definition orderingOf (tableName : string) (tableSchema : Table) (params : QueryParams)
  : Completion (Response + list OrderTerm) :=
  match orderBy params with
  | Some o =>
      if truthy o then
        bind (guardedEntries "params.orderBy" o) (fun entries =>
          orderLoop tableName tableSchema entries [])
      else normal (inr [])
  | None => normal (inr [])
  end.

(** [GET /{tableName}].  ([validateTable] followed by [schema[tableName]]
    is the one lookup below.)  What the filter or the order loop throws is
    taken by the [catch] of the handler. *)
Definition listRecords (request : Request) : Handler :=
  match extractTableFromUrl request with
  | None => resolve tableNameRequired
  | Some tableName =>
      match lookup tableName (schema config) with
      | None => resolve (tableNotFound tableName)
      | Some tableSchema =>
          let params := parseQueryParams request in
          match selectionOf tableName tableSchema params with
          | inl response => resolve response
          | inr selectFields =>
              match conditionOf tableSchema params with
              | throw e => resolve (internalError e)
              | normal whereCondition =>
                  match orderingOf tableName tableSchema params with
                  | throw e => resolve (internalError e)
                  | normal (inl response) => resolve response
                  | normal (inr orderConditions) =>
                      execute
                        (select_from selectFields tableSchema whereCondition
                           orderConditions
                           (if nonzero (limit params) then limit params else None)
                           (effectiveOffset params))
                        (listOutcome params)
                  end
              end
          end
      end
  end.

(** The [then] and [catch] of the awaited lookup by id, and the [catch] of
    the handler. *)
Definition recordOutcome (outcome : QueryResult) : Handler :=
  match outcome with
  | fulfilled [] => resolve (failure 404 "Record not found")
  | fulfilled (record :: _) =>
      resolve {| status := 200;
                 json := {| success := true; data := Some record;
                            error := None; message := None; meta := None |} |}
  | rejected msg => resolve (failure_with 500 "Database query failed" msg)
  | thrown msg => resolve (internalError (Error msg))
  end.

(** [let idValue = id; if (/^\d+$/.test(id)) idValue = Number(id)] *)
Definition idValueOf (id : string) : JSON :=
  if all_digits id then JNumber (Number id) else JString id.

(** [GET /{tableName}/{id}].  ([tableSchema['id']] is a property of the
    table's own or undefined: no prototype has an [id].) *)
Definition getRecordById (request : Request) : Handler :=
  match pathParts request with
  | tableName :: id :: _ =>
      match lookup tableName (schema config) with
      | None => resolve (tableNotFound tableName)
      | Some tableSchema =>
          match lookup "id" tableSchema with
          | None => resolve (failure 400 "No id column in table")
          | Some idColumn =>
              let idValue := idValueOf id in
              execute
                (select_from None tableSchema (Some (eq idColumn idValue)) []
                   (Some (finite 1)) None)
                recordOutcome
          end
      end
  | _ => resolve (failure 400 "Table name and id required in URL path")
  end.

(** The success envelope of the three mutations. *)
Definition mutationResponse (verb : string) (result : list JSON) : Response :=
  {| status := 200;
     json := {| success := true;
                data := Some (JArray result);
                error := None;
                message := Some (worded ("Successfully " ++ verb ++ " "
                                       ++ string_of_nat (length result) ++ " record(s)"));
                meta := None |} |}.

(** The [then] and [catch] of an awaited mutation; [caught] is the
    response of the [catch] that takes what the builder throws. *)
Definition mutationOutcome (verb failed : string) (caught : Exception -> Response)
  (outcome : QueryResult) : Handler :=
  match outcome with
  | fulfilled result => resolve (mutationResponse verb result)
  | rejected msg => resolve (failure_with 500 failed msg)
  | thrown msg => resolve (caught (Error msg))
  end.

Definition invalidJsonBody : Response :=
  failure 400 "Invalid JSON in request body".

(** The [catch] behind [request.json().then(...)]: it takes the rejection
    of [request.json()] and whatever the callback throws. *)
Definition bodyCatch (e : Exception) : Response := invalidJsonBody.

(** [POST /{tableName}] *)
Definition createRecords (request : Request) : Handler :=
  match extractTableFromUrl request with
  | None => resolve tableNameRequired
  | Some tableName =>
      match lookup tableName (schema config) with
      | None => resolve (tableNotFound tableName)
      | Some tableSchema =>
          request_json (fun parsed =>
            match parsed with
            | None => resolve invalidJsonBody
            | Some data =>
                if negb (truthy data) then
                  resolve (failure 400 "Request body is required")
                else
                  execute (insert_values tableSchema data)
                    (mutationOutcome "created" "Database insert failed" bodyCatch)
            end)
      end
  end.

(** The guard of PUT and DELETE, negated:
    [params.where && typeof params.where === 'object'
     && Object.keys(params.where).length === 1 && 'id' in params.where] *)
Definition byIdOnly (params : QueryParams) : bool :=
  match where_ params with
  | Some w =>
      truthy w && typeof_object w && Nat.eqb (keys_length w) 1 && has_property "id" w
  | None => false
  end.

Definition onlyById (verb : string) : Response :=
  failure 400 (verb ++ " is only allowed by id. Use ?where={"
               ++ dquote ++ "id" ++ dquote ++ ":1}").

Definition invalidWhere : Response := failure 400 "Invalid WHERE condition".

(** The callback of [request.json()] in PUT, and the [catch] behind it. *)
Definition updateWithBody (tableSchema : Table) (w : JSON) (parsed : option JSON)
  : Handler :=
  match parsed with
  | None => resolve invalidJsonBody
  | Some data =>
      if negb (truthy data) || negb (typeof_object data) then
        resolve (failure 400 "Request body with update data is required")
      else
        match buildWhereCondition w tableSchema with
        | throw e => resolve (bodyCatch e)
        | normal None => resolve invalidWhere
        | normal (Some whereCondition) =>
            execute (update_set tableSchema data whereCondition)
              (mutationOutcome "updated" "Database update failed" bodyCatch)
        end
  end.

(** What DELETE does once its filter is accepted. *)
Definition deleteWhere (tableSchema : Table) (w : JSON) : Handler :=
  match buildWhereCondition w tableSchema with
  | throw e => resolve (internalError e)
  | normal None => resolve invalidWhere
  | normal (Some whereCondition) =>
      execute (delete_from tableSchema whereCondition)
        (mutationOutcome "deleted" "Database delete failed" internalError)
  end.

(** [PUT /{tableName}?where={...}] *)
Definition updateRecords (request : Request) : Handler :=
  match extractTableFromUrl request with
  | None => resolve tableNameRequired
  | Some tableName =>
      match lookup tableName (schema config) with
      | None => resolve (tableNotFound tableName)
      | Some tableSchema =>
          let params := parseQueryParams request in
          match where_ params with
          | Some w =>
              if byIdOnly params then request_json (updateWithBody tableSchema w)
              else resolve (onlyById "Update")
          | None => resolve (onlyById "Update")
          end
      end
  end.

(** [DELETE /{tableName}?where={...}] *)
Definition deleteRecords (request : Request) : Handler :=
  match extractTableFromUrl request with
  | None => resolve tableNameRequired
  | Some tableName =>
      match lookup tableName (schema config) with
      | None => resolve (tableNotFound tableName)
      | Some tableSchema =>
          let params := parseQueryParams request in
          match where_ params with
          | Some w =>
              if byIdOnly params then deleteWhere tableSchema w
              else resolve (onlyById "Delete")
          | None => resolve (onlyById "Delete")
          end
      end
  end.

End WithConfig.

(** The object [createHandler] returns. *)
Record HandlerSet : Type := {
  GET : Request -> Handler;
  GET_BY_ID : Request -> Handler;
  POST : Request -> Handler;
  PUT : Request -> Handler;
  PATCH : Request -> Handler;
  DELETE : Request -> Handler
}.

(** What the identifier [module] denotes where the file is evaluated:
    nothing in an ES module, which the file is written as (it has [import]
    and [export] declarations); the module record under CommonJS, where
    [module.exports.createHandler] is undefined or a function. *)
Inductive ModuleBinding : Type :=
| module_not_defined
| module_exports (createHandler : option (Database -> HandlerSet)).

(** [createHandler(config)].  PATCH evaluates
    [module.exports.createHandler(config).PUT(request)] when it is called,
    outside any [try] and any promise. *)
Definition createHandler (module_ : ModuleBinding) (config : Database) : HandlerSet :=
  {| GET := listRecords config;
     GET_BY_ID := getRecordById config;
     POST := createRecords config;
     PUT := updateRecords config;
     PATCH := fun request =>
       match module_ with
       | module_not_defined => raise (ReferenceError "module")
       | module_exports None => raise (TypeError "module.exports.createHandler" None)
       | module_exports (Some exported) => PUT (exported config) request
       end;
     DELETE := deleteRecords config |}.

End Handlers.

(** How the file is loaded: as the ES module it is written as, or compiled
    to CommonJS, where [exports.createHandler] is the function itself. *)
Inductive ModuleSystem : Type :=
| ES_module
| CommonJS.

(** The function [createHandler] of the module once loaded.  Under CommonJS
    [module.exports.createHandler] is this very function: of the handler
    set it is called for inside PATCH only [PUT] is used, which does not
    look at [module], so that one unfolding ties the knot
    ([loadedModule_exports_itself] below). *)
Definition loadedModule (environment : ModuleSystem)
  (JSON_parse : string -> option JSON) : Database -> HandlerSet :=
  match environment with
  | ES_module => createHandler JSON_parse module_not_defined
  | CommonJS =>
      createHandler JSON_parse
        (module_exports (Some (createHandler JSON_parse module_not_defined)))
  end.

End Drizzle.

(** ** [src/handlers/rest-handler.ts], [src/handlers/maps/handler-maps.ts]
       and the routes that dispatch on them *)

Module HandlerMaps.
Import JS Drizzle.

(** The hono context, as far as the strategies read it. *)
Record Context : Type := {
  req_raw : Request;
  req_param_table : string
}.

Record HandlerStrategy : Type := {
  handle : Context -> Handler
}.

(** [new DefaultHandler(fn)] *)
Definition DefaultHandler (fn : Request -> Handler) : HandlerStrategy :=
  {| handle := fun c => fn (req_raw c) |}.

Section RestHandler.

Variable handler : HandlerSet.  (* [createHandler({ db, schema })] *)

Definition putHandlerMap : list (string * HandlerStrategy) := [].
Definition defaultPutHandler : HandlerStrategy := DefaultHandler (PUT handler).

Definition patchHandlerMap : list (string * HandlerStrategy) := [].
Definition defaultPatchHandler : HandlerStrategy := DefaultHandler (PATCH handler).

(** [handlerMap[table] || defaultHandler], then [handler.handle(c)].  The
    maps are object literals: under a name of [Object.prototype] the lookup
    finds what every object inherits, which is truthy and has no [handle]. *)
Definition dispatch (handlerMap : list (string * HandlerStrategy))
  (defaultHandler : HandlerStrategy) (c : Context) : Handler :=
  match lookup (req_param_table c) handlerMap with
  | Some strategy => handle strategy c
  | None =>
      if inherited (req_param_table c) then raise (TypeError "handler.handle" None)
      else handle defaultHandler c
  end.

Definition route_put : Context -> Handler := dispatch putHandlerMap defaultPutHandler.
Definition route_patch : Context -> Handler := dispatch patchHandlerMap defaultPatchHandler.

End RestHandler.
End HandlerMaps.

(** ** The component schemas of [generateOpenAPISpec] *)

Module OpenAPI.
Import JS Drizzle.

Record Property : Type := {
  type : string;
  format : option string;
  property_description : string
}.

Record SchemaObject : Type := {
  properties : list (string * Property);
  required : list string;
  schema_description : string
}.

(** [a || b] on optional strings *)
Definition or_else (a : option string) (b : string) : string :=
  match a with
  | Some text => if text =? "" then b else text
  | None => b
  end.

(** [fieldDef.dataType || fieldDef.columnType || fieldDef.type || ''] *)
Definition dataTypeOf (fieldDef : Column) : string :=
  or_else (dataType fieldDef) (or_else (columnType fieldDef) (or_else (type_ fieldDef) "")).

Definition propertyOf (tableName fieldName : string) (fieldDef : Column) : Property :=
  let dataType := dataTypeOf fieldDef in
  let description :=
    or_else (description fieldDef) (fieldName ++ " field of " ++ tableName ++ " table") in
  if includes "int" dataType || (dataType =? "number") then
    {| type := "number"; format := None; property_description := description |}
  else if dataType =? "boolean" then
    {| type := "boolean"; format := None; property_description := description |}
  else if (dataType =? "date") || (dataType =? "timestamp") then
    {| type := "string"; format := Some "date-time"; property_description := description |}
  else
    {| type := "string"; format := None; property_description := description |}.

(** [fieldDef.notNull ||
     (typeof fieldDef.isNullable === 'function' && !fieldDef.isNullable())] *)
Definition detectsNotNull (fieldDef : Column) : bool :=
  notNull fieldDef
  || match isNullable fieldDef with Some nullable => negb nullable | None => false end.

(** [for (const [fieldName, fieldDefRaw] of Object.entries(tableSchema))] *)
Fixpoint fieldsLoop (tableName : string) (entries : list (string * Column))
  (properties : list (string * Property)) (required : list string)
  : list (string * Property) * list string :=
  match entries with
  | [] => (properties, required)
  | (fieldName, fieldDef) :: rest =>
      if fieldName =? "enableRLS" then fieldsLoop tableName rest properties required
      else
        fieldsLoop tableName rest
          (assign fieldName (propertyOf tableName fieldName fieldDef) properties)
          (if detectsNotNull fieldDef then required ++ [fieldName] else required)
  end.

(** [spec.components.schemas[tableName]] and
    [spec.components.schemas[`${tableName}Input`]], as the loop assigns them *)
Definition outputSchema (tableName : string) (tableSchema : Table) : SchemaObject :=
  let '(properties, required) := fieldsLoop tableName tableSchema [] [] in
  {| properties := properties; required := required;
     schema_description := tableName ++ " table schema" |}.

Definition inputSchema (tableName : string) (tableSchema : Table) : SchemaObject :=
  let '(properties, required) := fieldsLoop tableName tableSchema [] [] in
  {| properties := properties; required := required;
     schema_description :=
       "Input schema for creating/updating " ++ tableName ++ " records" |}.

(** [for (const [tableName, tableSchema] of Object.entries(schema))], from
    the schemas the literal already holds ([ApiResponse], [ErrorResponse]). *)
Definition componentSchemas (schema : list (string * Table)) (excludedTables : list string)
  (literal : list (string * SchemaObject)) : list (string * SchemaObject) :=
  fold_left
    (fun schemas entry =>
       let '(tableName, tableSchema) := entry in
       if existsb (String.eqb tableName) excludedTables then schemas
       else
         assign (tableName ++ "Input") (inputSchema tableName tableSchema)
           (assign tableName (outputSchema tableName tableSchema) schemas))
    schema literal.

End OpenAPI.

(** ** A reader for JSON texts

    The handlers take [JSON.parse] as a parameter.  [JsonText.parse] reads
    the JSON documents that have no escape sequence in a string and no
    fraction or exponent in a number (an integer is read as the double
    nearest to it), and refuses every other text; the examples below
    instantiate the parameter with it. *)

Module JsonText.
Import JS.

Definition quote_char : ascii := ascii_of_nat 34.
Definition backslash_char : ascii := ascii_of_nat 92.

Definition is_ws (c : ascii) : bool :=
  let n := nat_of_ascii c in
  Nat.eqb n 32 || Nat.eqb n 9 || Nat.eqb n 10 || Nat.eqb n 13.

Fixpoint skip_ws (cs : list ascii) : list ascii :=
  match cs with
  | c :: rest => if is_ws c then skip_ws rest else cs
  | [] => []
  end.

Fixpoint strip_prefix (prefix cs : list ascii) : option (list ascii) :=
  match prefix, cs with
  | [], _ => Some cs
  | p :: prefix', c :: rest => if Ascii.eqb p c then strip_prefix prefix' rest else None
  | _ :: _, [] => None
  end.

(** The characters of a string up to its closing quote. *)
Fixpoint string_body (cs acc : list ascii) : option (string * list ascii) :=
  match cs with
  | [] => None
  | c :: rest =>
      if Ascii.eqb c quote_char then Some (string_of_list_ascii (rev acc), rest)
      else if Ascii.eqb c backslash_char || Nat.ltb (nat_of_ascii c) 32 then None
      else string_body rest (c :: acc)
  end.

(** An integer: [0], or a non-zero digit followed by digits. *)
Definition natural (cs : list ascii) : option (Z * list ascii) :=
  match digits_prefix cs with
  | [] => None
  | d :: ds =>
      let rest := skipn (length (d :: ds)) cs in
      let stop :=
        match rest with
        | c :: _ => Ascii.eqb c "."%char || Ascii.eqb c "e"%char || Ascii.eqb c "E"%char
        | [] => false
        end in
      if stop then None
      else if Ascii.eqb d "0"%char && negb (Nat.eqb (length ds) 0) then None
      else Some (decimal_value (d :: ds), rest)
  end.

Section Composite.
Variable value : list ascii -> option (JSON * list ascii).

Fixpoint elements (fuel : nat) (cs : list ascii) (acc : list JSON)
  : option (list JSON * list ascii) :=
  match fuel with
  | O => None
  | S fuel' =>
      match value cs with
      | Some (v, rest) =>
          match skip_ws rest with
          | c :: rest' =>
              if Ascii.eqb c ","%char then elements fuel' rest' (v :: acc)
              else if Ascii.eqb c "]"%char then Some (rev (v :: acc), rest')
              else None
          | [] => None
          end
      | None => None
      end
  end.

Fixpoint members (fuel : nat) (cs : list ascii) (acc : list (string * JSON))
  : option (list (string * JSON) * list ascii) :=
  match fuel with
  | O => None
  | S fuel' =>
      match skip_ws cs with
      | q :: rest =>
          if Ascii.eqb q quote_char then
            match string_body rest [] with
            | Some (key, rest1) =>
                match skip_ws rest1 with
                | colon :: rest2 =>
                    if Ascii.eqb colon ":"%char then
                      match value rest2 with
                      | Some (v, rest3) =>
                          match skip_ws rest3 with
                          | c :: rest4 =>
                              if Ascii.eqb c ","%char
                              then members fuel' rest4 (assign key v acc)
                              else if Ascii.eqb c "}"%char
                              then Some (assign key v acc, rest4)
                              else None
                          | [] => None
                          end
                      | None => None
                      end
                    else None
                | [] => None
                end
            | None => None
            end
          else None
      | [] => None
      end
  end.
End Composite.

Fixpoint value (fuel : nat) (cs : list ascii) : option (JSON * list ascii) :=
  match fuel with
  | O => None
  | S fuel' =>
      match skip_ws cs with
      | [] => None
      | c :: rest =>
          if Ascii.eqb c quote_char then
            match string_body rest [] with
            | Some (s, rest') => Some (JString s, rest')
            | None => None
            end
          else if Ascii.eqb c "["%char then
            match skip_ws rest with
            | c' :: rest' =>
                if Ascii.eqb c' "]"%char then Some (JArray [], rest')
                else match elements (value fuel') fuel' rest [] with
                     | Some (items, rest'') => Some (JArray items, rest'')
                     | None => None
                     end
            | [] => None
            end
          else if Ascii.eqb c "{"%char then
            match skip_ws rest with
            | c' :: rest' =>
                if Ascii.eqb c' "}"%char then Some (JObject [], rest')
                else match members (value fuel') fuel' rest [] with
                     | Some (props, rest'') => Some (JObject props, rest'')
                     | None => None
                     end
            | [] => None
            end
          else if Ascii.eqb c "-"%char then
            match natural rest with
            | Some (n, rest') => Some (JNumber (double (- n)), rest')
            | None => None
            end
          else if is_digit c then
            match natural (c :: rest) with
            | Some (n, rest') => Some (JNumber (double n), rest')
            | None => None
            end
          else
            match strip_prefix (list_ascii_of_string "null") (c :: rest),
                  strip_prefix (list_ascii_of_string "true") (c :: rest),
                  strip_prefix (list_ascii_of_string "false") (c :: rest) with
            | Some rest', _, _ => Some (JNull, rest')
            | _, Some rest', _ => Some (JBool true, rest')
            | _, _, Some rest' => Some (JBool false, rest')
            | _, _, _ => None
            end
      end
  end.

Definition parse (text : string) : option JSON :=
  let cs := list_ascii_of_string text in
  match value (S (length cs)) cs with
  | Some (v, rest) =>
      match skip_ws rest with
      | [] => Some v
      | _ => None
      end
  | None => None
  end.

(** [{ "id": 1 }] and the like, written without quotes in the source text *)
Definition q (s : string) : string := dquote ++ s ++ dquote.

End JsonText.


(** ** A concrete instance: the [posts] table of [src/db/schema.ts] and an
       executor over three rows *)

Module Sample.
Import JS Drizzle.

Definition column (key dataType columnType : string) (hasDefault : bool) : Column :=
  {| name := key; dataType := Some dataType; columnType := Some columnType;
     type_ := None; description := None; notNull := true; isNullable := None;
     hasDefault := hasDefault |}.

Definition idColumn : Column := column "id" "string" "PgUUID" true.
Definition titleColumn : Column := column "title" "string" "PgVarchar" false.
Definition createdAtColumn : Column := column "createdAt" "date" "PgTimestamp" true.

Definition posts : Table :=
  [ ("id", idColumn);
    ("userId", column "userId" "string" "PgUUID" false);
    ("title", titleColumn);
    ("content", column "content" "string" "PgVarchar" false);
    ("createdAt", createdAtColumn);
    ("updatedAt", column "updatedAt" "date" "PgTimestamp" true) ].

Definition row (id : Z) (title : string) : JSON :=
  JObject [("id", JNumber id); ("title", JString title)].

Definition rows : list JSON := [row 1 "Intro"; row 2 "Second"; row 3 "Third"].

(** A number of rows: all of the [available] ones for an infinity. *)
Definition count (n : Num) (available : nat) : nat :=
  match n with
  | finite z => Z.to_nat z
  | infinity => available
  | _ => 0
  end.

(** [limit] and [offset] applied to the rows a query selects. *)
Definition window (limit offset : option Num) (selected : list JSON) : list JSON :=
  let skipped :=
    match offset with
    | Some o => skipn (count o (length selected)) selected
    | None => selected
    end in
  match limit with
  | Some l => firstn (count l (length skipped)) skipped
  | None => skipped
  end.

(** A builder and an executor that know three rows, ignore conditions and
    ordering, and honour [limit] and [offset]; the builder refuses, as
    drizzle's does, to insert no row and to set no value. *)
Definition executor (query : Query) : QueryResult :=
  match query with
  | select_from _ _ _ _ limit offset => fulfilled (window limit offset rows)
  | insert_values _ (JArray []) => thrown "values() must be called with at least one value"
  | insert_values _ values => fulfilled [values]
  | update_set _ (JObject []) _ | update_set _ (JArray []) _ => thrown "No values to set"
  | update_set _ _ _ => fulfilled [row 1 "Intro"]
  | delete_from _ _ => fulfilled [row 1 "Intro"]
  end.

Definition config : Database := {| db := executor; schema := [("posts", posts)] |}.

Definition get (path : string) (query : list (string * string)) : Request :=
  {| pathname := path; searchParams := query; body := None |}.

Definition with_body (path : string) (query : list (string * string)) (payload : JSON)
  : Request :=
  {| pathname := path; searchParams := query; body := Some payload |}.

(** A numeral beyond the largest double: ["1"] and 309 zeros *)
Definition huge : string := "1" ++ String.concat "" (repeat "0" 309).

(** [{"id":1}] and [{"id":1,"name":"x"}] as they arrive in the query string *)
Definition whereId1 : string := "{" ++ JsonText.q "id" ++ ":1}".
Definition whereIdAndName : string :=
  "{" ++ JsonText.q "id" ++ ":1," ++ JsonText.q "name" ++ ":" ++ JsonText.q "x" ++ "}".

End Sample.

(** ** [src/handlers/strategies/post-strategy.ts] and
       [src/handlers/maps/post-handler-map.ts] *)

Module PostStrategy.
Import JS Drizzle.

(** The hono context, as far as the POST strategies read it: the raw
    request, the [:table] parameter and the [x-user-id] header. *)
Record Context : Type := {
  raw : Request;
  param_table : string;
  header_x_user_id : option string
}.







Section PostHandlerMap.

Variable POST : Request -> Handler.  (* [POST] of [rest-handler.ts] *)




End PostHandlerMap.
End PostStrategy.

(** ** The example payloads of [generateOpenAPISpec] *)

Module OpenAPIExamples.
Import JS Drizzle OpenAPI.

Definition lower (c : ascii) : ascii :=
  let n := nat_of_ascii c in
  if Nat.leb 65 n && Nat.leb n 90 then ascii_of_nat (n + 32) else c.

(** [s.toLowerCase()], on ASCII letters *)
Fixpoint toLowerCase (s : string) : string :=
  match s with
  | EmptyString => EmptyString
  | String c rest => String (lower c) (toLowerCase rest)
  end.

(** The chain of tests that picks an example value for a field; the
    builders of the source repeat it, each with its own values. *)
Definition exampleValue (number : Z) (boolean : bool)
  (date email name title content : string)
  (fieldName : string) (fieldDef : Column) : JSON :=
  let dataType := dataTypeOf fieldDef in
  if includes "int" dataType || (dataType =? "number") then JNumber number
  else if dataType =? "boolean" then JBool boolean
  else if (dataType =? "date") || (dataType =? "timestamp") then JString date
  else if includes "email" (toLowerCase fieldName) then JString email
  else if includes "name" (toLowerCase fieldName) then JString name
  else if includes "title" (toLowerCase fieldName) then JString title
  else if includes "content" (toLowerCase fieldName) then JString content
  else JString "string".

Section ExamplePayload.

(** [fieldDef.defaultNow] and [fieldDef.defaultRandom], as truth values:
    two properties the builder reads off the raw definition. *)
Variables defaultNow defaultRandom : Column -> bool.

Definition isAuto (fieldName : string) (fieldDef : Column) : bool :=
  (fieldName =? "id") || (fieldName =? "createdAt") || (fieldName =? "updatedAt")
  || defaultNow fieldDef || defaultRandom fieldDef || hasDefault fieldDef.

(** [buildExamplePayload()], for the table [tableSchema] *)
Fixpoint buildExamplePayload (tableSchema : Table) (example : list (string * JSON))
  : list (string * JSON) :=
  match tableSchema with
  | [] => example
  | (fieldName, fieldDef) :: rest =>
      if fieldName =? "enableRLS" then buildExamplePayload rest example
      else if isAuto fieldName fieldDef then buildExamplePayload rest example
      else
        buildExamplePayload rest
          (assign fieldName
             (exampleValue 123 true "2025-08-15T10:30:00Z" "john@example.com" "John Doe"
                "My Post Title" "This is the post content." fieldName fieldDef)
             example)
  end.

End ExamplePayload.

(** The example of the request body of PUT (and of PATCH, the same loop) *)
Fixpoint updateExample (tableSchema : Table) (example : list (string * JSON))
  : list (string * JSON) :=
  match tableSchema with
  | [] => example
  | (fieldName, fieldDef) :: rest =>
      if existsb (String.eqb fieldName) ["id"; "createdAt"; "updatedAt"; "enableRLS"]
      then updateExample rest example
      else
        updateExample rest
          (assign fieldName
             (exampleValue 2 false "2025-08-15T10:35:00Z" "jane.doe@example.com" "Jane Doe"
                "Updated Post Title" "This is the updated post content."
                fieldName fieldDef)
             example)
  end.

End OpenAPIExamples.

(** ** The paths of the custom routes in [generateOpenAPISpec] *)

Module OpenAPIPaths.
Import JS Drizzle OpenAPI OpenAPIExamples.

Definition apiPrefix : string := "/api/v1".

Definition upper (c : ascii) : ascii :=
  let n := nat_of_ascii c in
  if Nat.leb 97 n && Nat.leb n 122 then ascii_of_nat (n - 32) else c.

(** [action.charAt(0).toUpperCase() + action.slice(1)], on ASCII letters *)
Definition capitalize (action : string) : string :=
  match action with
  | EmptyString => EmptyString
  | String c rest => String (upper c) rest
  end.

Definition ref (target : string) : JSON := JObject [("$ref", JString target)].

Definition customResponses : JSON :=
  JObject
    [ ("200",
       JObject
         [ ("description", JString "Successful response");
           ("content",
            JObject
              [ ("application/json",
                 JObject [("schema", ref "#/components/schemas/ApiResponse")]) ]) ]);
      ("400", ref "#/components/responses/BadRequest");
      ("500", ref "#/components/responses/InternalError") ].

Definition customRequestBody : JSON :=
  JObject
    [ ("required", JBool true);
      ("content",
       JObject
         [ ("application/json",
            JObject
              [ ("schema",
                 JObject
                   [ ("type", JString "object");
                     ("additionalProperties", JBool true);
                     ("description", JString "Request payload for custom endpoint") ]) ]) ]) ].

Definition customParameters : JSON :=
  JArray
    [ JObject
        [ ("name", JString "q");
          ("in", JString "query");
          ("schema", JObject [("type", JString "string")]);
          ("description", JString "Query parameter (varies by endpoint)");
          ("required", JBool false) ] ].

Section CustomRoutes.
Variable schema : list (string * Table).

(** The object assigned to [spec.paths[pathKey][methodLower]], with the
    [requestBody] and the [parameters] the two tests after it add. *)
Definition customOperation (routePath method : string) : list (string * JSON) :=
  let parts := split "/"%char routePath in
  let tableName := match nth_error parts 0 with Some part => part | None => "undefined" end in
  let action := nth_error parts 1 in
  let isTableRoute := has_key tableName schema in
  let methodLower := toLowerCase method in
  let operation :=
    [ ("summary",
       JString
         ((match action with
           | Some text => if text =? "" then "Custom" else capitalize text
           | None => "Custom"
           end)
          ++ " " ++ (if isTableRoute then tableName else "endpoint")));
      ("description", JString ("Custom " ++ method ++ " endpoint for " ++ routePath));
      ("tags", JArray [JString (if isTableRoute then tableName else "Custom")]);
      ("responses", customResponses) ] in
  let operation :=
    if existsb (String.eqb methodLower) ["post"; "put"; "patch"]
    then assign "requestBody" customRequestBody operation
    else operation in
  if methodLower =? "get" then assign "parameters" customParameters operation
  else operation.

(** [obj[key] = value] on an object literal: a property of its own, except
    under the key [__proto__], where the assignment replaces the prototype
    and leaves the properties as they are. *)
Definition store {A : Type} (key : string) (value : A) (props : list (string * A))
  : list (string * A) :=
  if key =? "__proto__" then props else assign key value props.

(** [for (const [method, enabled] of Object.entries(methods))], on the
    object [spec.paths[pathKey]] *)
Fixpoint methodsLoop (routePath : string) (methods : list (string * bool))
  (pathItem : list (string * JSON)) : list (string * JSON) :=
  match methods with
  | [] => pathItem
  | (method, enabled) :: rest =>
      if enabled then
        methodsLoop routePath rest
          (store (toLowerCase method) (JObject (customOperation routePath method))
             pathItem)
      else methodsLoop routePath rest pathItem
  end.

(** [for (const [routePath, methods] of Object.entries(customRoutes))] *)
Fixpoint customRoutesLoop (customRoutes : list (string * list (string * bool)))
  (paths : list (string * list (string * JSON))) : list (string * list (string * JSON)) :=
  match customRoutes with
  | [] => paths
  | (routePath, methods) :: rest =>
      let pathKey := apiPrefix ++ "/" ++ routePath in
      let pathItem := match lookup pathKey paths with Some item => item | None => [] end in
      customRoutesLoop rest (assign pathKey (methodsLoop routePath methods pathItem) paths)
  end.

End CustomRoutes.
End OpenAPIPaths.

(** ** Vocabulary of the statements *)

Import JS Drizzle OpenAPI.

(** The operators the [switch] of the field loop has a case for. *)
Definition recognized (operator : string) : bool :=
  existsb (String.eqb operator) ["eq"; "ne"; "gt"; "gte"; "lt"; "lte"; "like"; "ilike"].

(** The fields the loop detects as not null, in the order of the table. *)
Definition notNullFields (tableSchema : Table) : list string :=
  map fst
    (filter (fun entry => negb (fst entry =? "enableRLS") && detectsNotNull (snd entry))
       tableSchema).

(** The required list in the words of the specification: the columns with
    neither a default nor nullability. *)
Definition required_as_specified (tableSchema : Table) : list string :=
  map fst
    (filter (fun entry => negb (fst entry =? "enableRLS")
                          && negb (hasDefault (snd entry)) && detectsNotNull (snd entry))
       tableSchema).

(** The request without the query parameter [name]. *)
Definition without (name : string) (request : Request) : Request :=
  {| pathname := pathname request;
     searchParams :=
       filter (fun parameter => negb (fst parameter =? name)) (searchParams request);
     body := body request |}.

(** The six handlers of the loaded module. *)
Definition handlers (environment : ModuleSystem) (JSON_parse : string -> option JSON)
  (config : Database) : list (Request -> Handler) :=
  let handler := loadedModule environment JSON_parse config in
  [GET handler; GET_BY_ID handler; POST handler; PUT handler; PATCH handler;
   DELETE handler].

(** A response that refuses: [success: false] and no data, with status
    400 or 404, or with 500 and the error of the handler's [catch]. *)
Definition refuses (response : Response) : Prop :=
  success (json response) = false
  /\ data (json response) = None
  /\ (status response = 400 \/ status response = 404
      \/ (status response = 500
          /\ error (json response) = Some "Internal server error")).

(** The discipline the handlers keep: what is resolved before any query
    is a refusal; a query is awaited with a continuation that turns rows
    into a 200 with data (or, finding none, into a 404), a rejection into
    a 500 that carries its message and an error other than that of the
    handler's [catch], and what the builder throws into a refusal. *)
Inductive disciplined : Handler -> Prop :=
| disciplined_refusal (response : Response) :
    refuses response ->
    disciplined (resolve response)
| disciplined_raise (e : Exception) :
    disciplined (raise e)
| disciplined_body (next : option JSON -> Handler) :
    (forall parsed, disciplined (next parsed)) ->
    disciplined (request_json next)
| disciplined_query (query : Query) (next : QueryResult -> Handler) :
    (forall rows, exists response,
        next (fulfilled rows) = resolve response
        /\ ((status response = 200 /\ success (json response) = true
             /\ data (json response) <> None)
            \/ (status response = 404 /\ success (json response) = false
                /\ data (json response) = None))) ->
    (forall msg, exists err,
        next (rejected msg) = resolve (failure_with 500 err msg)
        /\ err <> "Internal server error") ->
    (forall msg, exists response,
        next (thrown msg) = resolve response /\ refuses response) ->
    disciplined (execute query next).

(** The columns a condition mentions. *)
Fixpoint columns_of (condition : SQL) : list AnyColumn :=
  match condition with
  | and_ conditions | or_ conditions => flat_map columns_of conditions
  | not_ c => columns_of c
  | eq column _ | ne column _ | gt column _ | gte column _
  | lt column _ | lte column _ | like column _ | ilike column _ => [column]
  end.

(** No [and] and no [or] of a condition is empty. *)
Fixpoint nonempty_junctions (condition : SQL) : bool :=
  match condition with
  | and_ conditions | or_ conditions =>
      negb (Nat.eqb (length conditions) 0) && forallb nonempty_junctions conditions
  | not_ c => nonempty_junctions c
  | _ => true
  end.

(** A path segment: not empty, and without a slash. *)
Definition is_segment (s : string) : bool :=
  negb (s =? "")
  && forallb (fun c => negb (Ascii.eqb c "/"%char)) (list_ascii_of_string s).

(** The term the order loop pushes for a valid entry. *)
Definition orderTerm (tableSchema : Table) (entry : string * JSON) : OrderTerm :=
  if is_text "desc" (snd entry) then desc (member (fst entry) tableSchema)
  else asc (member (fst entry) tableSchema).

(** A condition that is sound for a table: its junctions are not empty and
    what it compares is what the table object has under some key. *)
Definition sound_for (tableSchema : Table) (condition : SQL) : Prop :=
  nonempty_junctions condition = true
  /\ forall column, In column (columns_of condition) ->
                    exists key, member key tableSchema = Some column.

(** Every query a handler may come to await satisfies [P]. *)
Inductive issues_only (P : Query -> Prop) : Handler -> Prop :=
| issues_nothing (response : Response) : issues_only P (resolve response)
| issues_none (e : Exception) : issues_only P (raise e)
| issues_after_body (next : option JSON -> Handler) :
    (forall parsed, issues_only P (next parsed)) ->
    issues_only P (request_json next)
| issues_query (query : Query) (next : QueryResult -> Handler) :
    P query ->
    (forall outcome, issues_only P (next outcome)) ->
    issues_only P (execute query next).

(** The table a query is on. *)
Definition table_of (query : Query) : Table :=
  match query with
  | select_from _ table _ _ _ _ => table
  | insert_values table _ => table
  | update_set table _ _ => table
  | delete_from table _ => table
  end.

(** The queries of the handlers of a request are on the table that the
    path of the request names. *)
Definition on_the_table_of (config : Database) (request : Request) (query : Query)
  : Prop :=
  exists tableName,
    hd_error (pathParts request) = Some tableName
    /\ lookup tableName (schema config) = Some (table_of query).

(** The kind of a query, and the handlers with the kind of their verb. *)
Definition kind (query : Query) : string :=
  match query with
  | select_from _ _ _ _ _ _ => "select"
  | insert_values _ _ => "insert"
  | update_set _ _ _ => "update"
  | delete_from _ _ => "delete"
  end.

Definition handlersByKind (environment : ModuleSystem)
  (JSON_parse : string -> option JSON) (config : Database)
  : list (string * (Request -> Handler)) :=
  let handler := loadedModule environment JSON_parse config in
  [("select", GET handler); ("select", GET_BY_ID handler); ("insert", POST handler);
   ("update", PUT handler); ("update", PATCH handler); ("delete", DELETE handler)].

(** [typeof value] *)
Definition typeof (value : JSON) : string :=
  match value with
  | JNumber _ => "number"
  | JBool _ => "boolean"
  | JString _ => "string"
  | _ => "object"
  end.

(** The fields the generator never shows: those named in its skip list. *)
Definition named_in (names : list string) (fieldName : string) : bool :=
  existsb (String.eqb fieldName) names.

(** The object a loop over the entries of a table builds from [start],
    when it assigns [value] of every entry it keeps. *)
Definition assigned {A B : Type} (keep : string -> A -> bool) (value : string -> A -> B)
  (entries : list (string * A)) (start : list (string * B)) : list (string * B) :=
  fold_left
    (fun object entry =>
       if keep (fst entry) (snd entry)
       then assign (fst entry) (value (fst entry) (snd entry)) object
       else object)
    entries start.

(** The values of the example of a request body of POST, and of PUT and PATCH *)
Definition createValue : string -> Column -> JSON :=
  OpenAPIExamples.exampleValue 123 true "2025-08-15T10:30:00Z" "john@example.com"
    "John Doe" "My Post Title" "This is the post content.".

Definition updateValue : string -> Column -> JSON :=
  OpenAPIExamples.exampleValue 2 false "2025-08-15T10:35:00Z" "jane.doe@example.com"
    "Jane Doe" "Updated Post Title" "This is the updated post content.".

Definition generatedNames : list string := ["id"; "createdAt"; "updatedAt"; "enableRLS"].

(** The query parameters the list handler reads. *)
Definition listParameters : list string :=
  ["select"; "where"; "orderBy"; "limit"; "page"; "offset"].

(** At most [l] rows: any number for an infinity. *)
Definition at_most (rows : nat) (l : Num) : Prop :=
  match l with
  | finite z => (Z.of_nat rows <= z)%Z
  | infinity => True
  | _ => False
  end.

(** [s] does not begin with a digit. *)
Definition no_leading_digit (s : string) : bool :=
  match s with
  | EmptyString => true
  | String c _ => negb (is_digit c)
  end.

(** * Properties *)

(** ** Property lists *)

Section PropertyLists.
Context {A : Type}.

Lemma lookup_app (key : string) (xs ys : list (string * A)) :
  lookup key (xs ++ ys)
  = match lookup key xs with Some v => Some v | None => lookup key ys end.
Proof.
  induction xs as [|[k v] xs IH]; simpl; [reflexivity|].
  destruct (k =? key); [reflexivity | exact IH].
Qed.

Lemma lookup_assign_same (key : string) (value : A) (props : list (string * A)) :
  lookup key (assign key value props) = Some value.
Proof.
  induction props as [|[k v] props IH]; simpl.
  - rewrite String.eqb_refl. reflexivity.
  - destruct (k =? key) eqn:E; simpl; rewrite E; [reflexivity | exact IH].
Qed.

Lemma lookup_assign_other (key key' : string) (value : A) (props : list (string * A)) :
  key <> key' ->
  lookup key' (assign key value props) = lookup key' props.
Proof.
  intros Hne. induction props as [|[k v] props IH]; simpl.
  - destruct (key =? key') eqn:E; [apply String.eqb_eq in E; contradiction | reflexivity].
  - destruct (k =? key) eqn:E; simpl.
    + apply String.eqb_eq in E. subst k.
      destruct (key =? key') eqn:E'; [apply String.eqb_eq in E'; contradiction | reflexivity].
    + destruct (k =? key'); [reflexivity | exact IH].
Qed.

Lemma with_prop_lookup {B : Type} (f : A -> B) (d : B) (key : string)
  (props : list (string * A)) :
  with_prop f d key props
  = match lookup key props with Some v => f v | None => d end.
Proof.
  induction props as [|[k v] props IH]; simpl; [reflexivity|].
  destruct (k =? key); [reflexivity | exact IH].
Qed.

Lemma lookup_drop (key key' : string) (value : A) (xs ys : list (string * A)) :
  key <> key' ->
  lookup key' (xs ++ (key, value) :: ys) = lookup key' (xs ++ ys).
Proof.
  intros Hne. rewrite !lookup_app. simpl.
  destruct (key =? key') eqn:E; [apply String.eqb_eq in E; contradiction | reflexivity].
Qed.

Lemma lookup_replace (key key' : string) (value value' : A) (xs ys : list (string * A)) :
  key <> key' ->
  lookup key' (xs ++ (key, value) :: ys) = lookup key' (xs ++ (key, value') :: ys).
Proof.
  intros Hne. rewrite !lookup_app. simpl.
  destruct (key =? key') eqn:E; [apply String.eqb_eq in E; contradiction | reflexivity].
Qed.
End PropertyLists.

Lemma map_defined_app {A B : Type} (f : A -> option B) (xs ys : list A) :
  map_defined f (xs ++ ys) = (map_defined f xs ++ map_defined f ys)%list.
Proof.
  induction xs as [|x xs IH]; simpl; [reflexivity|].
  destruct (f x); simpl; rewrite IH; reflexivity.
Qed.

(** [validateTable] holds exactly when [schema[tableName]] is there. *)
Lemma validateTable_lookup (config : Database) (tableName : string) :
  validateTable config tableName = true
  <-> exists tableSchema, lookup tableName (schema config) = Some tableSchema.
Proof.
  unfold validateTable, has_key.
  destruct (lookup tableName (schema config)) as [tableSchema|]; split.
  - intros _. exists tableSchema. reflexivity.
  - reflexivity.
  - discriminate.
  - intros [tableSchema H]. discriminate.
Qed.

(** ** The filter compiler *)

Lemma guardedEntries_object (callee : string) (props : list (string * JSON)) :
  lookup "hasOwnProperty" props = None ->
  guardedEntries callee (JObject props) = normal props.
Proof. intros H. cbn [guardedEntries]. rewrite H. reflexivity. Qed.


(** Only an object with a property [hasOwnProperty] of its own makes the
    guarded enumeration throw. *)
Lemma guardedEntries_throws (callee : string) (obj : JSON) (e : Exception) :
  guardedEntries callee obj = throw e ->
  exists props value,
    obj = JObject props /\ lookup "hasOwnProperty" props = Some value
    /\ e = TypeError (callee ++ ".hasOwnProperty") (Some value).
Proof.
  destruct obj as [|b|n|s|items|props]; try discriminate.
  cbn [guardedEntries]. destruct (lookup "hasOwnProperty" props) as [value|] eqn:E;
    [|discriminate].
  intros [= <-]. exists props, value. repeat split. exact E.
Qed.

Lemma guardedEntries_normal (callee : string) (obj : JSON)
  (entries : list (string * JSON)) :
  guardedEntries callee obj = normal entries -> entries = ownEntries obj.
Proof.
  destruct obj as [|b|n|s|items|props]; cbn [guardedEntries ownEntries];
    try (intros [= <-]; reflexivity).
  destruct (lookup "hasOwnProperty" props); [discriminate|].
  intros [= <-]. reflexivity.
Qed.

Lemma push_each_app {A B : Type} (f : A -> Completion (list B)) (xs ys : list A) :
  push_each f (xs ++ ys)
  = bind (push_each f xs) (fun pushed =>
      bind (push_each f ys) (fun more => normal (pushed ++ more)%list)).
Proof.
  induction xs as [|x xs IH]; cbn [push_each app bind].
  - destruct (push_each f ys); reflexivity.
  - destruct (f x) as [pushed|e]; [|reflexivity]. rewrite IH.
    destruct (push_each f xs) as [pushed'|e]; [|reflexivity]. cbn [bind].
    destruct (push_each f ys) as [more|e]; [|reflexivity]. cbn [bind].
    rewrite app_assoc. reflexivity.
Qed.

(** An element for which nothing is pushed may be left out. *)
Lemma push_each_drop {A B : Type} (f : A -> Completion (list B)) (x : A)
  (xs ys : list A) :
  f x = normal [] -> push_each f (xs ++ x :: ys) = push_each f (xs ++ ys).
Proof.
  intros H. rewrite !push_each_app. cbn [push_each]. rewrite H.
  destruct (push_each f xs); [|reflexivity]. cbn [bind].
  destruct (push_each f ys); reflexivity.
Qed.

(** Two elements for which the same is pushed may stand for each other. *)
Lemma push_each_replace {A B : Type} (f : A -> Completion (list B)) (x x' : A)
  (xs ys : list A) :
  f x = f x' -> push_each f (xs ++ x :: ys) = push_each f (xs ++ x' :: ys).
Proof.
  intros H. rewrite !push_each_app. cbn [push_each]. rewrite H. reflexivity.
Qed.

(** The equation of [buildWhereCondition] on an object, with plain
    property reads: the four blocks of the source in their order. *)
Lemma buildWhereCondition_object (props : list (string * JSON)) (tableSchema : Table) :
  buildWhereCondition (JObject props) tableSchema
  = bind
      match lookup "AND" props with
      | Some (JArray items) =>
          bind (map_completed (fun c => buildWhereCondition c tableSchema) items)
            (fun onlyDefinedAnd =>
               normal match onlyDefinedAnd with
                      | [] => []
                      | _ => [and_ onlyDefinedAnd]
                      end)
      | _ => normal []
      end
      (fun andPart =>
    bind
      match lookup "OR" props with
      | Some (JArray items) =>
          bind (map_completed (fun c => buildWhereCondition c tableSchema) items)
            (fun onlyDefinedOr =>
               normal match onlyDefinedOr with
                      | [] => []
                      | _ => [or_ onlyDefinedOr]
                      end)
      | _ => normal []
      end
      (fun orPart =>
    bind
      match lookup "NOT" props with
      | Some v =>
          if truthy v then
            bind (buildWhereCondition v tableSchema) (fun notCondition =>
              normal match notCondition with
                     | Some condition => [not_ condition]
                     | None => []
                     end)
          else normal []
      | None => normal []
      end
      (fun notPart =>
    bind (objectToEntries (JObject props)) (fun entries =>
    bind (push_each (fieldCondition tableSchema) entries) (fun fields =>
    normal (finish (andPart ++ orPart ++ notPart ++ fields))))))).
Proof.
  cbn [buildWhereCondition]. rewrite !with_prop_lookup.
  destruct (lookup "AND" props) as [[| | | | |]|];
    destruct (lookup "OR" props) as [[| | | | |]|];
    destruct (lookup "NOT" props); reflexivity.
Qed.

(** An object without logical operators and without a [hasOwnProperty] of
    its own compiles to the conditions of its entries, under one [and]. *)
Lemma buildWhereCondition_fields (props : list (string * JSON)) (tableSchema : Table) :
  lookup "AND" props = None -> lookup "OR" props = None -> lookup "NOT" props = None ->
  lookup "hasOwnProperty" props = None ->
  buildWhereCondition (JObject props) tableSchema
  = bind (push_each (fieldCondition tableSchema) props) (fun fields =>
      normal (finish fields)).
Proof.
  intros HAND HOR HNOT Hown. rewrite buildWhereCondition_object.
  rewrite HAND, HOR, HNOT. unfold objectToEntries.
  rewrite (guardedEntries_object _ _ Hown). reflexivity.
Qed.

Lemma operatorCondition_unrecognized (column : AnyColumn) (operator : string)
  (value : JSON) :
  recognized operator = false -> operatorCondition column (operator, value) = None.
Proof.
  unfold recognized, operatorCondition. simpl.
  repeat (destruct (operator =? _); [discriminate|]); simpl.
  reflexivity.
Qed.

Lemma operatorCondition_recognized (column : AnyColumn) (operator : string)
  (value : JSON) :
  recognized operator = true -> operatorCondition column (operator, value) <> None.
Proof.
  unfold recognized, operatorCondition. simpl.
  repeat (destruct (operator =? _); [discriminate|]); simpl.
  discriminate.
Qed.

Lemma is_logical_false (key : string) :
  is_logical key = false -> key <> "AND" /\ key <> "OR" /\ key <> "NOT".
Proof.
  unfold is_logical. intros H.
  apply orb_false_iff in H as [H HNOT]. apply orb_false_iff in H as [HAND HOR].
  repeat split; intros ->; discriminate.
Qed.

Lemma lookup_not_in {A : Type} (key : string) (props : list (string * A)) :
  (forall k v, In (k, v) props -> k <> key) -> lookup key props = None.
Proof.
  induction props as [|[k v] props IH]; simpl; intros H; [reflexivity|].
  destruct (k =? key) eqn:E.
  - apply String.eqb_eq in E. exfalso. apply (H k v); auto.
  - apply IH. intros k' v' Hin. apply (H k' v'). auto.
Qed.

(** [tableSchema[key]] is a property of the table's own when there is one,
    and undefined exactly for a key that is neither a property of the
    table nor a name it inherits. *)
Lemma member_own (key : string) (tableSchema : Table) (column : Column) :
  lookup key tableSchema = Some column -> member key tableSchema = Some (own column).
Proof. intros H. unfold member. rewrite H. reflexivity. Qed.

Lemma member_none (key : string) (tableSchema : Table) :
  member key tableSchema = None
  <-> lookup key tableSchema = None /\ inherited_by_table key = false.
Proof.
  unfold member. destruct (lookup key tableSchema); [split; [discriminate|intros [H _]; discriminate]|].
  destruct (inherited_by_table key); split; try discriminate; auto.
  intros [_ H]. discriminate.
Qed.

Lemma member_inherited (key : string) (tableSchema : Table) :
  lookup key tableSchema = None -> inherited_by_table key = true ->
  member key tableSchema = Some (prototype key).
Proof. intros H H'. unfold member. rewrite H, H'. reflexivity. Qed.


(** A field entry under which the table has nothing pushes nothing. *)
Lemma fieldCondition_unknown_column (tableSchema : Table) (key : string) (value : JSON) :
  member key tableSchema = None -> fieldCondition tableSchema (key, value) = normal [].
Proof.
  intros H. unfold fieldCondition. rewrite H. destruct (is_logical key); reflexivity.
Qed.

(** An operator outside the [switch], other than [hasOwnProperty], leaves
    the field's conditions as they are without it. *)
Lemma fieldCondition_unknown_operator (tableSchema : Table) (key operator : string)
  (value : JSON) (before after : list (string * JSON)) :
  recognized operator = false -> operator <> "hasOwnProperty" ->
  fieldCondition tableSchema (key, JObject (before ++ (operator, value) :: after))
  = fieldCondition tableSchema (key, JObject (before ++ after)).
Proof.
  intros H Hown. unfold fieldCondition.
  destruct (is_logical key); [reflexivity|].
  destruct (member key tableSchema) as [column|]; [|reflexivity].
  cbn [typeof_object is_null negb andb]. unfold objectToEntries. cbn [guardedEntries].
  rewrite (lookup_drop operator "hasOwnProperty" value before after Hown).
  destruct (lookup "hasOwnProperty" (before ++ after)); [reflexivity|]. cbn [bind].
  rewrite !map_defined_app. cbn [map_defined].
  rewrite (operatorCondition_unrecognized column operator value H). reflexivity.
Qed.

(** No condition survives in [{}] and in [{"AND": []}]: no predicate. *)
Lemma empty_filters_compile_to_nothing (tableSchema : Table) :
  buildWhereCondition (JObject []) tableSchema = normal None
  /\ buildWhereCondition (JObject [("AND", JArray [])]) tableSchema = normal None.
Proof. split; reflexivity. Qed.

(** The eight cases of the [switch], as the source has them. *)
Lemma operatorCondition_cases (column : AnyColumn) (value : JSON) :
  operatorCondition column ("eq", value) = Some (eq column value)
  /\ operatorCondition column ("ne", value) = Some (not_ (eq column value))
  /\ operatorCondition column ("gt", value) = Some (gt column value)
  /\ operatorCondition column ("gte", value) = Some (gte column value)
  /\ operatorCondition column ("lt", value) = Some (lt column value)
  /\ operatorCondition column ("lte", value) = Some (lte column value)
  /\ operatorCondition column ("like", value) = Some (ilike column value)
  /\ operatorCondition column ("ilike", value) = Some (ilike column value).
Proof. repeat split. Qed.

(** C1. The filter [{"title": {"like": "%Intro%"}}] on the [posts] table
    compiles to drizzle's case-insensitive [ilike] on the title column,
    the same condition that the operator [ilike] compiles to, and not to
    the case-sensitive [like]: the [case 'like'] of the switch returns
    [ilike(column, operatorValue)]. *)
Theorem like_operator_compiles_to_ilike :
  buildWhereCondition
    (JObject [("title", JObject [("like", JString "%Intro%")])]) Sample.posts
  = normal (Some (and_ [and_ [ilike Sample.titleColumn (JString "%Intro%")]]))
  /\ buildWhereCondition
       (JObject [("title", JObject [("like", JString "%Intro%")])]) Sample.posts
     = buildWhereCondition
         (JObject [("title", JObject [("ilike", JString "%Intro%")])]) Sample.posts
  /\ buildWhereCondition
       (JObject [("title", JObject [("like", JString "%Intro%")])]) Sample.posts
     <> normal (Some (and_ [and_ [like Sample.titleColumn (JString "%Intro%")]])).
Proof.
  repeat split. discriminate.
Qed.

(** What holds of the names that the prototypes do not have.  In a
    filter object, an entry whose key is neither a logical operator, nor a
    property of the table, nor a name the table inherits contributes
    nothing: the object compiles to what it compiles to without that
    entry.  Inside the operator object of a field other than
    [hasOwnProperty], an operator outside the recognized eight, other than
    [hasOwnProperty], contributes nothing either. *)
Lemma names_outside_the_prototype_are_skipped
  (tableSchema : Table) (before after : list (string * JSON)) (key : string) :
  is_logical key = false ->
  (forall value,
     member key tableSchema = None ->
     buildWhereCondition (JObject (before ++ (key, value) :: after)) tableSchema
     = buildWhereCondition (JObject (before ++ after)) tableSchema)
  /\ (forall operator value ops ops',
        key <> "hasOwnProperty" ->
        recognized operator = false -> operator <> "hasOwnProperty" ->
        buildWhereCondition
          (JObject (before ++ (key, JObject (ops ++ (operator, value) :: ops')) :: after))
          tableSchema
        = buildWhereCondition
            (JObject (before ++ (key, JObject (ops ++ ops')) :: after)) tableSchema).
Proof.
  intros Hkey. destruct (is_logical_false key Hkey) as (HAND & HOR & HNOT).
  split.
  - intros value Hcol. rewrite !buildWhereCondition_object.
    assert (Hown : key <> "hasOwnProperty").
    { intros ->. apply member_none in Hcol. destruct Hcol as [_ H]. discriminate. }
    rewrite !(lookup_drop key _ value before after) by assumption.
    unfold objectToEntries. cbn [guardedEntries].
    rewrite (lookup_drop key "hasOwnProperty" value before after Hown).
    destruct (lookup "hasOwnProperty" (before ++ after)); [reflexivity|]. cbn [bind].
    rewrite (push_each_drop (fieldCondition tableSchema) (key, value) before after
               (fieldCondition_unknown_column _ _ _ Hcol)).
    reflexivity.
  - intros operator value ops ops' Hown Hop Hoperator.
    rewrite !buildWhereCondition_object.
    rewrite !(lookup_replace key _ (JObject (ops ++ (operator, value) :: ops'))
                (JObject (ops ++ ops')) before after) by assumption.
    unfold objectToEntries. cbn [guardedEntries].
    rewrite (lookup_replace key "hasOwnProperty"
               (JObject (ops ++ (operator, value) :: ops')) (JObject (ops ++ ops'))
               before after Hown).
    destruct (lookup "hasOwnProperty" (before ++ (key, JObject (ops ++ ops')) :: after));
      [reflexivity|].
    cbn [bind].
    rewrite (push_each_replace (fieldCondition tableSchema)
               (key, JObject (ops ++ (operator, value) :: ops'))
               (key, JObject (ops ++ ops')) before after
               (fieldCondition_unknown_operator _ _ _ _ _ _ Hop Hoperator)).
    reflexivity.
Qed.

(** C8, where the code departs from it.  The field loop takes whatever
    [tableSchema[key]] gives for a column, and the table object inherits
    from [Object.prototype]: the filter [{"constructor": 1}] on the
    [posts] table, which has no such column, is not dropped but compiled
    into an equality on what the table inherits under that name, and the
    entry changes what the rest of a filter compiles to.  And the entries
    are enumerated under the guard [obj.hasOwnProperty(key)], a call of
    whatever the filter has under that name: a field named
    [hasOwnProperty], on any table, and an operator of that name inside a
    field make the compiler throw, and the list request fails with 500
    [Internal server error] where it should have run the query without
    them. *)
Theorem names_of_the_prototype_are_not_skipped :
  buildWhereCondition (JObject [("constructor", JNumber 1)]) Sample.posts
  = normal (Some (and_ [eq (prototype "constructor") (JNumber 1)]))
  /\ lookup "constructor" Sample.posts = None
  /\ buildWhereCondition
       (JObject [("constructor", JNumber 1); ("title", JString "Intro")]) Sample.posts
     <> buildWhereCondition (JObject [("title", JString "Intro")]) Sample.posts
  /\ (forall tableSchema value,
        buildWhereCondition (JObject [("hasOwnProperty", value)]) tableSchema
        = throw (TypeError "obj.hasOwnProperty" (Some value)))
  /\ buildWhereCondition
       (JObject [("title", JObject [("hasOwnProperty", JNumber 1);
                                    ("eq", JString "Intro")])]) Sample.posts
     = throw (TypeError "obj.hasOwnProperty" (Some (JNumber 1)))
  /\ buildWhereCondition
       (JObject [("title", JObject [("eq", JString "Intro")])]) Sample.posts
     = normal (Some (and_ [and_ [eq Sample.titleColumn (JString "Intro")]]))
  /\ (let request :=
        Sample.get "/posts"
          [("where", "{" ++ JsonText.q "hasOwnProperty" ++ ":1}")] in
      run Sample.config request (listRecords JsonText.parse Sample.config request)
      = (answers (internalError (TypeError "obj.hasOwnProperty" (Some (JNumber 1)))),
         [])
      /\ status (internalError (TypeError "obj.hasOwnProperty" (Some (JNumber 1))))
         = 500).
Proof.
  split; [reflexivity|]. split; [reflexivity|]. split; [discriminate|].
  split; [intros tableSchema value; reflexivity|].
  split; [reflexivity|]. split; [reflexivity|].
  split; reflexivity.
Qed.

(** ** The component schemas *)

Lemma fieldsLoop_required (tableName : string) (entries : list (string * Column)) :
  forall properties required,
    snd (fieldsLoop tableName entries properties required)
    = (required ++ notNullFields entries)%list.
Proof.
  induction entries as [|[fieldName fieldDef] entries IH]; intros properties required.
  - simpl. rewrite app_nil_r. reflexivity.
  - cbn [fieldsLoop]. unfold notNullFields. cbn [filter fst snd].
    destruct (fieldName =? "enableRLS"); cbn [negb andb].
    + apply IH.
    + rewrite IH. destruct (detectsNotNull fieldDef); cbn [map fst].
      * rewrite <- app_assoc. reflexivity.
      * reflexivity.
Qed.

Lemma outputSchema_required (tableName : string) (tableSchema : Table) :
  required (outputSchema tableName tableSchema) = notNullFields tableSchema.
Proof.
  unfold outputSchema.
  pose proof (fieldsLoop_required tableName tableSchema [] []) as H.
  destruct (fieldsLoop tableName tableSchema [] []) as [properties required].
  exact H.
Qed.

(** One turn of the loop over the tables. *)
Lemma componentSchemas_cons (tableName : string) (tableSchema : Table)
  (schema : list (string * Table)) (excludedTables : list string)
  (literal : list (string * SchemaObject)) :
  componentSchemas ((tableName, tableSchema) :: schema) excludedTables literal
  = componentSchemas schema excludedTables
      (if existsb (String.eqb tableName) excludedTables then literal
       else assign (tableName ++ "Input") (inputSchema tableName tableSchema)
              (assign tableName (outputSchema tableName tableSchema) literal)).
Proof. reflexivity. Qed.

Lemma length_append (s1 s2 : string) :
  String.length (s1 ++ s2) = String.length s1 + String.length s2.
Proof.
  induction s1 as [|c s1 IH]; simpl; [reflexivity | rewrite IH; reflexivity].
Qed.

Lemma append_Input_differs (tableName : string) : tableName ++ "Input" <> tableName.
Proof.
  intros H. apply (f_equal String.length) in H.
  rewrite length_append in H. simpl in H. lia.
Qed.

(** Tables of other names, whose input schemas have other names too, leave
    a component in place. *)
Lemma componentSchemas_keeps (key : string) (schema : list (string * Table))
  (excludedTables : list string) :
  forall literal,
    (forall other, In other (map fst schema) ->
                   other <> key /\ other ++ "Input" <> key) ->
    lookup key (componentSchemas schema excludedTables literal) = lookup key literal.
Proof.
  induction schema as [|[tableName tableSchema] schema IH]; intros literal H.
  - reflexivity.
  - rewrite componentSchemas_cons, IH.
    + destruct (H tableName (or_introl eq_refl)) as [H1 H2].
      destruct (existsb (String.eqb tableName) excludedTables); [reflexivity|].
      rewrite !lookup_assign_other by assumption. reflexivity.
    + intros other Hin. apply H. right. exact Hin.
Qed.

(** C2, as the code has it.  For every table that is not excluded (the
    tables having distinct names, none of them the name of another's input
    schema), the schema generated under the table's name has as its
    [required] list exactly the fields (other than [enableRLS]) that the
    generator detects as not null ([notNull] set, or an [isNullable()] that
    answers false), in the order of the table; whether a column carries a
    default plays no part, so a non-nullable column with a default is a
    member. *)
Theorem required_lists_the_not_null_columns
  (schema : list (string * Table)) (excludedTables : list string)
  (literal : list (string * SchemaObject)) (tableName : string) (tableSchema : Table) :
  NoDup (map fst schema) ->
  (forall other, In other (map fst schema) -> other ++ "Input" <> tableName) ->
  In (tableName, tableSchema) schema ->
  existsb (String.eqb tableName) excludedTables = false ->
  lookup tableName (componentSchemas schema excludedTables literal)
  = Some (outputSchema tableName tableSchema)
  /\ required (outputSchema tableName tableSchema) = notNullFields tableSchema
  /\ (forall fieldName fieldDef,
        In (fieldName, fieldDef) tableSchema ->
        fieldName <> "enableRLS" ->
        detectsNotNull fieldDef = true ->
        In fieldName (required (outputSchema tableName tableSchema))).
Proof.
  intros Hnodup Hinput Hin Hexcluded. split; [|split].
  - revert literal Hnodup Hinput Hin.
    induction schema as [|[name0 table0] schema IH]; intros literal Hnodup Hinput Hin.
    + destruct Hin.
    + rewrite componentSchemas_cons. cbn [map fst] in Hnodup, Hinput.
      inversion Hnodup as [|? ? Hfresh Hnodup']; subst.
      destruct Hin as [Heq | Hin].
      * inversion Heq; subst name0 table0. rewrite Hexcluded.
        rewrite componentSchemas_keeps.
        -- rewrite lookup_assign_other by apply append_Input_differs.
           apply lookup_assign_same.
        -- intros other Hother. split.
           ++ intros ->. contradiction.
           ++ apply Hinput. right. exact Hother.
      * apply IH; [exact Hnodup'| |exact Hin].
        intros other Hother. apply Hinput. right. exact Hother.
  - apply outputSchema_required.
  - intros fieldName fieldDef Hfield Hname Hnotnull.
    rewrite outputSchema_required. unfold notNullFields.
    apply (in_map fst _ (fieldName, fieldDef)). apply filter_In. split; [exact Hfield|].
    cbn [fst snd]. rewrite Hnotnull.
    destruct (fieldName =? "enableRLS") eqn:E; [|reflexivity].
    apply String.eqb_eq in E. contradiction.
Qed.

Lemma required_lists_the_not_null_columns_witness :
  lookup "posts" (componentSchemas (schema Sample.config) ["users"] [])
  = Some (outputSchema "posts" Sample.posts)
  /\ required (outputSchema "posts" Sample.posts)
     = ["id"; "userId"; "title"; "content"; "createdAt"; "updatedAt"]
  /\ In "createdAt" (required (outputSchema "posts" Sample.posts)).
Proof.
  assert (Hnodup : NoDup (map fst (schema Sample.config))).
  { simpl. constructor; [intros [] | constructor]. }
  assert (Hinput : forall other, In other (map fst (schema Sample.config)) ->
                                 other ++ "Input" <> "posts").
  { simpl. intros other [<- | []]. discriminate. }
  assert (Hin : In ("posts", Sample.posts) (schema Sample.config)).
  { simpl. left. reflexivity. }
  assert (Hfield : In ("createdAt", Sample.createdAtColumn) Sample.posts).
  { simpl. auto 6. }
  assert (Hname : "createdAt" <> "enableRLS") by discriminate.
  destruct (required_lists_the_not_null_columns
              (schema Sample.config) ["users"] [] "posts" Sample.posts
              Hnodup Hinput Hin eq_refl) as (H1 & H2 & H3).
  split; [exact H1|]. split; [exact H2|].
  exact (H3 "createdAt" Sample.createdAtColumn Hfield Hname eq_refl).
Defined.

(** The claim C2 fails on the [posts] table: its id column is not null and
    has a default ([uuid().defaultRandom().primaryKey()]), and the
    generated [required] list names it; so that list is not the list of
    the columns with neither a default nor nullability. *)
Lemma defaulted_id_is_required :
  lookup "id" Sample.posts = Some Sample.idColumn
  /\ notNull Sample.idColumn = true
  /\ hasDefault Sample.idColumn = true
  /\ In "id" (required (outputSchema "posts" Sample.posts))
  /\ required (outputSchema "posts" Sample.posts) <> required_as_specified Sample.posts.
Proof.
  repeat split; [simpl; auto | discriminate].
Qed.

(** ** PATCH *)

(** Under CommonJS the loaded function is what it finds under
    [module.exports.createHandler]. *)
Lemma loadedModule_exports_itself (JSON_parse : string -> option JSON)
  (config : Database) :
  loadedModule CommonJS JSON_parse config
  = createHandler JSON_parse (module_exports (Some (loadedModule CommonJS JSON_parse)))
      config.
Proof. reflexivity. Qed.

(** PUT is a promise that is always resolved: whatever is thrown on its
    way is taken by one of its [catch]es. *)
Lemma updateRecords_answers (JSON_parse : string -> option JSON) (config : Database)
  (request : Request) :
  exists response queries,
    run config request (updateRecords JSON_parse config request)
    = (answers response, queries).
Proof.
  unfold updateRecords.
  destruct (extractTableFromUrl request) as [tableName|]; [|do 2 eexists; reflexivity].
  destruct (lookup tableName (schema config)) as [tableSchema|];
    [|do 2 eexists; reflexivity].
  cbv zeta.
  destruct (where_ (parseQueryParams JSON_parse request)) as [w|];
    [|do 2 eexists; reflexivity].
  destruct (byIdOnly (parseQueryParams JSON_parse request));
    [|do 2 eexists; reflexivity].
  cbn [run]. unfold updateWithBody.
  destruct (body request) as [payload|]; [|do 2 eexists; reflexivity].
  destruct (negb (truthy payload) || negb (typeof_object payload));
    [do 2 eexists; reflexivity|].
  destruct (buildWhereCondition w tableSchema) as [[condition|]|e];
    [|do 2 eexists; reflexivity..].
  cbn [run]. destruct (db config _); do 2 eexists; reflexivity.
Qed.

(** C3, where the code departs from it.  PATCH evaluates
    [module.exports.createHandler(config).PUT(request)], and the file is
    an ES module, in which [module] is not bound: on every request PATCH
    throws a [ReferenceError] before anything is validated, and the route
    that dispatches to it fails with it, whereas PUT answers the same
    request.  Only where the file is compiled to CommonJS does the lookup
    find [createHandler] and is PATCH the PUT handler. *)
Theorem patch_throws_in_an_es_module (JSON_parse : string -> option JSON)
  (config : Database) (request : Request) :
  let handler := loadedModule ES_module JSON_parse config in
  PATCH handler request = raise (ReferenceError "module")
  /\ run config request (PATCH handler request) = (raises (ReferenceError "module"), [])
  /\ (exists response queries,
         run config request (PUT handler request) = (answers response, queries))
  /\ (forall c, HandlerMaps.req_raw c = request ->
                inherited (HandlerMaps.req_param_table c) = false ->
                HandlerMaps.route_patch handler c = raise (ReferenceError "module")
                /\ HandlerMaps.route_put handler c = PUT handler request)
  /\ PATCH (loadedModule CommonJS JSON_parse config) request
     = PUT (loadedModule CommonJS JSON_parse config) request.
Proof.
  intros handler. split; [reflexivity|]. split; [reflexivity|].
  split; [apply updateRecords_answers|]. split; [|reflexivity].
  intros c Hc Htable.
  unfold HandlerMaps.route_patch, HandlerMaps.route_put, HandlerMaps.dispatch.
  cbn [lookup HandlerMaps.patchHandlerMap HandlerMaps.putHandlerMap].
  rewrite Htable. cbn. rewrite Hc. split; reflexivity.
Qed.

Lemma patch_throws_in_an_es_module_witness :
  let request :=
    Sample.with_body "/posts" [("where", Sample.whereId1)]
      (JObject [("title", JString "New")]) in
  let c := {| HandlerMaps.req_raw := request; HandlerMaps.req_param_table := "posts" |} in
  let handler := loadedModule ES_module JsonText.parse Sample.config in
  run Sample.config request (PATCH handler request)
  = (raises (ReferenceError "module"), [])
  /\ run Sample.config request (PUT handler request)
     = (answers (mutationResponse "updated" [Sample.row 1 "Intro"]),
        [update_set Sample.posts (JObject [("title", JString "New")])
           (and_ [eq Sample.idColumn (JNumber 1)])])
  /\ HandlerMaps.route_patch handler c = raise (ReferenceError "module").
Proof.
  intros request c handler.
  destruct (patch_throws_in_an_es_module JsonText.parse Sample.config request)
    as (_ & Hrun & _ & Hroute & _).
  split; [exact Hrun|]. split; [reflexivity|].
  exact (proj1 (Hroute c eq_refl eq_refl)).
Defined.

(** ** Pagination *)

(** What the list handler does with [offset], [page] and [limit]: an
    offset that is neither zero nor NaN is used as it is; otherwise a page
    with a limit gives [(page - 1) * limit], in the arithmetic of doubles;
    otherwise no offset is set. *)
Lemma effectiveOffset_cases (params : QueryParams) :
  (forall o, offset params = Some o -> number_truthy o = true ->
             effectiveOffset params = Some o)
  /\ (forall p l, nonzero (offset params) = false ->
                  page params = Some p -> limit params = Some l ->
                  number_truthy p = true -> number_truthy l = true ->
                  effectiveOffset params = Some (mul (sub p (finite 1)) l))
  /\ (nonzero (offset params) = false -> limit params = None ->
      effectiveOffset params = None).
Proof.
  unfold effectiveOffset. split; [|split].
  - intros o Ho Hne. rewrite Ho. cbn [nonzero]. rewrite Hne. reflexivity.
  - intros p l Hoff Hp Hl Hpne Hlne. rewrite Hoff, Hp, Hl. cbn [nonzero].
    rewrite Hpne, Hlne. reflexivity.
  - intros Hoff Hl. rewrite Hoff, Hl. cbn [nonzero].
    rewrite andb_false_r. reflexivity.
Qed.

(** The two requests of the specification's pagination example. *)
Lemma pagination_examples (JSON_parse : string -> option JSON) :
  effectiveOffset
    (parseQueryParams JSON_parse (Sample.get "/posts" [("limit", "10"); ("page", "2")]))
  = Some (finite 10)
  /\ effectiveOffset
       (parseQueryParams JSON_parse
          (Sample.get "/posts" [("offset", "5"); ("page", "2"); ("limit", "10")]))
     = Some (finite 5).
Proof. split; vm_compute; reflexivity. Qed.

(** C4, at [offset=0&page=2&limit=10] on the [posts] table, whatever the
    executor.  The parser keeps the offset 0 (it accepts [numOffset >= 0]),
    but the list handler tests [if (params.offset)], which 0 fails, and
    falls through to the page: the statement it hands to drizzle, and
    which the executor is asked to run (unless the builder throws on it),
    has the offset [(2 - 1) * 10 = 10], not 0. *)
Theorem zero_offset_gives_way_to_page (JSON_parse : string -> option JSON)
  (executor : Query -> QueryResult) :
  let config := {| db := executor; schema := [("posts", Sample.posts)] |} in
  let request :=
    Sample.get "/posts" [("offset", "0"); ("page", "2"); ("limit", "10")] in
  let query :=
    select_from None Sample.posts None [] (Some (finite 10)) (Some (finite 10)) in
  offset (parseQueryParams JSON_parse request) = Some (finite 0)
  /\ page (parseQueryParams JSON_parse request) = Some (finite 2)
  /\ effectiveOffset (parseQueryParams JSON_parse request) = Some (finite 10)
  /\ listRecords JSON_parse config request
     = execute query (listOutcome (parseQueryParams JSON_parse request))
  /\ snd (run config request (listRecords JSON_parse config request))
     = reached (executor query) query.
Proof.
  intros config request query.
  assert (Hlist : listRecords JSON_parse config request
                  = execute query (listOutcome (parseQueryParams JSON_parse request)))
    by reflexivity.
  split; [reflexivity|]. split; [reflexivity|]. split; [reflexivity|].
  split; [exact Hlist|].
  rewrite Hlist. cbn [run]. change (db config query) with (executor query).
  destruct (executor query); cbn; reflexivity.
Qed.

(** ** Update and delete by id *)

Lemma byIdOnly_iff (params : QueryParams) :
  byIdOnly params = true <-> exists v, where_ params = Some (JObject [("id", v)]).
Proof.
  unfold byIdOnly. split.
  - destruct (where_ params) as [w|]; [|discriminate].
    destruct w as [|b|n|s|items|props]; cbn;
      rewrite ?andb_false_r; try discriminate.
    destruct props as [|[k v] [|? ?]]; cbn; try discriminate.
    unfold has_key. cbn. destruct (k =? "id") eqn:E; [|discriminate].
    apply String.eqb_eq in E. subst k. intros _. exists v. reflexivity.
  - intros [v ->]. reflexivity.
Qed.

(** C5. On a known table, PUT and DELETE look at the parsed [where]
    parameter first.  Unless it is an object with the single key [id], both
    resolve at once with [success: false] and status 400, and the executor
    is not called.  When it is [{"id": v}], DELETE goes on to compile it
    and PUT goes on to read the body and, given an object there, to compile
    it: from there on the compilation decides between the failure of a
    filter on which the compiler throws (500 from DELETE, whose own
    [catch] takes it; 400 from PUT, where the [catch] behind the body
    does), the 400 of an invalid condition, and the statement that is
    handed to drizzle. *)
Theorem mutations_are_by_id_only (JSON_parse : string -> option JSON)
  (config : Database) (request : Request) (tableName : string) (tableSchema : Table) :
  extractTableFromUrl request = Some tableName ->
  lookup tableName (schema config) = Some tableSchema ->
  ((forall v, where_ (parseQueryParams JSON_parse request) <> Some (JObject [("id", v)])) ->
   updateRecords JSON_parse config request = resolve (onlyById "Update")
   /\ deleteRecords JSON_parse config request = resolve (onlyById "Delete")
   /\ run config request (updateRecords JSON_parse config request)
      = (answers (onlyById "Update"), [])
   /\ run config request (deleteRecords JSON_parse config request)
      = (answers (onlyById "Delete"), [])
   /\ (forall verb, status (onlyById verb) = 400
                    /\ success (json (onlyById verb)) = false
                    /\ data (json (onlyById verb)) = None))
  /\ (forall v,
        where_ (parseQueryParams JSON_parse request) = Some (JObject [("id", v)]) ->
        let w := JObject [("id", v)] in
        deleteRecords JSON_parse config request
        = match buildWhereCondition w tableSchema with
          | throw e => resolve (internalError e)
          | normal None => resolve invalidWhere
          | normal (Some whereCondition) =>
              execute (delete_from tableSchema whereCondition)
                (mutationOutcome "deleted" "Database delete failed" internalError)
          end
        /\ updateRecords JSON_parse config request
           = request_json (updateWithBody tableSchema w)
        /\ (forall payload,
              truthy payload = true -> typeof_object payload = true ->
              updateWithBody tableSchema w (Some payload)
              = match buildWhereCondition w tableSchema with
                | throw e => resolve invalidJsonBody
                | normal None => resolve invalidWhere
                | normal (Some whereCondition) =>
                    execute (update_set tableSchema payload whereCondition)
                      (mutationOutcome "updated" "Database update failed" bodyCatch)
                end)).
Proof.
  intros Htable Hschema. split.
  - intros Hshape.
    assert (Hguard : byIdOnly (parseQueryParams JSON_parse request) = false).
    { destruct (byIdOnly (parseQueryParams JSON_parse request)) eqn:E; [|reflexivity].
      apply byIdOnly_iff in E. destruct E as [v Hv]. exfalso. exact (Hshape v Hv). }
    assert (Hput : updateRecords JSON_parse config request = resolve (onlyById "Update")).
    { unfold updateRecords. rewrite Htable, Hschema, Hguard.
      destruct (where_ (parseQueryParams JSON_parse request)); reflexivity. }
    assert (Hdelete : deleteRecords JSON_parse config request
                      = resolve (onlyById "Delete")).
    { unfold deleteRecords. rewrite Htable, Hschema, Hguard.
      destruct (where_ (parseQueryParams JSON_parse request)); reflexivity. }
    repeat split; try assumption.
    + rewrite Hput. reflexivity.
    + rewrite Hdelete. reflexivity.
  - intros v Hv w.
    assert (Hguard : byIdOnly (parseQueryParams JSON_parse request) = true).
    { apply byIdOnly_iff. exists v. exact Hv. }
    split; [|split].
    + unfold deleteRecords. rewrite Htable, Hschema, Hguard, Hv. reflexivity.
    + unfold updateRecords. rewrite Htable, Hschema, Hguard, Hv. reflexivity.
    + intros payload Htruthy Hobject. unfold updateWithBody.
      rewrite Htruthy, Hobject. reflexivity.
Qed.

Lemma mutations_are_by_id_only_witness :
  let two_keys := Sample.get "/posts" [("where", Sample.whereIdAndName)] in
  let by_id := Sample.get "/posts" [("where", Sample.whereId1)] in
  let payload := JObject [("title", JString "New")] in
  run Sample.config two_keys (updateRecords JsonText.parse Sample.config two_keys)
  = (answers (onlyById "Update"), [])
  /\ run Sample.config two_keys (deleteRecords JsonText.parse Sample.config two_keys)
     = (answers (onlyById "Delete"), [])
  /\ deleteRecords JsonText.parse Sample.config by_id
     = execute (delete_from Sample.posts (and_ [eq Sample.idColumn (JNumber 1)]))
         (mutationOutcome "deleted" "Database delete failed" internalError)
  /\ updateWithBody Sample.posts (JObject [("id", JNumber 1)]) (Some payload)
     = execute (update_set Sample.posts payload (and_ [eq Sample.idColumn (JNumber 1)]))
         (mutationOutcome "updated" "Database update failed" bodyCatch).
Proof.
  intros two_keys by_id payload.
  assert (Hshape : forall v,
             where_ (parseQueryParams JsonText.parse two_keys)
             <> Some (JObject [("id", v)])).
  { intros v. vm_compute. discriminate. }
  assert (Hid : where_ (parseQueryParams JsonText.parse by_id)
                = Some (JObject [("id", JNumber 1)])).
  { vm_compute. reflexivity. }
  destruct (mutations_are_by_id_only JsonText.parse Sample.config two_keys
              "posts" Sample.posts eq_refl eq_refl) as [Hrefused _].
  destruct (mutations_are_by_id_only JsonText.parse Sample.config by_id
              "posts" Sample.posts eq_refl eq_refl) as [_ Haccepted].
  destruct (Hrefused Hshape) as (_ & _ & Hput & Hdelete & _).
  destruct (Haccepted (JNumber 1) Hid) as (Hcompiled & _ & Hbody).
  split; [exact Hput|]. split; [exact Hdelete|]. split; [exact Hcompiled|].
  exact (Hbody payload eq_refl eq_refl).
Defined.

(** ** Ordering *)

Lemma has_member_member (key : string) (tableSchema : Table) :
  has_member key tableSchema = false <-> member key tableSchema = None.
Proof.
  unfold has_member, member, has_key.
  destruct (lookup key tableSchema); cbn [orb]; [split; discriminate|].
  generalize (inherited_by_table key). intros []; split; (discriminate || reflexivity).
Qed.

Section OrderBy.
Variables (config : Database) (tableName : string) (tableSchema : Table).
Hypothesis known : lookup tableName (schema config) = Some tableSchema.

Lemma validateFields_one (key : string) :
  validateFields config tableName [key]
  = if (key =? "*") || has_member key tableSchema then [key] else [].
Proof. unfold validateFields. rewrite known. reflexivity. Qed.

Lemma invalidDirection_form (key : string) (direction : JSON) (response : Response) :
  invalidDirection key direction = normal response ->
  exists err, response = failure 400 err.
Proof.
  unfold invalidDirection. destruct (toString direction) as [text|e]; [|discriminate].
  intros [= <-]. eexists. reflexivity.
Qed.

Lemma invalidDirection_throws (key : string) (direction : JSON) (e : Exception) :
  invalidDirection key direction = throw e -> toString direction = throw e.
Proof.
  unfold invalidDirection. destruct (toString direction) as [text|e']; [discriminate|].
  intros [= <-]. reflexivity.
Qed.

(** What the order loop refuses, it refuses with a plain 400. *)
Lemma orderLoop_refusal_form (entries : list (string * JSON)) :
  forall orderConditions response,
    orderLoop config tableName tableSchema entries orderConditions
    = normal (inl response) ->
    exists err, response = failure 400 err.
Proof.
  induction entries as [|[key direction] entries IH]; intros acc response; cbn.
  - discriminate.
  - destruct (Nat.eqb _ 0); [intros [= <-]; eexists; reflexivity|].
    destruct (negb _ && negb _); [|apply IH].
    destruct (invalidDirection key direction) as [refused|e] eqn:E; [|discriminate].
    intros [= <-]. exact (invalidDirection_form _ _ _ E).
Qed.

(** Whatever the loop refuses, it refuses with status 400. *)
Lemma orderLoop_refusal (entries : list (string * JSON)) :
  forall orderConditions response,
    orderLoop config tableName tableSchema entries orderConditions
    = normal (inl response) ->
    status response = 400 /\ success (json response) = false.
Proof.
  intros acc response H.
  destruct (orderLoop_refusal_form entries acc response H) as [err ->].
  split; reflexivity.
Qed.

(** The loop throws only where a refused direction has no text. *)
Lemma orderLoop_throws (entries : list (string * JSON)) :
  forall orderConditions e,
    orderLoop config tableName tableSchema entries orderConditions = throw e ->
    exists key direction,
      In (key, direction) entries /\ toString direction = throw e.
Proof.
  induction entries as [|[key direction] entries IH]; intros acc e; cbn [orderLoop].
  - discriminate.
  - destruct (Nat.eqb _ 0); [discriminate|].
    destruct (negb _ && negb _).
    + destruct (invalidDirection key direction) as [refused|e'] eqn:E; [discriminate|].
      intros [= <-]. exists key, direction.
      split; [left; reflexivity | exact (invalidDirection_throws _ _ _ E)].
    + intros H. destruct (IH _ _ H) as (k & d & Hin & Hd).
      exists k, d. split; [right; exact Hin | exact Hd].
Qed.

(** An entry whose key is neither [*], nor a property of the table, nor
    a name the table inherits, or whose direction is neither ['asc']
    nor ['desc'], makes the loop refuse: it does not yield terms. *)
Lemma orderLoop_rejects (entries : list (string * JSON)) :
  forall orderConditions,
    (exists key direction,
        In (key, direction) entries
        /\ ((key <> "*" /\ member key tableSchema = None)
            \/ (is_text "asc" direction = false /\ is_text "desc" direction = false))) ->
    forall terms,
      orderLoop config tableName tableSchema entries orderConditions
      <> normal (inr terms).
Proof.
  induction entries as [|[key direction] entries IH];
    intros acc (badKey & badDirection & Hin & Hbad) terms.
  - destruct Hin.
  - cbn [orderLoop]. rewrite validateFields_one.
    destruct ((key =? "*") || has_member key tableSchema) eqn:Hvalid;
      cbn [length Nat.eqb]; [|discriminate].
    + destruct (negb (is_text "asc" direction) && negb (is_text "desc" direction))
        eqn:Hdirection.
      * destruct (invalidDirection key direction); discriminate.
      * destruct Hin as [Heq | Hin].
        -- exfalso. inversion Heq; subst badKey badDirection.
           destruct Hbad as [[Hstar Hcolumn] | [Hasc Hdesc]].
           ++ apply orb_true_iff in Hvalid as [Hvalid | Hvalid].
              ** apply String.eqb_eq in Hvalid. contradiction.
              ** apply has_member_member in Hcolumn. rewrite Hcolumn in Hvalid.
                 discriminate.
           ++ rewrite Hasc, Hdesc in Hdirection. discriminate.
        -- apply IH. exists badKey, badDirection. split; assumption.
Qed.
End OrderBy.

(** C6, at [orderBy={"*":"asc"}] on the [posts] table, whatever the
    executor.  [*] is not a column of [posts], yet [validateFields],
    written for the select list, lets it through; the direction is valid,
    so the handler orders by [asc(tableSchema['*'])], a column that does
    not exist, and awaits the statement: the executor is called (unless
    the builder throws on it), and the status is the 200 or the 500 of
    the outcome, not a 400 beforehand. *)
Theorem star_key_passes_order_validation (executor : Query -> QueryResult) :
  let config := {| db := executor; schema := [("posts", Sample.posts)] |} in
  let request :=
    Sample.get "/posts"
      [("orderBy", "{" ++ JsonText.q "*" ++ ":" ++ JsonText.q "asc" ++ "}")] in
  let query := select_from None Sample.posts None [asc None] None None in
  orderBy (parseQueryParams JsonText.parse request) = Some (JObject [("*", JString "asc")])
  /\ lookup "*" Sample.posts = None
  /\ validateFields config "posts" ["*"] = ["*"]
  /\ listRecords JsonText.parse config request
     = execute query (listOutcome (parseQueryParams JsonText.parse request))
  /\ snd (run config request (listRecords JsonText.parse config request))
     = reached (executor query) query
  /\ exists response,
       fst (run config request (listRecords JsonText.parse config request))
       = answers response
       /\ status response <> 400.
Proof.
  intros config request query.
  assert (Hhandler : listRecords JsonText.parse config request
                     = execute query (listOutcome (parseQueryParams JsonText.parse request)))
    by reflexivity.
  split; [reflexivity|]. split; [reflexivity|]. split; [reflexivity|].
  split; [exact Hhandler|].
  rewrite Hhandler. cbn [run]. change (db config query) with (executor query).
  destruct (executor query); cbn; (split; [reflexivity|]); eexists;
    (split; [reflexivity | discriminate]).
Qed.

(** The example of the specification: [orderBy={"bogusField":"asc"}] is
    refused with 400 and no query runs. *)
Lemma bogus_order_field_is_refused :
  let request :=
    Sample.get "/posts"
      [("orderBy", "{" ++ JsonText.q "bogusField" ++ ":" ++ JsonText.q "asc" ++ "}")] in
  run Sample.config request (listRecords JsonText.parse Sample.config request)
  = (answers (invalidField "bogusField"), []).
Proof. reflexivity. Qed.

(** ** Lookup by id *)




(** A natural number below [2 ^ 53] is a double. *)
Lemma nearest_exact (z : Z) : (0 <= z < 2 ^ 53)%Z -> nearest z = z.
Proof.
  intros Hz. unfold nearest.
  assert (Hlog : (Z.log2 z < 53)%Z).
  { destruct (Z.eq_dec z 0) as [-> | Hnonzero]; [cbn; lia|].
    apply Z.log2_lt_pow2; lia. }
  destruct (Z.log2 z + 1 - 53 <=? 0)%Z eqn:E; [reflexivity|].
  apply Z.leb_gt in E. lia.
Qed.

Lemma double_exact (z : Z) : (0 <= z < 2 ^ 53)%Z -> double z = finite z.
Proof.
  intros Hz. unfold double. rewrite Z.abs_eq by lia. rewrite nearest_exact by exact Hz.
  assert (Hlog : (Z.log2 z < 53)%Z).
  { destruct (Z.eq_dec z 0) as [-> | Hnonzero]; [cbn; lia|].
    apply Z.log2_lt_pow2; lia. }
  destruct (1024 <=? Z.log2 z)%Z eqn:E; [apply Z.leb_le in E; lia|].
  f_equal. destruct (Z.eq_dec z 0) as [-> | Hnonzero]; [reflexivity|].
  rewrite Z.sgn_pos by lia. lia.
Qed.




(** ** The list handler *)

Lemma parseNumber_accepts (accept : Num -> bool) (raw : option string) (n : Num) :
  parseNumber accept raw = Some n -> accept n = true.
Proof.
  unfold parseNumber. destruct raw as [text|]; [|discriminate].
  destruct (text =? ""); [discriminate|].
  destruct (accept (parseInt text)) eqn:E; [|discriminate].
  intros [= <-]. exact E.
Qed.

Lemma positive_truthy (n : Num) : positive n = true -> number_truthy n = true.
Proof.
  destruct n as [z| | |]; cbn; try (intros; reflexivity || discriminate).
  intros H. apply Z.ltb_lt in H.
  destruct (z =? 0)%Z eqn:E; [apply Z.eqb_eq in E; lia | reflexivity].
Qed.

(** The limit the parser keeps is positive, so the handler passes it on. *)
Lemma parsed_limit_is_passed (JSON_parse : string -> option JSON) (request : Request)
  (l : Num) :
  limit (parseQueryParams JSON_parse request) = Some l ->
  positive l = true /\ nonzero (limit (parseQueryParams JSON_parse request)) = true.
Proof.
  intros H. pose proof H as H'. cbn [parseQueryParams limit] in H'.
  apply parseNumber_accepts in H'.
  split; [exact H'|]. rewrite H. cbn [nonzero]. apply positive_truthy. exact H'.
Qed.

(** The list handler either resolves at once with a failure, or awaits
    exactly one select and hands its outcome to [listOutcome]. *)
Lemma listRecords_shape (JSON_parse : string -> option JSON) (config : Database)
  (request : Request) :
  let params := parseQueryParams JSON_parse request in
  (exists response,
      listRecords JSON_parse config request = resolve response
      /\ success (json response) = false)
  \/ (exists fields table condition ordering,
         listRecords JSON_parse config request
         = execute
             (select_from fields table condition ordering
                (if nonzero (limit params) then limit params else None)
                (effectiveOffset params))
             (listOutcome params)).
Proof.
  intros params. unfold listRecords. fold params.
  destruct (extractTableFromUrl request) as [tableName|];
    [|left; eexists; split; reflexivity].
  destruct (lookup tableName (schema config)) as [tableSchema|] eqn:Hknown;
    [|left; eexists; split; reflexivity].
  destruct (selectionOf config tableName tableSchema params)
    as [response|selectFields] eqn:Hselection.
  { left. exists response. split; [reflexivity|].
    unfold selectionOf in Hselection.
    destruct (select params) as [[|field fields]|]; try discriminate.
    destruct (Nat.eqb _ 0); [|destruct (existsb _ _); discriminate].
    injection Hselection as <-. reflexivity. }
  destruct (conditionOf tableSchema params) as [whereCondition|e];
    [|left; eexists; split; reflexivity].
  destruct (orderingOf config tableName tableSchema params)
    as [[response|orderConditions]|e] eqn:Hordering;
    [| |left; eexists; split; reflexivity].
  { left. exists response. split; [reflexivity|].
    unfold orderingOf in Hordering.
    destruct (orderBy params) as [o|]; [|discriminate].
    destruct (truthy o); [|discriminate].
    destruct (guardedEntries "params.orderBy" o) as [entries|e]; [|discriminate].
    cbn [bind] in Hordering.
    apply (orderLoop_refusal config tableName tableSchema _ _ _ Hordering). }
  right. do 4 eexists. reflexivity.
Qed.

(** C9. Whenever a list request settles with [success: true], the handler
    ran one query, the response carries under [data] the very rows the
    executor returned for it, and [meta.total] is their number: the length
    of the returned sequence, whatever the number of rows that match.  So
    when the request has a limit and the executor returns no more rows
    than the limit it is given, [meta.total] is at most the limit. *)
Theorem total_is_the_number_of_returned_rows (JSON_parse : string -> option JSON)
  (config : Database) (request : Request) (response : Response) (queries : list Query) :
  run config request (listRecords JSON_parse config request) = (answers response, queries) ->
  success (json response) = true ->
  exists query result m,
    queries = [query]
    /\ db config query = fulfilled result
    /\ data (json response) = Some (JArray result)
    /\ meta (json response) = Some m
    /\ total m = length result
    /\ (forall l,
          limit (parseQueryParams JSON_parse request) = Some l ->
          (forall fields table condition ordering skipped returned,
              db config (select_from fields table condition ordering (Some l) skipped)
              = fulfilled returned ->
              at_most (length returned) l) ->
          at_most (total m) l).
Proof.
  intros Hrun Hsuccess.
  destruct (listRecords_shape JSON_parse config request)
    as [(failed & Hshape & Hfailed) | (fields & table & condition & ordering & Hshape)];
    rewrite Hshape in Hrun; cbn [run] in Hrun.
  - injection Hrun as <- <-. rewrite Hfailed in Hsuccess. discriminate.
  - set (params := parseQueryParams JSON_parse request) in *.
    set (query := select_from fields table condition ordering
                    (if nonzero (limit params) then limit params else None)
                    (effectiveOffset params)) in *.
    destruct (db config query) as [result|msg|msg] eqn:Hdb; cbn in Hrun;
      injection Hrun as <- <-; [|discriminate|discriminate].
    exists query, result.
    eexists. repeat split; try reflexivity; try exact Hdb.
    cbn [total]. intros l Hlimit Hhonours.
    destruct (parsed_limit_is_passed JSON_parse request l Hlimit) as [_ Hpassed].
    fold params in Hpassed, Hlimit. unfold query in Hdb.
    rewrite Hpassed, Hlimit in Hdb.
    exact (Hhonours _ _ _ _ _ _ Hdb).
Qed.

(** The sample executor returns no more rows than the limit. *)
Lemma sample_executor_honours_limit (fields : option (list (string * Column)))
  (table : Table) (condition : option SQL) (ordering : list OrderTerm)
  (l : Num) (skipped : option Num) (returned : list JSON) :
  nonnegative l = true ->
  db Sample.config (select_from fields table condition ordering (Some l) skipped)
  = fulfilled returned ->
  at_most (length returned) l.
Proof.
  intros Hl Hreturned.
  change (db Sample.config (select_from fields table condition ordering (Some l) skipped))
    with (fulfilled (Sample.window (Some l) skipped Sample.rows)) in Hreturned.
  injection Hreturned as <-.
  destruct l as [z| | |]; cbn in Hl; try discriminate; [|exact I].
  apply Z.leb_le in Hl. unfold at_most, Sample.window, Sample.count.
  rewrite length_firstn. lia.
Qed.

Lemma total_is_the_number_of_returned_rows_witness :
  let request := Sample.get "/posts" [("limit", "2")] in
  exists query result m,
    snd (run Sample.config request (listRecords JsonText.parse Sample.config request))
    = [query]
    /\ db Sample.config query = fulfilled result
    /\ (exists response,
          fst (run Sample.config request
                 (listRecords JsonText.parse Sample.config request)) = answers response
          /\ meta (json response) = Some m)
    /\ total m = length result
    /\ total m = 2
    /\ at_most (total m) (finite 2).
Proof.
  intros request.
  destruct (total_is_the_number_of_returned_rows JsonText.parse Sample.config request
              _ _ eq_refl eq_refl)
    as (query & result & m & Hqueries & Hdb & Hdata & Hmeta & Htotal & Hlimit).
  exists query, result, m.
  assert (Hhonours : forall fields table condition ordering skipped returned,
             db Sample.config
               (select_from fields table condition ordering (Some (finite 2)) skipped)
             = fulfilled returned ->
             at_most (length returned) (finite 2)).
  { intros fields table condition ordering skipped returned Hreturned.
    apply (sample_executor_honours_limit fields table condition ordering
             (finite 2) skipped returned); [reflexivity | exact Hreturned]. }
  split; [exact Hqueries|]. split; [exact Hdb|].
  split; [eexists; split; [reflexivity | exact Hmeta]|].
  split; [exact Htotal|].
  split; [injection Hmeta as <-; reflexivity|].
  exact (Hlimit (finite 2) eq_refl Hhonours).
Defined.

(** ** Query parameters that are not JSON *)

Lemma lookup_without_same (name : string) (parameters : list (string * string)) :
  lookup name (filter (fun parameter => negb (fst parameter =? name)) parameters) = None.
Proof.
  induction parameters as [|[k v] parameters IH]; cbn; [reflexivity|].
  destruct (k =? name) eqn:E; cbn; [exact IH | rewrite E; exact IH].
Qed.

Lemma lookup_without_other (name key : string) (parameters : list (string * string)) :
  name <> key ->
  lookup key (filter (fun parameter => negb (fst parameter =? name)) parameters)
  = lookup key parameters.
Proof.
  intros Hne. induction parameters as [|[k v] parameters IH]; cbn; [reflexivity|].
  destruct (k =? name) eqn:E; cbn.
  - apply String.eqb_eq in E. subst k.
    destruct (name =? key) eqn:E'; [apply String.eqb_eq in E'; contradiction | exact IH].
  - destruct (k =? key); [reflexivity | exact IH].
Qed.

Lemma parseJSON_unparseable (JSON_parse : string -> option JSON) (text : string) :
  JSON_parse text = None -> parseJSON JSON_parse (Some text) = None.
Proof. intros H. unfold parseJSON. rewrite H. destruct (text =? ""); reflexivity. Qed.

(** The list handler reads its request through the path and the parsed
    parameters only. *)
Lemma listRecords_ext (JSON_parse : string -> option JSON) (config : Database)
  (request request' : Request) :
  pathname request = pathname request' ->
  parseQueryParams JSON_parse request = parseQueryParams JSON_parse request' ->
  listRecords JSON_parse config request = listRecords JSON_parse config request'.
Proof.
  intros Hpath Hparams. unfold listRecords, extractTableFromUrl, pathParts.
  rewrite Hpath, Hparams. reflexivity.
Qed.

(** C10. A [where], or an [orderBy], that [JSON.parse] refuses leaves the
    parsed parameters as they are without it: the list handler does what
    it does on the request without that parameter, with no condition
    (no ordering) from it and no failure on its account.  In particular a
    request on a known table whose only parameter is such a [where] runs
    the unfiltered select and answers 200 with the rows it gets. *)
Theorem unparseable_filter_is_treated_as_absent (JSON_parse : string -> option JSON)
  (config : Database) (request : Request) (text : string) :
  JSON_parse text = None ->
  (lookup "where" (searchParams request) = Some text ->
   parseQueryParams JSON_parse request
   = parseQueryParams JSON_parse (without "where" request)
   /\ where_ (parseQueryParams JSON_parse request) = None
   /\ listRecords JSON_parse config request
      = listRecords JSON_parse config (without "where" request))
  /\ (lookup "orderBy" (searchParams request) = Some text ->
      parseQueryParams JSON_parse request
      = parseQueryParams JSON_parse (without "orderBy" request)
      /\ orderBy (parseQueryParams JSON_parse request) = None
      /\ listRecords JSON_parse config request
         = listRecords JSON_parse config (without "orderBy" request))
  /\ (forall tableName tableSchema rows,
        extractTableFromUrl request = Some tableName ->
        lookup tableName (schema config) = Some tableSchema ->
        searchParams request = [("where", text)] ->
        db config (select_from None tableSchema None [] None None) = fulfilled rows ->
        run config request (listRecords JSON_parse config request)
        = (answers
             {| status := 200;
                json := {| success := true; data := Some (JArray rows); error := None;
                           message := None;
                           meta := Some {| total := length rows; meta_page := None;
                                           meta_limit := None |} |} |},
           [select_from None tableSchema None [] None None])).
Proof.
  intros Hparse. split; [|split].
  - intros Hwhere.
    assert (Hparams : parseQueryParams JSON_parse request
                      = parseQueryParams JSON_parse (without "where" request)).
    { unfold parseQueryParams, without. cbn [searchParams].
      rewrite lookup_without_same, Hwhere, (parseJSON_unparseable _ _ Hparse).
      rewrite !lookup_without_other by discriminate. reflexivity. }
    split; [exact Hparams|]. split.
    + cbn [parseQueryParams where_]. rewrite Hwhere.
      apply parseJSON_unparseable, Hparse.
    + apply listRecords_ext; [reflexivity | exact Hparams].
  - intros HorderBy.
    assert (Hparams : parseQueryParams JSON_parse request
                      = parseQueryParams JSON_parse (without "orderBy" request)).
    { unfold parseQueryParams, without. cbn [searchParams].
      rewrite lookup_without_same, HorderBy, (parseJSON_unparseable _ _ Hparse).
      rewrite !lookup_without_other by discriminate. reflexivity. }
    split; [exact Hparams|]. split.
    + cbn [parseQueryParams orderBy]. rewrite HorderBy.
      apply parseJSON_unparseable, Hparse.
    + apply listRecords_ext; [reflexivity | exact Hparams].
  - intros tableName tableSchema rows Htable Hknown Honly Hrows.
    unfold listRecords. rewrite Htable, Hknown.
    assert (Hparams : parseQueryParams JSON_parse request
                      = {| select := None; where_ := None; orderBy := None;
                           limit := None; page := None; offset := None |}).
    { unfold parseQueryParams. rewrite Honly. cbn [lookup String.eqb Ascii.eqb Bool.eqb].
      rewrite (parseJSON_unparseable _ _ Hparse). reflexivity. }
    rewrite Hparams. cbn. rewrite Hrows. reflexivity.
Qed.

Lemma unparseable_filter_is_treated_as_absent_witness :
  let request := Sample.get "/posts" [("where", "{bad")] in
  let request' := Sample.get "/posts" [("limit", "2"); ("orderBy", "{bad")] in
  JsonText.parse "{bad" = None
  /\ listRecords JsonText.parse Sample.config request
     = listRecords JsonText.parse Sample.config (Sample.get "/posts" [])
  /\ listRecords JsonText.parse Sample.config request'
     = listRecords JsonText.parse Sample.config (Sample.get "/posts" [("limit", "2")])
  /\ run Sample.config request (listRecords JsonText.parse Sample.config request)
     = (answers
          {| status := 200;
             json := {| success := true; data := Some (JArray Sample.rows); error := None;
                        message := None;
                        meta := Some {| total := 3; meta_page := None;
                                        meta_limit := None |} |} |},
        [select_from None Sample.posts None [] None None]).
Proof.
  intros request request'.
  assert (Hparse : JsonText.parse "{bad" = None) by reflexivity.
  destruct (unparseable_filter_is_treated_as_absent JsonText.parse Sample.config
              request "{bad" Hparse) as (Hwhere & _ & Hunfiltered).
  destruct (unparseable_filter_is_treated_as_absent JsonText.parse Sample.config
              request' "{bad" Hparse) as (_ & HorderBy & _).
  split; [exact Hparse|]. split; [|split].
  - exact (proj2 (proj2 (Hwhere eq_refl))).
  - exact (proj2 (proj2 (HorderBy eq_refl))).
  - exact (Hunfiltered "posts" Sample.posts Sample.rows eq_refl eq_refl eq_refl eq_refl).
Defined.

(** * Further properties of the handlers *)

(** ** The discipline of the handlers *)

Lemma refusal_disciplined (code : nat) (err : string) :
  code = 400 \/ code = 404 -> disciplined (resolve (failure code err)).
Proof.
  intros H. constructor. split; [reflexivity|]. split; [reflexivity|].
  destruct H as [-> | ->]; auto.
Qed.

Lemma internalError_refuses (e : Exception) : refuses (internalError e).
Proof.
  split; [reflexivity|]. split; [reflexivity|]. right. right. split; reflexivity.
Qed.

Lemma bodyCatch_refuses (e : Exception) : refuses (bodyCatch e).
Proof. split; [reflexivity|]. split; [reflexivity|]. left. reflexivity. Qed.

Lemma listOutcome_disciplined (query : Query) (params : QueryParams) :
  disciplined (execute query (listOutcome params)).
Proof.
  constructor.
  - intros rows. eexists. split; [reflexivity|]. left. repeat split. discriminate.
  - intros msg. eexists. split; [reflexivity | discriminate].
  - intros msg. eexists. split; [reflexivity | apply internalError_refuses].
Qed.

Lemma mutationOutcome_disciplined (query : Query) (verb failed : string)
  (caught : Exception -> Response) :
  failed <> "Internal server error" ->
  (forall e, refuses (caught e)) ->
  disciplined (execute query (mutationOutcome verb failed caught)).
Proof.
  intros Hfailed Hcaught. constructor.
  - intros rows. eexists. split; [reflexivity|]. left. repeat split. discriminate.
  - intros msg. eexists. split; [reflexivity | exact Hfailed].
  - intros msg. eexists. split; [reflexivity | apply Hcaught].
Qed.

Lemma recordOutcome_disciplined (query : Query) :
  disciplined (execute query recordOutcome).
Proof.
  constructor.
  - intros [|record rows]; eexists; (split; [reflexivity|]).
    + right. repeat split.
    + left. repeat split. discriminate.
  - intros msg. eexists. split; [reflexivity | discriminate].
  - intros msg. eexists. split; [reflexivity | apply internalError_refuses].
Qed.

Lemma listRecords_disciplined (JSON_parse : string -> option JSON) (config : Database)
  (request : Request) :
  disciplined (listRecords JSON_parse config request).
Proof.
  unfold listRecords.
  destruct (extractTableFromUrl request) as [tableName|];
    [|apply refusal_disciplined; auto].
  destruct (lookup tableName (schema config)) as [tableSchema|];
    [|apply refusal_disciplined; auto].
  destruct (selectionOf config tableName tableSchema _) as [response|selectFields] eqn:Hs.
  { unfold selectionOf in Hs.
    destruct (select _) as [[|field fields]|]; try discriminate.
    destruct (Nat.eqb _ 0); [|destruct (existsb _ _); discriminate].
    injection Hs as <-. apply refusal_disciplined; auto. }
  destruct (conditionOf tableSchema _) as [whereCondition|e];
    [|constructor; apply internalError_refuses].
  destruct (orderingOf config tableName tableSchema _) as [[response|terms]|e] eqn:Ho;
    [| |constructor; apply internalError_refuses].
  { unfold orderingOf in Ho.
    destruct (orderBy _) as [o|]; [|discriminate].
    destruct (truthy o); [|discriminate].
    destruct (guardedEntries "params.orderBy" o) as [entries|e]; [|discriminate].
    cbn [bind] in Ho.
    apply orderLoop_refusal_form in Ho as [err ->].
    apply refusal_disciplined; auto. }
  apply listOutcome_disciplined.
Qed.

Lemma getRecordById_disciplined (config : Database) (request : Request) :
  disciplined (getRecordById config request).
Proof.
  unfold getRecordById.
  destruct (pathParts request) as [|tableName [|id more]];
    try (apply refusal_disciplined; auto).
  destruct (lookup tableName (schema config)) as [tableSchema|];
    [|apply refusal_disciplined; auto].
  destruct (lookup "id" tableSchema); [|apply refusal_disciplined; auto].
  apply recordOutcome_disciplined.
Qed.

Lemma createRecords_disciplined (config : Database) (request : Request) :
  disciplined (createRecords config request).
Proof.
  unfold createRecords.
  destruct (extractTableFromUrl request) as [tableName|];
    [|apply refusal_disciplined; auto].
  destruct (lookup tableName (schema config)) as [tableSchema|];
    [|apply refusal_disciplined; auto].
  constructor. intros [payload|]; [|apply refusal_disciplined; auto].
  destruct (negb (truthy payload)); [apply refusal_disciplined; auto|].
  apply mutationOutcome_disciplined; [discriminate | apply bodyCatch_refuses].
Qed.

Lemma updateRecords_disciplined (JSON_parse : string -> option JSON) (config : Database)
  (request : Request) :
  disciplined (updateRecords JSON_parse config request).
Proof.
  unfold updateRecords.
  destruct (extractTableFromUrl request) as [tableName|];
    [|apply refusal_disciplined; auto].
  destruct (lookup tableName (schema config)) as [tableSchema|];
    [|apply refusal_disciplined; auto].
  destruct (where_ _) as [w|]; [|apply refusal_disciplined; auto].
  destruct (byIdOnly _); [|apply refusal_disciplined; auto].
  constructor. intros [payload|]; cbn [updateWithBody];
    [|apply refusal_disciplined; auto].
  destruct (negb (truthy payload) || negb (typeof_object payload));
    [apply refusal_disciplined; auto|].
  destruct (buildWhereCondition w tableSchema) as [[condition|]|e];
    [|apply refusal_disciplined; auto|constructor; apply bodyCatch_refuses].
  apply mutationOutcome_disciplined; [discriminate | apply bodyCatch_refuses].
Qed.

Lemma deleteRecords_disciplined (JSON_parse : string -> option JSON) (config : Database)
  (request : Request) :
  disciplined (deleteRecords JSON_parse config request).
Proof.
  unfold deleteRecords.
  destruct (extractTableFromUrl request) as [tableName|];
    [|apply refusal_disciplined; auto].
  destruct (lookup tableName (schema config)) as [tableSchema|];
    [|apply refusal_disciplined; auto].
  destruct (where_ _) as [w|]; [|apply refusal_disciplined; auto].
  destruct (byIdOnly _); [|apply refusal_disciplined; auto].
  unfold deleteWhere.
  destruct (buildWhereCondition w tableSchema) as [[condition|]|e];
    [|apply refusal_disciplined; auto|constructor; apply internalError_refuses].
  apply mutationOutcome_disciplined; [discriminate | apply internalError_refuses].
Qed.

Lemma handlers_disciplined (environment : ModuleSystem)
  (JSON_parse : string -> option JSON) (config : Database)
  (h : Request -> Handler) (request : Request) :
  In h (handlers environment JSON_parse config) -> disciplined (h request).
Proof.
  unfold handlers. destruct environment; cbn;
    intros [<- | [<- | [<- | [<- | [<- | [<- | []]]]]]];
    first [ apply listRecords_disciplined
          | apply getRecordById_disciplined
          | apply createRecords_disciplined
          | apply updateRecords_disciplined
          | apply deleteRecords_disciplined
          | apply disciplined_raise ].
Qed.

(** How a disciplined handler settles, when it answers: refused before
    any query reaches the executor; or one query fulfilled; or one query
    rejected. *)
Lemma disciplined_run (config : Database) (request : Request) (h : Handler) :
  disciplined h ->
  forall response queries,
    run config request h = (answers response, queries) ->
    (queries = [] /\ refuses response)
    \/ (exists query rows,
           queries = [query] /\ db config query = fulfilled rows
           /\ ((status response = 200 /\ success (json response) = true
                /\ data (json response) <> None)
               \/ (status response = 404 /\ success (json response) = false
                   /\ data (json response) = None)))
    \/ (exists query msg err,
           queries = [query] /\ db config query = rejected msg
           /\ response = failure_with 500 err msg
           /\ err <> "Internal server error").
Proof.
  induction 1 as [refused Hrefused | e | next Hnext IH | query next Hrows Hmsg Hthrown];
    intros response queries Hrun; cbn [run] in Hrun.
  - injection Hrun as <- <-. left. auto.
  - discriminate.
  - exact (IH _ _ _ Hrun).
  - destruct (db config query) as [rows|msg|msg] eqn:Hdb.
    + destruct (Hrows rows) as (settled & Hnext & Hsettled).
      rewrite Hnext in Hrun. cbn in Hrun. injection Hrun as <- <-.
      right. left. exists query, rows. auto.
    + destruct (Hmsg msg) as (err & Hnext & Herr).
      rewrite Hnext in Hrun. cbn in Hrun. injection Hrun as <- <-.
      right. right. exists query, msg, err. auto.
    + destruct (Hthrown msg) as (settled & Hnext & Hsettled).
      rewrite Hnext in Hrun. cbn in Hrun. injection Hrun as <- <-.
      left. auto.
Qed.

(** X1. Whatever the request and whatever the executor answers, each of
    the six handlers settles with status 200, 400, 404 or 500; [success] is
    true exactly when the status is 200; a response with [success: false]
    carries no [data], and one with [success: true] carries [data]. *)
Theorem envelope_invariant (environment : ModuleSystem)
  (JSON_parse : string -> option JSON) (config : Database)
  (h : Request -> Handler) (request : Request) (response : Response)
  (queries : list Query) :
  In h (handlers environment JSON_parse config) ->
  run config request (h request) = (answers response, queries) ->
  In (status response) [200; 400; 404; 500]
  /\ (success (json response) = true <-> status response = 200)
  /\ (success (json response) = false -> data (json response) = None)
  /\ (success (json response) = true -> data (json response) <> None).
Proof.
  intros Hin Hrun.
  pose proof (handlers_disciplined environment JSON_parse config h request Hin) as Hd.
  destruct (disciplined_run config request _ Hd _ _ Hrun)
    as [(_ & Hsuccess & Hdata & Hstatus)
       | [(query & rows & _ & _ & [(Hstatus & Hsuccess & Hdata)
                                   | (Hstatus & Hsuccess & Hdata)])
         | (query & msg & err & _ & _ & -> & _)]].
  - destruct Hstatus as [Hstatus | [Hstatus | [Hstatus _]]];
      rewrite Hstatus, Hsuccess, Hdata;
      (split; [simpl; auto
              | split; [split; discriminate | split; [reflexivity | discriminate]]]).
  - rewrite Hstatus, Hsuccess.
    split; [simpl; auto
           | split; [split; reflexivity | split; [discriminate | intros _; exact Hdata]]].
  - rewrite Hstatus, Hsuccess, Hdata.
    split; [simpl; auto
           | split; [split; discriminate | split; [reflexivity | discriminate]]].
  - cbn.
    split; [auto
           | split; [split; discriminate | split; [reflexivity | discriminate]]].
Qed.

Lemma envelope_invariant_witness :
  let request := Sample.get "/posts" [("limit", "2")] in
  exists response,
    fst (run Sample.config request (listRecords JsonText.parse Sample.config request))
    = answers response
    /\ status response = 200
    /\ (success (json response) = true <-> status response = 200)
    /\ data (json response) <> None.
Proof.
  intros request.
  assert (Hin : In (listRecords JsonText.parse Sample.config)
                  (handlers ES_module JsonText.parse Sample.config)) by (left; reflexivity).
  eexists. split; [reflexivity|].
  destruct (envelope_invariant ES_module JsonText.parse Sample.config _ request _ _
              Hin eq_refl)
    as (_ & Hiff & _ & Hdata).
  split; [reflexivity|]. split; [exact Hiff|]. exact (Hdata eq_refl).
Defined.

(** X2. Each of the six handlers calls the executor at most once per
    request.  A 400 is always decided before the executor is called, and a
    200 is only ever given for a query that the executor fulfilled. *)
Theorem validation_precedes_execution (environment : ModuleSystem)
  (JSON_parse : string -> option JSON)
  (config : Database) (h : Request -> Handler) (request : Request)
  (response : Response) (queries : list Query) :
  In h (handlers environment JSON_parse config) ->
  run config request (h request) = (answers response, queries) ->
  length queries <= 1
  /\ (status response = 400 -> queries = [])
  /\ (status response = 200 ->
      exists query rows, queries = [query] /\ db config query = fulfilled rows).
Proof.
  intros Hin Hrun.
  pose proof (handlers_disciplined environment JSON_parse config h request Hin) as Hd.
  destruct (disciplined_run config request _ Hd _ _ Hrun)
    as [(-> & _ & _ & Hstatus)
       | [(query & rows & -> & Hdb & Hsettled)
         | (query & msg & err & -> & _ & -> & _)]].
  - split; [simpl; lia|]. split; [reflexivity|].
    intros H200.
    destruct Hstatus as [H | [H | [H _]]]; rewrite H in H200; discriminate.
  - split; [simpl; lia|]. split.
    + intros H400.
      destruct Hsettled as [(H & _) | (H & _)]; rewrite H in H400; discriminate.
    + intros _. exists query, rows. split; [reflexivity | exact Hdb].
  - split; [simpl; lia|]. cbn. split; discriminate.
Qed.

Lemma validation_precedes_execution_witness :
  let refused := Sample.get "/posts" [("where", Sample.whereIdAndName)] in
  let listed := Sample.get "/posts" [] in
  snd (run Sample.config refused (deleteRecords JsonText.parse Sample.config refused)) = []
  /\ exists query rows,
       snd (run Sample.config listed (listRecords JsonText.parse Sample.config listed))
       = [query]
       /\ db Sample.config query = fulfilled rows.
Proof.
  intros refused listed.
  assert (Hdelete : In (deleteRecords JsonText.parse Sample.config)
                      (handlers ES_module JsonText.parse Sample.config)).
  { do 5 right. left. reflexivity. }
  assert (Hlist : In (listRecords JsonText.parse Sample.config)
                    (handlers ES_module JsonText.parse Sample.config))
    by (left; reflexivity).
  destruct (validation_precedes_execution ES_module JsonText.parse Sample.config _
              refused _ _ Hdelete eq_refl) as (_ & H400 & _).
  destruct (validation_precedes_execution ES_module JsonText.parse Sample.config _
              listed _ _ Hlist eq_refl) as (_ & _ & H200).
  split; [exact (H400 eq_refl) | exact (H200 eq_refl)].
Defined.

(** X3. A handler answers 500 in two cases only.  Either the one query
    that reached the executor was rejected: the response then passes the
    executor's message on unchanged in [message], under an error other
    than ['Internal server error'].  Or no query reached the executor and
    something threw inside the handler (the filter compiler, the order
    loop or the query builder): the error is then
    ['Internal server error'].  Conversely a rejected query is always
    answered with 500 and its message; and a 500 has [success: false]. *)
Theorem rejection_is_reported_as_500 (environment : ModuleSystem)
  (JSON_parse : string -> option JSON)
  (config : Database) (h : Request -> Handler) (request : Request)
  (response : Response) (queries : list Query) :
  In h (handlers environment JSON_parse config) ->
  run config request (h request) = (answers response, queries) ->
  (status response = 500 ->
   success (json response) = false
   /\ ((exists query msg,
           queries = [query] /\ db config query = rejected msg
           /\ message (json response) = Some (worded msg)
           /\ error (json response) <> Some "Internal server error")
       \/ (queries = []
           /\ error (json response) = Some "Internal server error")))
  /\ (forall query msg,
        queries = [query] -> db config query = rejected msg ->
        status response = 500
        /\ message (json response) = Some (worded msg)
        /\ success (json response) = false).
Proof.
  intros Hin Hrun.
  pose proof (handlers_disciplined environment JSON_parse config h request Hin) as Hd.
  destruct (disciplined_run config request _ Hd _ _ Hrun)
    as [(-> & Hsuccess & _ & Hstatus)
       | [(query & rows & -> & Hdb & Hsettled)
         | (query & msg & err & -> & Hdb & -> & Herr)]].
  - split.
    + intros H500. split; [exact Hsuccess|]. right. split; [reflexivity|].
      destruct Hstatus as [H | [H | [_ H]]];
        [rewrite H in H500; discriminate | rewrite H in H500; discriminate | exact H].
    + intros query msg Hq. discriminate.
  - split.
    + intros H500.
      destruct Hsettled as [(H & _) | (H & _)]; rewrite H in H500; discriminate.
    + intros query' msg [= <-] Hdb'. rewrite Hdb in Hdb'. discriminate.
  - split.
    + intros _. split; [reflexivity|]. left. exists query, msg.
      split; [reflexivity|]. split; [exact Hdb|]. split; [reflexivity|].
      cbn. intros [= H]. exact (Herr H).
    + intros query' msg' [= <-] Hdb'. rewrite Hdb in Hdb'. injection Hdb' as <-.
      repeat split.
Qed.

Lemma rejection_is_reported_as_500_witness :
  let config :=
    {| db := fun _ => rejected "connection refused"; schema := schema Sample.config |} in
  let request := Sample.get "/posts" [] in
  let thrown :=
    Sample.get "/posts" [("where", "{" ++ JsonText.q "hasOwnProperty" ++ ":1}")] in
  (exists response,
      fst (run config request (listRecords JsonText.parse config request))
      = answers response
      /\ status response = 500
      /\ message (json response) = Some (worded "connection refused")
      /\ success (json response) = false)
  /\ (exists response,
         run Sample.config thrown (listRecords JsonText.parse Sample.config thrown)
         = (answers response, [])
         /\ status response = 500
         /\ error (json response) = Some "Internal server error").
Proof.
  intros config request thrown.
  assert (Hin : In (listRecords JsonText.parse config)
                  (handlers ES_module JsonText.parse config))
    by (left; reflexivity).
  assert (Hin' : In (listRecords JsonText.parse Sample.config)
                   (handlers ES_module JsonText.parse Sample.config))
    by (left; reflexivity).
  split.
  - eexists. split; [reflexivity|].
    destruct (rejection_is_reported_as_500 ES_module JsonText.parse config _ request
                _ _ Hin eq_refl) as (_ & Hmessage).
    exact (Hmessage _ "connection refused" eq_refl eq_refl).
  - eexists. split; [reflexivity|]. split; [reflexivity|].
    destruct (rejection_is_reported_as_500 ES_module JsonText.parse Sample.config _
                thrown _ _ Hin' eq_refl) as (H500 & _).
    destruct (H500 eq_refl) as (_ & [(query & msg & Hq & _) | (_ & Herror)]);
      [discriminate Hq | exact Herror].
Defined.

(** ** Paths *)

Lemma list_ascii_of_string_app (a b : string) :
  list_ascii_of_string (a ++ b)
  = (list_ascii_of_string a ++ list_ascii_of_string b)%list.
Proof. induction a as [|c a IH]; simpl; [reflexivity | rewrite IH; reflexivity]. Qed.

Lemma split_chars_segment (sep : ascii) (cs cur rest : list ascii) :
  forallb (fun c => negb (Ascii.eqb c sep)) cs = true ->
  split_chars sep cur (cs ++ rest) = split_chars sep (rev cs ++ cur) rest.
Proof.
  revert cur. induction cs as [|c cs IH]; intros cur Hfree; [reflexivity|].
  cbn [forallb] in Hfree. apply andb_true_iff in Hfree as [Hc Hcs].
  apply negb_true_iff in Hc. cbn [app split_chars]. rewrite Hc, (IH _ Hcs).
  cbn [rev]. rewrite <- app_assoc. reflexivity.
Qed.

Lemma is_segment_inv (s : string) :
  is_segment s = true ->
  (s =? "") = false
  /\ forallb (fun c => negb (Ascii.eqb c "/"%char)) (list_ascii_of_string s) = true.
Proof.
  unfold is_segment. intros H. apply andb_true_iff in H as [H1 H2].
  apply negb_true_iff in H1. auto.
Qed.

Lemma split_chars_whole (s : string) :
  forallb (fun c => negb (Ascii.eqb c "/"%char)) (list_ascii_of_string s) = true ->
  split_chars "/"%char [] (list_ascii_of_string s) = [s].
Proof.
  intros Hfree.
  rewrite <- (app_nil_r (list_ascii_of_string s)), (split_chars_segment _ _ _ _ Hfree).
  cbn [split_chars]. rewrite app_nil_r, rev_involutive, string_of_list_ascii_of_string.
  reflexivity.
Qed.

(** Splitting the joined segments at the slashes gives the segments back. *)
Lemma split_join (segments : list string) :
  Forall (fun s => is_segment s = true) segments ->
  filter (fun part => negb (part =? ""))
    (split_chars "/"%char [] (list_ascii_of_string (join "/" segments)))
  = segments.
Proof.
  induction 1 as [|segment segments Hsegment Hsegments IH]; [reflexivity|].
  destruct (is_segment_inv _ Hsegment) as [Hnonempty Hfree].
  destruct segments as [|next segments].
  - cbn [join]. rewrite (split_chars_whole _ Hfree). cbn [filter].
    rewrite Hnonempty. reflexivity.
  - change (join "/" (segment :: next :: segments))
      with (segment ++ "/" ++ join "/" (next :: segments)).
    rewrite !list_ascii_of_string_app, (split_chars_segment _ _ _ _ Hfree).
    cbn [list_ascii_of_string app split_chars Ascii.eqb Bool.eqb].
    rewrite app_nil_r, rev_involutive, string_of_list_ascii_of_string.
    cbn [filter]. rewrite Hnonempty. cbn [negb]. rewrite IH. reflexivity.
Qed.

Lemma pathParts_of_segments (segments : list string)
  (parameters : list (string * string)) (payload : option JSON) :
  Forall (fun s => is_segment s = true) segments ->
  pathParts {| pathname := "/" ++ join "/" segments; searchParams := parameters;
               body := payload |}
  = match segments with
    | first :: rest => if first =? "api" then rest else segments
    | [] => []
    end.
Proof.
  intros Hsegments. unfold pathParts, split. cbn [pathname].
  rewrite list_ascii_of_string_app.
  cbn [list_ascii_of_string app split_chars Ascii.eqb Bool.eqb rev
         string_of_list_ascii filter String.eqb negb].
  rewrite (split_join _ Hsegments). reflexivity.
Qed.

(** X4. The path [/s1/s2/.../sn] of non-empty, slash-free segments is
    read back as those segments, less one leading [api]: so [/api/t] and
    [/t] name the same table [t], and the table is the first segment that
    remains (none, for the root path). *)
Theorem path_segments_are_recovered (segments : list string)
  (parameters : list (string * string)) (payload : option JSON) :
  Forall (fun s => is_segment s = true) segments ->
  let request :=
    {| pathname := "/" ++ join "/" segments; searchParams := parameters;
       body := payload |} in
  pathParts request
  = match segments with
    | first :: rest => if first =? "api" then rest else segments
    | [] => []
    end
  /\ extractTableFromUrl request
     = match segments with
       | [] => None
       | first :: rest => if first =? "api" then hd_error rest else Some first
       end.
Proof.
  intros Hsegments request.
  assert (Hparts : pathParts request
                   = match segments with
                     | first :: rest => if first =? "api" then rest else segments
                     | [] => []
                     end).
  { exact (pathParts_of_segments segments parameters payload Hsegments). }
  split; [exact Hparts|].
  unfold extractTableFromUrl. rewrite Hparts.
  destruct segments as [|first rest]; [reflexivity|].
  destruct (first =? "api"); [destruct rest|]; reflexivity.
Qed.

Lemma path_segments_are_recovered_witness :
  extractTableFromUrl (Sample.get "/api/posts" []) = Some "posts"
  /\ extractTableFromUrl (Sample.get "/posts" []) = Some "posts"
  /\ pathParts (Sample.get "/api/posts/42" []) = ["posts"; "42"].
Proof.
  assert (H1 : Forall (fun s => is_segment s = true) ["api"; "posts"])
    by (repeat constructor).
  assert (H2 : Forall (fun s => is_segment s = true) ["posts"])
    by (repeat constructor).
  assert (H3 : Forall (fun s => is_segment s = true) ["api"; "posts"; "42"])
    by (repeat constructor).
  split; [exact (proj2 (path_segments_are_recovered _ [] None H1))|].
  split; [exact (proj2 (path_segments_are_recovered _ [] None H2))|].
  exact (proj1 (path_segments_are_recovered _ [] None H3)).
Defined.



(** ** The shape of compiled conditions *)

(** Induction on JSON values: the items of an array and the values of an
    object come with the induction hypothesis. *)
Lemma JSON_induction (P : JSON -> Prop) :
  P JNull ->
  (forall b, P (JBool b)) ->
  (forall n, P (JNumber n)) ->
  (forall s, P (JString s)) ->
  (forall items, Forall P items -> P (JArray items)) ->
  (forall props, Forall (fun entry => P (snd entry)) props -> P (JObject props)) ->
  forall v, P v.
Proof.
  intros Hnull Hbool Hnumber Hstring Harray Hobject.
  fix IH 1. intros [|b|n|s|items|props].
  - exact Hnull.
  - apply Hbool.
  - apply Hnumber.
  - apply Hstring.
  - apply Harray. induction items as [|item items IHitems]; constructor.
    + apply IH.
    + exact IHitems.
  - apply Hobject. induction props as [|[key value] props IHprops]; constructor.
    + apply IH.
    + exact IHprops.
Qed.

Lemma bind_normal {A B : Type} (c : Completion A) (f : A -> Completion B) (b : B) :
  bind c f = normal b -> exists a, c = normal a /\ f a = normal b.
Proof.
  destruct c as [a|e]; cbn [bind]; [|discriminate]. intros H. exists a. auto.
Qed.

Lemma sound_junction (tableSchema : Table) (conditions : list SQL) :
  conditions <> [] ->
  Forall (sound_for tableSchema) conditions ->
  sound_for tableSchema (and_ conditions) /\ sound_for tableSchema (or_ conditions).
Proof.
  intros Hne Hall.
  assert (Hjunctions : forallb nonempty_junctions conditions = true).
  { apply forallb_forall. intros c Hc.
    rewrite Forall_forall in Hall. apply (Hall c Hc). }
  assert (Hlength : Nat.eqb (length conditions) 0 = false)
    by (destruct conditions; [contradiction | reflexivity]).
  assert (Hcolumns : forall column, In column (flat_map columns_of conditions) ->
                                    exists key, member key tableSchema = Some column).
  { intros column Hin. apply in_flat_map in Hin as (c & Hc & Hin).
    rewrite Forall_forall in Hall. apply (proj2 (Hall c Hc) column Hin). }
  split; (split; [cbn; rewrite Hlength, Hjunctions; reflexivity | exact Hcolumns]).
Qed.

Lemma map_defined_sound {A : Type} (tableSchema : Table) (f : A -> option SQL)
  (xs : list A) :
  Forall (fun x => forall c, f x = Some c -> sound_for tableSchema c) xs ->
  Forall (sound_for tableSchema) (map_defined f xs).
Proof.
  induction 1 as [|x xs Hx Hxs IH]; cbn; [constructor|].
  destruct (f x) as [c|] eqn:E; [constructor; [apply Hx; reflexivity | exact IH] | exact IH].
Qed.

Lemma map_completed_sound {A : Type} (tableSchema : Table)
  (f : A -> Completion (option SQL)) (xs : list A) :
  Forall (fun x => forall c, f x = normal (Some c) -> sound_for tableSchema c) xs ->
  forall ys, map_completed f xs = normal ys -> Forall (sound_for tableSchema) ys.
Proof.
  induction 1 as [|x xs Hx Hxs IH]; cbn [map_completed]; intros ys.
  - intros [= <-]. constructor.
  - destruct (f x) as [found|e] eqn:E; [|discriminate].
    destruct (map_completed f xs) as [zs|e]; [|discriminate].
    intros [= <-]. specialize (IH zs eq_refl).
    destruct found as [c|]; [constructor; [apply Hx; reflexivity | exact IH] | exact IH].
Qed.

Lemma push_each_sound {A : Type} (tableSchema : Table)
  (f : A -> Completion (list SQL)) (xs : list A) :
  (forall x cs, f x = normal cs -> Forall (sound_for tableSchema) cs) ->
  forall ys, push_each f xs = normal ys -> Forall (sound_for tableSchema) ys.
Proof.
  intros Hf. induction xs as [|x xs IH]; cbn [push_each]; intros ys.
  - intros [= <-]. constructor.
  - destruct (f x) as [pushed|e] eqn:E; [|discriminate].
    destruct (push_each f xs) as [zs|e]; [|discriminate].
    intros [= <-]. apply Forall_app. split; [exact (Hf x pushed E) | exact (IH zs eq_refl)].
Qed.

Lemma operatorCondition_sound (tableSchema : Table) (key : string) (column : AnyColumn)
  (entry : string * JSON) (c : SQL) :
  member key tableSchema = Some column ->
  operatorCondition column entry = Some c -> sound_for tableSchema c.
Proof.
  intros Hcolumn. destruct entry as [operator value]. unfold operatorCondition.
  repeat (destruct (operator =? _);
          [intros [= <-]; split; [reflexivity|];
           intros column' [<- | []]; exists key; exact Hcolumn|]).
  discriminate.
Qed.

Lemma fieldCondition_sound (tableSchema : Table) (entry : string * JSON)
  (conditions : list SQL) :
  fieldCondition tableSchema entry = normal conditions ->
  Forall (sound_for tableSchema) conditions.
Proof.
  destruct entry as [key value]. unfold fieldCondition.
  destruct (is_logical key); [intros [= <-]; constructor|].
  destruct (member key tableSchema) as [column|] eqn:Hcolumn;
    [|intros [= <-]; constructor].
  destruct (typeof_object value && negb (is_null value)).
  - intros H. apply bind_normal in H as (entries & _ & H). injection H as <-.
    destruct (map_defined (operatorCondition column) entries)
      as [|c cs] eqn:Hops; constructor; [|constructor].
    apply sound_junction; [discriminate|]. rewrite <- Hops.
    apply map_defined_sound. apply Forall_forall. intros operator _ c'.
    apply (operatorCondition_sound tableSchema key column operator c' Hcolumn).
  - intros [= <-]. constructor; [|constructor]. split; [reflexivity|].
    intros column' [<- | []]. exists key. exact Hcolumn.
Qed.

Lemma fields_sound (tableSchema : Table) (entries : list (string * JSON))
  (fields : list SQL) :
  push_each (fieldCondition tableSchema) entries = normal fields ->
  Forall (sound_for tableSchema) fields.
Proof.
  apply push_each_sound. intros entry cs. apply fieldCondition_sound.
Qed.

Lemma finish_sound (tableSchema : Table) (conditions : list SQL) (c : SQL) :
  Forall (sound_for tableSchema) conditions ->
  finish conditions = Some c -> sound_for tableSchema c.
Proof.
  intros Hall. unfold finish. destruct conditions as [|c0 cs]; [discriminate|].
  intros [= <-]. apply sound_junction; [discriminate | exact Hall].
Qed.

Lemma finish_and (conditions : list SQL) (c : SQL) :
  finish conditions = Some c -> c = and_ conditions /\ conditions <> [].
Proof.
  unfold finish. destruct conditions as [|c0 cs]; [discriminate|].
  intros [= <-]. split; [reflexivity | discriminate].
Qed.

Lemma lookup_In {A : Type} (key : string) (props : list (string * A)) (v : A) :
  lookup key props = Some v -> In (key, v) props.
Proof.
  induction props as [|[k x] props IH]; cbn; [discriminate|].
  destruct (k =? key) eqn:E.
  - apply String.eqb_eq in E. intros [= <-]. left. rewrite E. reflexivity.
  - intros H. right. exact (IH H).
Qed.

(** What a filter compiles to, when the compiler returns, is sound for
    the table. *)
Lemma buildWhereCondition_sound (tableSchema : Table) (v : JSON) :
  (forall c, buildWhereCondition v tableSchema = normal (Some c) ->
             sound_for tableSchema c)
  /\ match v with
     | JArray items =>
         Forall (fun item => forall c,
                     buildWhereCondition item tableSchema = normal (Some c) ->
                     sound_for tableSchema c) items
     | _ => True
     end.
Proof.
  induction v as [|b|n|s|items IHitems|props IHprops] using JSON_induction;
    try (split; [discriminate | exact I]).
  - split.
    + intros c. cbn [buildWhereCondition]. intros H.
      apply bind_normal in H as (entries & _ & H).
      apply bind_normal in H as (fields & Hfields & H). injection H as H.
      exact (finish_sound _ _ _ (fields_sound _ _ _ Hfields) H).
    + apply Forall_forall. intros item Hitem.
      rewrite Forall_forall in IHitems. apply (IHitems item Hitem).
  - split; [|exact I]. intros c. rewrite buildWhereCondition_object. intros H.
    rewrite Forall_forall in IHprops.
    apply bind_normal in H as (andPart & Hand & H).
    apply bind_normal in H as (orPart & Hor & H).
    apply bind_normal in H as (notPart & Hnot & H).
    apply bind_normal in H as (entries & _ & H).
    apply bind_normal in H as (fields & Hfields & H). injection H as H.
    apply (finish_sound tableSchema (andPart ++ orPart ++ notPart ++ fields)%list c);
      [|exact H].
    apply Forall_app; split; [|apply Forall_app; split; [|apply Forall_app; split]].
    + destruct (lookup "AND" props) as [[|b|n|s|items|inner]|] eqn:Hprop;
        try (injection Hand as <-; constructor).
      apply bind_normal in Hand as (compiled & Hcompiled & Hand). injection Hand as <-.
      assert (Hall : Forall (sound_for tableSchema) compiled).
      { apply (map_completed_sound tableSchema
                 (fun c => buildWhereCondition c tableSchema) items);
          [|exact Hcompiled].
        exact (proj2 (IHprops _ (lookup_In _ _ _ Hprop))). }
      destruct compiled as [|c0 cs]; constructor; [|constructor].
      apply sound_junction; [discriminate | exact Hall].
    + destruct (lookup "OR" props) as [[|b|n|s|items|inner]|] eqn:Hprop;
        try (injection Hor as <-; constructor).
      apply bind_normal in Hor as (compiled & Hcompiled & Hor). injection Hor as <-.
      assert (Hall : Forall (sound_for tableSchema) compiled).
      { apply (map_completed_sound tableSchema
                 (fun c => buildWhereCondition c tableSchema) items);
          [|exact Hcompiled].
        exact (proj2 (IHprops _ (lookup_In _ _ _ Hprop))). }
      destruct compiled as [|c0 cs]; constructor; [|constructor].
      apply sound_junction; [discriminate | exact Hall].
    + destruct (lookup "NOT" props) as [v|] eqn:Hprop;
        [|injection Hnot as <-; constructor].
      destruct (truthy v); [|injection Hnot as <-; constructor].
      apply bind_normal in Hnot as (notCondition & Hcompiled & Hnot).
      injection Hnot as <-.
      destruct notCondition as [c0|]; constructor; [|constructor].
      exact (proj1 (IHprops _ (lookup_In _ _ _ Hprop)) c0 Hcompiled).
    + exact (fields_sound _ _ _ Hfields).
Qed.

(** X6. Whatever filter it is given, the compiler, when it returns a
    predicate, returns one [and] that is not empty, in which no [and] and
    no [or] is empty and every operand is what the table object has under
    some key: a column of the table, or one of the members that the table
    object inherits (from [Object.prototype], or [getSQL]), which the
    test [tableSchema[key]] finds as well.  A filter cannot make the query name
    a column of another table, but [{"constructor":1}] does compile to a
    comparison of the inherited [constructor] with [1]. *)
Theorem compiled_conditions_are_sound (whereObj : JSON) (tableSchema : Table)
  (condition : SQL) :
  buildWhereCondition whereObj tableSchema = normal (Some condition) ->
  nonempty_junctions condition = true
  /\ (exists conditions, condition = and_ conditions /\ conditions <> [])
  /\ (forall column, In column (columns_of condition) ->
        (exists key c, lookup key tableSchema = Some c /\ column = own c)
        \/ (exists key, lookup key tableSchema = None /\ inherited_by_table key = true
                        /\ column = prototype key))
  /\ buildWhereCondition (JObject [("constructor", JNumber 1)]) tableSchema
     = normal (Some (and_ [eq (match lookup "constructor" tableSchema with
                               | Some c => own c
                               | None => prototype "constructor"
                               end) (JNumber 1)])).
Proof.
  intros Hcompiled.
  destruct (proj1 (buildWhereCondition_sound tableSchema whereObj) condition Hcompiled)
    as [Hjunctions Hcolumns].
  split; [exact Hjunctions|]. split; [|split].
  - destruct whereObj as [|b|n|s|items|props]; try discriminate.
    + cbn [buildWhereCondition] in Hcompiled.
      apply bind_normal in Hcompiled as (entries & _ & H).
      apply bind_normal in H as (fields & _ & H). injection H as H.
      eexists. exact (finish_and _ _ H).
    + rewrite buildWhereCondition_object in Hcompiled.
      apply bind_normal in Hcompiled as (andPart & _ & H).
      apply bind_normal in H as (orPart & _ & H).
      apply bind_normal in H as (notPart & _ & H).
      apply bind_normal in H as (entries & _ & H).
      apply bind_normal in H as (fields & _ & H). injection H as H.
      eexists. exact (finish_and _ _ H).
  - intros column Hin. destruct (Hcolumns column Hin) as [key Hmember].
    unfold member in Hmember.
    destruct (lookup key tableSchema) as [c|] eqn:Hown.
    + left. exists key, c. split; [exact Hown | congruence].
    + right. exists key. destruct (inherited_by_table key); [|discriminate].
      split; [exact Hown|]. split; [reflexivity | congruence].
  - rewrite buildWhereCondition_fields by reflexivity.
    cbn [push_each fieldCondition]. change (is_logical "constructor") with false.
    cbv iota. unfold member. change (inherited_by_table "constructor") with true.
    destruct (lookup "constructor" tableSchema); reflexivity.
Qed.

Lemma compiled_conditions_are_sound_witness :
  let filter :=
    JObject [("AND", JArray [JObject [("title", JObject [("like", JString "%a%")])];
                             JObject [("bogusField", JNumber 1)]]);
             ("NOT", JObject [("id", JNumber 5)])] in
  let condition :=
    and_ [and_ [and_ [and_ [ilike (own Sample.titleColumn) (JString "%a%")]]];
          not_ (and_ [eq (own Sample.idColumn) (JNumber 5)])] in
  buildWhereCondition filter Sample.posts = normal (Some condition)
  /\ nonempty_junctions condition = true
  /\ (exists conditions, condition = and_ conditions /\ conditions <> [])
  /\ buildWhereCondition (JObject [("constructor", JNumber 1)]) Sample.posts
     = normal (Some (and_ [eq (prototype "constructor") (JNumber 1)])).
Proof.
  intros filter condition.
  assert (Hcompiled : buildWhereCondition filter Sample.posts = normal (Some condition))
    by reflexivity.
  destruct (compiled_conditions_are_sound filter Sample.posts condition Hcompiled)
    as (Hjunctions & Hand & _ & Hinherited).
  split; [exact Hcompiled|]. split; [exact Hjunctions|]. split; [exact Hand|].
  exact Hinherited.
Defined.

(** ** What update and delete are conditioned on *)

Lemma operatorCondition_columns (column : AnyColumn) (entry : string * JSON) (c : SQL) :
  operatorCondition column entry = Some c -> columns_of c = [column].
Proof.
  destruct entry as [operator value]. unfold operatorCondition.
  repeat (destruct (operator =? _); [intros [= <-]; reflexivity|]).
  discriminate.
Qed.

Lemma map_defined_columns (column : AnyColumn) (entries : list (string * JSON)) :
  forall c, In c (map_defined (operatorCondition column) entries) ->
            columns_of c = [column].
Proof.
  induction entries as [|entry entries IH]; cbn; [intros c []|].
  destruct (operatorCondition column entry) as [c0|] eqn:E; [|exact IH].
  intros c [<- | Hin]; [exact (operatorCondition_columns _ _ _ E) | exact (IH c Hin)].
Qed.

Lemma flat_map_columns (column : AnyColumn) (conditions : list SQL) :
  (forall c, In c conditions -> columns_of c = [column]) ->
  forall column', In column' (flat_map columns_of conditions) -> column' = column.
Proof.
  intros Hall column' Hin. apply in_flat_map in Hin as (c & Hc & Hin).
  rewrite (Hall c Hc) in Hin. destruct Hin as [<- | []]. reflexivity.
Qed.

(** The filter [{"id": v}] compiles to the conditions of its one entry. *)
Lemma id_filter_compiles (tableSchema : Table) (v : JSON) :
  buildWhereCondition (JObject [("id", v)]) tableSchema
  = bind (fieldCondition tableSchema ("id", v)) (fun fields => normal (finish fields)).
Proof.
  rewrite buildWhereCondition_fields by reflexivity. cbn [push_each].
  destruct (fieldCondition tableSchema ("id", v)) as [fields|e]; [|reflexivity].
  cbn [bind]. rewrite app_nil_r. reflexivity.
Qed.

Lemma member_id (tableSchema : Table) :
  member "id" tableSchema
  = match lookup "id" tableSchema with Some c => Some (own c) | None => None end.
Proof. unfold member. destruct (lookup "id" tableSchema); reflexivity. Qed.

(** The condition compiled from [{"id": v}] is on the id column alone. *)
Lemma id_filter_columns (tableSchema : Table) (v : JSON) (condition : SQL) :
  buildWhereCondition (JObject [("id", v)]) tableSchema = normal (Some condition) ->
  exists idColumn,
    lookup "id" tableSchema = Some idColumn
    /\ columns_of condition <> []
    /\ forall column, In column (columns_of condition) -> column = own idColumn.
Proof.
  rewrite id_filter_compiles. unfold fieldCondition.
  change (is_logical "id") with false. cbv iota. rewrite member_id.
  destruct (lookup "id" tableSchema) as [idColumn|]; [|discriminate].
  intros Hcompiled. exists idColumn. split; [reflexivity|].
  destruct (typeof_object v && negb (is_null v)).
  - apply bind_normal in Hcompiled as (fields & Hfields & Hcompiled).
    apply bind_normal in Hfields as (entries & _ & Hfields). injection Hfields as <-.
    destruct (map_defined (operatorCondition (own idColumn)) entries)
      as [|c0 cs] eqn:Hops; [discriminate|].
    cbn [finish] in Hcompiled. injection Hcompiled as <-.
    assert (Hall : forall c, In c (c0 :: cs) -> columns_of c = [own idColumn]).
    { rewrite <- Hops. apply map_defined_columns. }
    split.
    + cbn. rewrite (Hall c0 (or_introl eq_refl)). discriminate.
    + intros column Hin.
      apply (flat_map_columns (own idColumn) (c0 :: cs) Hall).
      cbn [columns_of flat_map] in Hin. rewrite app_nil_r in Hin. exact Hin.
  - cbn [bind finish] in Hcompiled. injection Hcompiled as <-. split; [discriminate|].
    cbn. intros column [<- | []]. reflexivity.
Qed.

(** X7. Every update and every delete that PUT, PATCH and DELETE hand to
    the executor is on the table of the path and carries a condition that
    mentions the table's [id] column and no other column: no request makes
    these handlers run a mutation without a condition or one conditioned
    on another column. *)
Theorem mutations_are_conditioned_on_id (environment : ModuleSystem)
  (JSON_parse : string -> option JSON)
  (config : Database) (h : Request -> Handler) (request : Request)
  (outcome : Outcome) (queries : list Query) (query : Query) :
  In h [updateRecords JSON_parse config;
        PATCH (loadedModule environment JSON_parse config);
        deleteRecords JSON_parse config] ->
  run config request (h request) = (outcome, queries) ->
  In query queries ->
  exists tableName tableSchema condition idColumn,
    extractTableFromUrl request = Some tableName
    /\ lookup tableName (schema config) = Some tableSchema
    /\ (query = delete_from tableSchema condition
        \/ exists payload, query = update_set tableSchema payload condition)
    /\ lookup "id" tableSchema = Some idColumn
    /\ columns_of condition <> []
    /\ forall column, In column (columns_of condition) -> column = own idColumn.
Proof.
  intros Hh Hrun Hquery.
  assert (Hrefused : forall r, run config request (resolve r) = (outcome, queries) ->
                               False).
  { intros r [= _ <-]. destruct Hquery. }
  assert (Hcases : h request = updateRecords JSON_parse config request
                   \/ h request = deleteRecords JSON_parse config request).
  { destruct Hh as [<- | [<- | [<- | []]]]; auto.
    destruct environment; [|auto].
    cbn in Hrun. injection Hrun as _ <-. destruct Hquery. }
  clear Hh.
  destruct Hcases as [Hh | Hh]; rewrite Hh in Hrun; clear Hh.
  - unfold updateRecords in Hrun.
    destruct (extractTableFromUrl request) as [tableName|];
      [|destruct (Hrefused _ Hrun)].
    destruct (lookup tableName (schema config)) as [tableSchema|] eqn:Hknown;
      [|destruct (Hrefused _ Hrun)].
    destruct (where_ (parseQueryParams JSON_parse request)) as [w|] eqn:Hw;
      [|destruct (Hrefused _ Hrun)].
    destruct (byIdOnly (parseQueryParams JSON_parse request)) eqn:Hguard;
      [|destruct (Hrefused _ Hrun)].
    apply byIdOnly_iff in Hguard as [v Hv]. rewrite Hw in Hv. injection Hv as ->.
    cbn [run] in Hrun. unfold updateWithBody in Hrun.
    destruct (body request) as [payload|]; [|destruct (Hrefused _ Hrun)].
    destruct (negb (truthy payload) || negb (typeof_object payload));
      [destruct (Hrefused _ Hrun)|].
    destruct (buildWhereCondition (JObject [("id", v)]) tableSchema)
      as [[condition|]|e] eqn:Hcompiled;
      [|destruct (Hrefused _ Hrun)|destruct (Hrefused _ Hrun)].
    cbn [run] in Hrun.
    destruct (db config (update_set tableSchema payload condition)); cbn in Hrun;
      injection Hrun as _ <-; cbn in Hquery; try contradiction;
      (destruct Hquery as [<- | []]);
      destruct (id_filter_columns _ _ _ Hcompiled) as (idColumn & Hid & Hne & Hall);
      exists tableName, tableSchema, condition, idColumn;
      (repeat split; try assumption; right; exists payload; reflexivity).
  - unfold deleteRecords in Hrun.
    destruct (extractTableFromUrl request) as [tableName|];
      [|destruct (Hrefused _ Hrun)].
    destruct (lookup tableName (schema config)) as [tableSchema|] eqn:Hknown;
      [|destruct (Hrefused _ Hrun)].
    destruct (where_ (parseQueryParams JSON_parse request)) as [w|] eqn:Hw;
      [|destruct (Hrefused _ Hrun)].
    destruct (byIdOnly (parseQueryParams JSON_parse request)) eqn:Hguard;
      [|destruct (Hrefused _ Hrun)].
    apply byIdOnly_iff in Hguard as [v Hv]. rewrite Hw in Hv. injection Hv as ->.
    unfold deleteWhere in Hrun.
    destruct (buildWhereCondition (JObject [("id", v)]) tableSchema)
      as [[condition|]|e] eqn:Hcompiled;
      [|destruct (Hrefused _ Hrun)|destruct (Hrefused _ Hrun)].
    cbn [run] in Hrun.
    destruct (db config (delete_from tableSchema condition)); cbn in Hrun;
      injection Hrun as _ <-; cbn in Hquery; try contradiction;
      (destruct Hquery as [<- | []]);
      destruct (id_filter_columns _ _ _ Hcompiled) as (idColumn & Hid & Hne & Hall);
      exists tableName, tableSchema, condition, idColumn;
      (repeat split; try assumption; left; reflexivity).
Qed.

Lemma mutations_are_conditioned_on_id_witness :
  let request := Sample.get "/posts" [("where", Sample.whereId1)] in
  let query := delete_from Sample.posts (and_ [eq (own Sample.idColumn) (JNumber 1)]) in
  snd (run Sample.config request (deleteRecords JsonText.parse Sample.config request))
  = [query]
  /\ exists tableName tableSchema condition idColumn,
       extractTableFromUrl request = Some tableName
       /\ lookup tableName (schema Sample.config) = Some tableSchema
       /\ (query = delete_from tableSchema condition
           \/ exists payload, query = update_set tableSchema payload condition)
       /\ lookup "id" tableSchema = Some idColumn
       /\ columns_of condition <> []
       /\ forall column, In column (columns_of condition) -> column = own idColumn.
Proof.
  intros request query. split; [reflexivity|].
  assert (Hh : In (deleteRecords JsonText.parse Sample.config)
                 [updateRecords JsonText.parse Sample.config;
                  PATCH (loadedModule ES_module JsonText.parse Sample.config);
                  deleteRecords JsonText.parse Sample.config]).
  { right. right. left. reflexivity. }
  assert (Hquery : In query [query]) by (left; reflexivity).
  exact (mutations_are_conditioned_on_id ES_module JsonText.parse Sample.config _
           request _ _ query Hh eq_refl Hquery).
Defined.



(** ** What the handlers hand to the executor *)

Lemma issues_only_run (P : Query -> Prop) (config : Database) (request : Request)
  (h : Handler) :
  issues_only P h ->
  forall outcome queries,
    run config request h = (outcome, queries) -> Forall P queries.
Proof.
  induction 1 as [refused | e | next Hnext IH | query next Hquery Hnext IH];
    intros outcome queries Hrun; cbn [run] in Hrun.
  - injection Hrun as _ <-. constructor.
  - injection Hrun as _ <-. constructor.
  - exact (IH _ _ _ Hrun).
  - destruct (run config request (next (db config query))) as [settled issued] eqn:Hrest.
    injection Hrun as _ <-. apply Forall_app. split; [|exact (IH _ _ _ Hrest)].
    destruct (db config query); repeat constructor; exact Hquery.
Qed.

Lemma issues_only_outcome (P : Query -> Prop) (next : QueryResult -> Handler) :
  (forall outcome, exists response, next outcome = resolve response) ->
  forall outcome, issues_only P (next outcome).
Proof. intros H outcome. destruct (H outcome) as [response ->]. constructor. Qed.

Lemma listOutcome_resolves (params : QueryParams) (outcome : QueryResult) :
  exists response, listOutcome params outcome = resolve response.
Proof. destruct outcome; eexists; reflexivity. Qed.

Lemma recordOutcome_resolves (outcome : QueryResult) :
  exists response, recordOutcome outcome = resolve response.
Proof. destruct outcome as [[|record rows]|msg|msg]; eexists; reflexivity. Qed.

Lemma mutationOutcome_resolves (verb failed : string) (caught : Exception -> Response)
  (outcome : QueryResult) :
  exists response, mutationOutcome verb failed caught outcome = resolve response.
Proof. destruct outcome; eexists; reflexivity. Qed.

Lemma extractTableFromUrl_hd (request : Request) :
  extractTableFromUrl request = hd_error (pathParts request).
Proof. unfold extractTableFromUrl. destruct (pathParts request); reflexivity. Qed.

Section QueriesOfARequest.
Variables (JSON_parse : string -> option JSON) (config : Database) (request : Request).

Let on_table (k : string) (query : Query) : Prop :=
  kind query = k /\ on_the_table_of config request query.

Lemma on_table_intro (k : string) (query : Query) (tableName : string) :
  kind query = k ->
  hd_error (pathParts request) = Some tableName ->
  lookup tableName (schema config) = Some (table_of query) ->
  on_table k query.
Proof. intros Hk Hpath Hknown. split; [exact Hk|]. exists tableName. auto. Qed.

Lemma listRecords_issues : issues_only (on_table "select") (listRecords JSON_parse config request).
Proof.
  unfold listRecords. rewrite extractTableFromUrl_hd.
  destruct (hd_error (pathParts request)) as [tableName|] eqn:Hpath; [|constructor].
  destruct (lookup tableName (schema config)) as [tableSchema|] eqn:Hknown; [|constructor].
  destruct (selectionOf _ _ _ _); [constructor|].
  destruct (conditionOf _ _); [|constructor].
  destruct (orderingOf _ _ _ _) as [[response|terms]|e]; [constructor| |constructor].
  constructor.
  - apply (on_table_intro _ _ tableName); [reflexivity | exact Hpath | exact Hknown].
  - apply issues_only_outcome, listOutcome_resolves.
Qed.

Lemma getRecordById_issues :
  issues_only (on_table "select") (getRecordById config request).
Proof.
  unfold getRecordById.
  destruct (pathParts request) as [|tableName [|id more]] eqn:Hpath; try constructor.
  destruct (lookup tableName (schema config)) as [tableSchema|] eqn:Hknown; [|constructor].
  destruct (lookup "id" tableSchema); [|constructor].
  constructor.
  - apply (on_table_intro _ _ tableName);
      [reflexivity | rewrite Hpath; reflexivity | exact Hknown].
  - apply issues_only_outcome, recordOutcome_resolves.
Qed.

Lemma createRecords_issues :
  issues_only (on_table "insert") (createRecords config request).
Proof.
  unfold createRecords. rewrite extractTableFromUrl_hd.
  destruct (hd_error (pathParts request)) as [tableName|] eqn:Hpath; [|constructor].
  destruct (lookup tableName (schema config)) as [tableSchema|] eqn:Hknown; [|constructor].
  constructor. intros [payload|]; [|constructor].
  destruct (negb (truthy payload)); [constructor|].
  constructor.
  - apply (on_table_intro _ _ tableName); [reflexivity | exact Hpath | exact Hknown].
  - apply issues_only_outcome, mutationOutcome_resolves.
Qed.

Lemma updateRecords_issues :
  issues_only (on_table "update") (updateRecords JSON_parse config request).
Proof.
  unfold updateRecords. rewrite extractTableFromUrl_hd.
  destruct (hd_error (pathParts request)) as [tableName|] eqn:Hpath; [|constructor].
  destruct (lookup tableName (schema config)) as [tableSchema|] eqn:Hknown; [|constructor].
  destruct (where_ _) as [w|]; [|constructor].
  destruct (byIdOnly _); [|constructor].
  constructor. intros [payload|]; cbn [updateWithBody]; [|constructor].
  destruct (negb (truthy payload) || negb (typeof_object payload)); [constructor|].
  destruct (buildWhereCondition w tableSchema) as [[condition|]|e];
    [|constructor|constructor].
  constructor.
  - apply (on_table_intro _ _ tableName); [reflexivity | exact Hpath | exact Hknown].
  - apply issues_only_outcome, mutationOutcome_resolves.
Qed.

Lemma deleteRecords_issues :
  issues_only (on_table "delete") (deleteRecords JSON_parse config request).
Proof.
  unfold deleteRecords. rewrite extractTableFromUrl_hd.
  destruct (hd_error (pathParts request)) as [tableName|] eqn:Hpath; [|constructor].
  destruct (lookup tableName (schema config)) as [tableSchema|] eqn:Hknown; [|constructor].
  destruct (where_ _) as [w|]; [|constructor].
  destruct (byIdOnly _); [|constructor].
  unfold deleteWhere.
  destruct (buildWhereCondition w tableSchema) as [[condition|]|e];
    [|constructor|constructor].
  constructor.
  - apply (on_table_intro _ _ tableName); [reflexivity | exact Hpath | exact Hknown].
  - apply issues_only_outcome, mutationOutcome_resolves.
Qed.

End QueriesOfARequest.

(** X9. A handler only ever hands the executor a query of its verb's kind
    (GET and GET_BY_ID a select, POST an insert, PUT and PATCH an update,
    DELETE a delete), and only on the table that the first segment of the
    path (after [api]) names in the schema: no request makes a handler
    touch another table or run another kind of statement. *)
Theorem queries_match_the_verb_and_the_path (environment : ModuleSystem)
  (JSON_parse : string -> option JSON)
  (config : Database) (verb : string) (h : Request -> Handler) (request : Request)
  (outcome : Outcome) (queries : list Query) (query : Query) :
  In (verb, h) (handlersByKind environment JSON_parse config) ->
  run config request (h request) = (outcome, queries) ->
  In query queries ->
  kind query = verb /\ on_the_table_of config request query.
Proof.
  intros Hh Hrun Hquery.
  assert (Hissues : issues_only
                      (fun q => kind q = verb /\ on_the_table_of config request q)
                      (h request)).
  { unfold handlersByKind in Hh. destruct environment; cbn in Hh;
      destruct Hh as [Hh | [Hh | [Hh | [Hh | [Hh | [Hh | []]]]]]];
      injection Hh as <- <-;
      first [ apply listRecords_issues
            | apply getRecordById_issues
            | apply createRecords_issues
            | apply updateRecords_issues
            | apply deleteRecords_issues
            | apply issues_none ]. }
  pose proof (issues_only_run _ config request _ Hissues _ _ Hrun) as Hall.
  rewrite Forall_forall in Hall. exact (Hall query Hquery).
Qed.

Lemma queries_match_the_verb_and_the_path_witness :
  let request :=
    Sample.with_body "/api/posts" [] (JObject [("title", JString "New")]) in
  let query := insert_values Sample.posts (JObject [("title", JString "New")]) in
  snd (run Sample.config request (createRecords Sample.config request)) = [query]
  /\ kind query = "insert"
  /\ on_the_table_of Sample.config request query.
Proof.
  intros request query. split; [reflexivity|].
  assert (Hh : In ("insert", createRecords Sample.config)
                 (handlersByKind ES_module JsonText.parse Sample.config)).
  { right. right. left. reflexivity. }
  assert (Hquery : In query [query]) by (left; reflexivity).
  exact (queries_match_the_verb_and_the_path ES_module JsonText.parse Sample.config
           _ _ request
           _ _ query Hh eq_refl Hquery).
Defined.

(** ** Limit and offset *)

Lemma parsed_numbers_are_in_range (JSON_parse : string -> option JSON)
  (request : Request) :
  let params := parseQueryParams JSON_parse request in
  (forall n, limit params = Some n -> positive n = true)
  /\ (forall p, page params = Some p -> positive p = true)
  /\ (forall o, offset params = Some o -> nonnegative o = true).
Proof.
  cbn. repeat split; intros n H; apply parseNumber_accepts in H; exact H.
Qed.

Lemma passed_limit (JSON_parse : string -> option JSON) (request : Request) :
  let params := parseQueryParams JSON_parse request in
  (if nonzero (limit params) then limit params else None) = limit params.
Proof.
  intros params. destruct (limit params) as [n|] eqn:Hlimit; [|reflexivity].
  destruct (parsed_limit_is_passed JSON_parse request n Hlimit) as [_ H].
  fold params in H. rewrite Hlimit in H. rewrite H. reflexivity.
Qed.

Lemma nearest_nonneg (z : Z) : (0 <= z)%Z -> (0 <= nearest z)%Z.
Proof.
  intros Hz. unfold nearest.
  destruct (Z.log2 z + 1 - 53 <=? 0)%Z eqn:Hexcess; [exact Hz|].
  apply Z.leb_gt in Hexcess.
  assert (Hunit : (0 < 2 ^ (Z.log2 z + 1 - 53))%Z)
    by (apply Z.pow_pos_nonneg; lia).
  assert (Hquotient : (0 <= z / 2 ^ (Z.log2 z + 1 - 53))%Z)
    by (apply Z.div_pos; lia).
  cbv zeta. destruct (_ || _); nia.
Qed.

Lemma double_nonneg (z : Z) : (0 <= z)%Z -> nonnegative (double z) = true.
Proof.
  intros Hz. unfold double. pose proof (nearest_nonneg (Z.abs z) (Z.abs_nonneg z)).
  destruct (1024 <=? _)%Z.
  - destruct (z <? 0)%Z eqn:E; [apply Z.ltb_lt in E; lia | reflexivity].
  - cbn. apply Z.leb_le. pose proof (Z.sgn_nonneg z). nia.
Qed.

(** [(page - 1) * limit] for a positive page and a positive limit is not
    negative; it is [NaN] only when the limit is an infinity. *)
Lemma page_offset_in_range (p n : Num) :
  positive p = true -> positive n = true ->
  nonnegative (mul (sub p (finite 1)) n) = true
  \/ (mul (sub p (finite 1)) n = NaN /\ n = infinity).
Proof.
  intros Hp Hn.
  assert (Hsub : nonnegative (sub p (finite 1)) = true).
  { destruct p as [x| | |]; cbn in Hp; try discriminate; [|reflexivity].
    apply Z.ltb_lt in Hp. cbn [sub]. apply double_nonneg. lia. }
  destruct (sub p (finite 1)) as [x| | |]; cbn in Hsub; try discriminate.
  - apply Z.leb_le in Hsub.
    destruct n as [y| | |]; cbn in Hn; try discriminate.
    + left. apply Z.ltb_lt in Hn. cbn [mul]. apply double_nonneg. nia.
    + cbn [mul sign]. destruct (Z.sgn x * 1)%Z eqn:E.
      * right. split; reflexivity.
      * left. reflexivity.
      * pose proof (Z.sgn_nonneg x). lia.
  - left. destruct n as [y| | |]; cbn in Hn; try discriminate; [|reflexivity].
    apply Z.ltb_lt in Hn. cbn [mul sign].
    rewrite Z.mul_1_l. rewrite Z.sgn_pos by exact Hn. reflexivity.
Qed.

(** X10. The select that the list handler awaits carries the limit of the
    request as parsed, which is positive when there is one (an infinity,
    for a numeral beyond the doubles), and as offset the [offset]
    parameter itself, or [(page - 1) * limit] in double arithmetic for a
    positive page.  The offset is never negative; it is [NaN] in the one
    case of page 1 under an infinite limit, and it is the integer
    [(page - 1) * limit] itself when that is below [2 ^ 53]. *)
Theorem list_limit_and_offset_are_in_range (JSON_parse : string -> option JSON)
  (config : Database) (request : Request) (outcome : Outcome) (queries : list Query)
  (fields : option (list (string * Column))) (table : Table) (condition : option SQL)
  (ordering : list OrderTerm) (l off : option Num) :
  run config request (listRecords JSON_parse config request) = (outcome, queries) ->
  In (select_from fields table condition ordering l off) queries ->
  let params := parseQueryParams JSON_parse request in
  l = limit params
  /\ (forall n, l = Some n -> positive n = true)
  /\ (forall m, off = Some m ->
        (nonnegative m = true \/ (m = NaN /\ limit params = Some infinity))
        /\ (offset params = Some m
            \/ exists p n, page params = Some p /\ limit params = Some n
                           /\ positive p = true
                           /\ m = mul (sub p (finite 1)) n))
  /\ (forall p n : Z,
        page params = Some (finite p) -> limit params = Some (finite n) ->
        nonzero (offset params) = false ->
        ((p - 1) * n < 2 ^ 53)%Z ->
        off = Some (finite ((p - 1) * n))).
Proof.
  intros Hrun Hquery params.
  pose proof (parsed_numbers_are_in_range JSON_parse request) as Hrange.
  pose proof (passed_limit JSON_parse request) as Hpassed.
  cbv zeta in Hrange, Hpassed. destruct Hrange as (Hlimit & Hpage & Hoffset).
  destruct (listRecords_shape JSON_parse config request)
    as [(failed & Hshape & _) | (fields' & table' & condition' & ordering' & Hshape)];
    rewrite Hshape in Hrun; cbn [run] in Hrun.
  - injection Hrun as _ <-. destruct Hquery.
  - rewrite Hpassed in Hrun. fold params in Hrun, Hlimit, Hpage, Hoffset.
    destruct (run config request _) as [settled issued] eqn:Hrest.
    assert (Hissued : issued = []).
    { destruct (db config _); cbn in Hrest; injection Hrest as _ <-; reflexivity. }
    injection Hrun as _ <-. rewrite Hissued, app_nil_r in Hquery.
    assert (Heq : select_from fields' table' condition' ordering' (limit params)
                    (effectiveOffset params)
                  = select_from fields table condition ordering l off).
    { destruct (db config _); cbn [reached] in Hquery;
        [destruct Hquery as [H | []]; exact H
        |destruct Hquery as [H | []]; exact H
        |destruct Hquery]. }
    injection Heq as _ _ _ _ <- <-.
    split; [reflexivity|]. split; [exact Hlimit|]. split.
    + intros m Hm. unfold effectiveOffset in Hm.
      destruct (nonzero (offset params)).
      * split; [left; exact (Hoffset m Hm) | left; exact Hm].
      * destruct (nonzero (page params) && nonzero (limit params)); [|discriminate].
        destruct (page params) as [p|] eqn:Hp; [|discriminate].
        destruct (limit params) as [n|] eqn:Hn; [|discriminate].
        injection Hm as <-.
        pose proof (Hpage p eq_refl) as Hpositive.
        pose proof (Hlimit n eq_refl) as Hpositive'.
        split.
        -- destruct (page_offset_in_range p n Hpositive Hpositive') as [H | [H ->]];
             [left; exact H | right; split; [exact H | reflexivity]].
        -- right. exists p, n. repeat split. exact Hpositive.
    + intros p n Hp Hn Hnone Hsmall. unfold effectiveOffset.
      rewrite Hnone, Hp, Hn.
      pose proof (Hpage _ Hp) as Hpositive. pose proof (Hlimit _ Hn) as Hpositive'.
      cbn in Hpositive, Hpositive'.
      apply Z.ltb_lt in Hpositive. apply Z.ltb_lt in Hpositive'.
      cbn [nonzero number_truthy].
      assert (Hp0 : (p =? 0)%Z = false) by (apply Z.eqb_neq; lia).
      assert (Hn0 : (n =? 0)%Z = false) by (apply Z.eqb_neq; lia).
      rewrite Hp0, Hn0. cbn [negb andb sub].
      assert (Hfit : (0 <= p - 1 < 2 ^ 53)%Z) by nia.
      rewrite (double_exact _ Hfit). cbn [mul].
      rewrite double_exact by nia. reflexivity.
Qed.

Lemma list_limit_and_offset_are_in_range_witness :
  let request := Sample.get "/posts" [("limit", "2"); ("page", "2")] in
  let request' := Sample.get "/posts" [("limit", Sample.huge); ("page", "1")] in
  snd (run Sample.config request (listRecords JsonText.parse Sample.config request))
  = [select_from None Sample.posts None [] (Some (finite 2)) (Some (finite 2))]
  /\ positive (finite 2) = true
  /\ Some (finite 2) = Some (finite ((2 - 1) * 2))
  /\ snd (run Sample.config request'
            (listRecords JsonText.parse Sample.config request'))
     = [select_from None Sample.posts None [] (Some infinity) (Some NaN)].
Proof.
  intros request request'.
  assert (Hquery : In (select_from None Sample.posts None [] (Some (finite 2))
                         (Some (finite 2)))
                     [select_from None Sample.posts None [] (Some (finite 2))
                        (Some (finite 2))])
    by (left; reflexivity).
  destruct (list_limit_and_offset_are_in_range JsonText.parse Sample.config request
              _ _ _ _ _ _ _ _ eq_refl Hquery) as (_ & Hlimit & _ & Hexact).
  assert (Hsmall : ((2 - 1) * 2 < 2 ^ 53)%Z) by reflexivity.
  split; [reflexivity|]. split; [exact (Hlimit (finite 2) eq_refl)|].
  split; [exact (Hexact 2%Z 2%Z eq_refl eq_refl eq_refl Hsmall)|].
  vm_compute. reflexivity.
Defined.

(** ** Filters that name no column *)

Lemma push_each_unknown_columns (tableSchema : Table) (props : list (string * JSON)) :
  (forall k v, In (k, v) props -> member k tableSchema = None) ->
  push_each (fieldCondition tableSchema) props = normal [].
Proof.
  induction props as [|[k v] props IH]; intros H; [reflexivity|].
  cbn [push_each].
  rewrite (fieldCondition_unknown_column _ _ _ (H k v (or_introl eq_refl))).
  rewrite IH; [reflexivity|]. intros k' v' Hin. apply (H k' v'). right. exact Hin.
Qed.

(** An object whose keys are no logical operators and name nothing the
    table object has compiles to no predicate. *)
Lemma unknown_columns_compile_to_nothing (tableSchema : Table)
  (props : list (string * JSON)) :
  (forall k v, In (k, v) props ->
               is_logical k = false /\ lookup k tableSchema = None
               /\ inherited_by_table k = false) ->
  buildWhereCondition (JObject props) tableSchema = normal None.
Proof.
  intros Hprops.
  rewrite buildWhereCondition_fields.
  - rewrite push_each_unknown_columns; [reflexivity|].
    intros k v Hin. apply member_none. apply (Hprops k v Hin).
  - apply lookup_not_in. intros k v Hin.
    apply (is_logical_false k (proj1 (Hprops k v Hin))).
  - apply lookup_not_in. intros k v Hin.
    apply (is_logical_false k (proj1 (Hprops k v Hin))).
  - apply lookup_not_in. intros k v Hin.
    apply (is_logical_false k (proj1 (Hprops k v Hin))).
  - apply lookup_not_in. intros k v Hin ->.
    destruct (Hprops _ v Hin) as (_ & _ & H). discriminate H.
Qed.

(** X11. A list request whose filter is an object that names only keys
    under which the table object has nothing (a misspelt field, say:
    neither a column nor one of the names that a table object inherits)
    is not refused: the filter compiles to no predicate, and
    the select the executor gets has no condition at all, as if no filter
    had been given. *)
Theorem filter_on_unknown_columns_is_no_filter (JSON_parse : string -> option JSON)
  (config : Database) (request : Request) (tableName : string) (tableSchema : Table)
  (props : list (string * JSON)) :
  extractTableFromUrl request = Some tableName ->
  lookup tableName (schema config) = Some tableSchema ->
  where_ (parseQueryParams JSON_parse request) = Some (JObject props) ->
  (forall k v, In (k, v) props ->
               is_logical k = false /\ lookup k tableSchema = None
               /\ inherited_by_table k = false) ->
  buildWhereCondition (JObject props) tableSchema = normal None
  /\ forall outcome queries query,
       run config request (listRecords JSON_parse config request) = (outcome, queries) ->
       In query queries ->
       exists fields ordering l off,
         query = select_from fields tableSchema None ordering l off.
Proof.
  intros Htable Hknown Hwhere Hprops.
  pose proof (unknown_columns_compile_to_nothing tableSchema props Hprops) as Hnone.
  split; [exact Hnone|].
  intros outcome queries query Hrun Hquery.
  unfold listRecords in Hrun. rewrite Htable, Hknown in Hrun.
  unfold conditionOf in Hrun. rewrite Hwhere in Hrun. cbn [truthy] in Hrun.
  rewrite Hnone in Hrun.
  destruct (selectionOf _ _ _ _) as [refused|fields];
    [injection Hrun as _ <-; destruct Hquery|].
  destruct (orderingOf _ _ _ _) as [[refused|ordering]|e];
    [injection Hrun as _ <-; destruct Hquery
    | |injection Hrun as _ <-; destruct Hquery].
  cbn [run] in Hrun.
  destruct (run config request _) as [settled issued] eqn:Hrest.
  assert (Hissued : issued = []).
  { destruct (db config _); cbn in Hrest; injection Hrest as _ <-; reflexivity. }
  injection Hrun as _ <-. rewrite Hissued, app_nil_r in Hquery.
  destruct (db config _); cbn [reached] in Hquery; try contradiction;
    (destruct Hquery as [<- | []]); do 4 eexists; reflexivity.
Qed.

Lemma filter_on_unknown_columns_is_no_filter_witness :
  let request :=
    Sample.get "/posts"
      [("where", "{" ++ JsonText.q "titel" ++ ":" ++ JsonText.q "Intro" ++ "}")] in
  run Sample.config request (listRecords JsonText.parse Sample.config request)
  = (answers (listResponse (parseQueryParams JsonText.parse request) Sample.rows),
     [select_from None Sample.posts None [] None None])
  /\ exists fields ordering l off,
       select_from None Sample.posts None [] None None
       = select_from fields Sample.posts None ordering l off.
Proof.
  intros request.
  assert (Hprops : forall k v, In (k, v) [("titel", JString "Intro")] ->
                               is_logical k = false /\ lookup k Sample.posts = None
                               /\ inherited_by_table k = false).
  { intros k v [Heq | []]. inversion Heq. repeat split. }
  destruct (filter_on_unknown_columns_is_no_filter JsonText.parse Sample.config request
              "posts" Sample.posts [("titel", JString "Intro")]
              eq_refl eq_refl eq_refl Hprops) as [_ Hqueries].
  split; [reflexivity|].
  exact (Hqueries _ _ (select_from None Sample.posts None [] None None) eq_refl
           (or_introl eq_refl)).
Defined.

(** ** The select list *)





(** ** Ordering, when it is accepted *)

Lemma guardedEntries_unshadowed (callee : string) (obj : JSON) :
  has_property "hasOwnProperty" obj = false ->
  guardedEntries callee obj = normal (ownEntries obj).
Proof.
  destruct obj as [|b|n|s|items|props]; try reflexivity.
  unfold has_property, has_key. cbn [guardedEntries ownEntries].
  destruct (lookup "hasOwnProperty" props); [discriminate | reflexivity].
Qed.

(** X13. When every key of the order specification is a column of the
    table (or [*]) and every direction is ['asc'] or ['desc'], the order
    loop refuses nothing and yields one term per entry, in the order of the
    entries: [desc] of the column for ['desc'], [asc] of it for ['asc']. *)
Theorem order_terms_follow_the_entries (config : Database) (tableName : string)
  (tableSchema : Table) (entries : list (string * JSON)) :
  lookup tableName (schema config) = Some tableSchema ->
  (forall key direction,
      In (key, direction) entries ->
      (key = "*" \/ has_key key tableSchema = true)
      /\ (is_text "asc" direction = true \/ is_text "desc" direction = true)) ->
  forall orderConditions,
    orderLoop config tableName tableSchema entries orderConditions
    = normal (inr (orderConditions ++ map (orderTerm tableSchema) entries)%list).
Proof.
  intros Hknown. induction entries as [|[key direction] entries IH];
    intros Hvalid acc.
  - cbn. rewrite app_nil_r. reflexivity.
  - cbn [orderLoop]. rewrite (validateFields_one config tableName tableSchema Hknown).
    destruct (Hvalid key direction (or_introl eq_refl)) as [Hkey Hdirection].
    assert (Hfield : (key =? "*") || has_member key tableSchema = true).
    { apply orb_true_iff. destruct Hkey as [-> | Hkey]; [left; reflexivity|].
      right. unfold has_member. rewrite Hkey. reflexivity. }
    rewrite Hfield. cbn [length Nat.eqb].
    assert (Hok : negb (is_text "asc" direction) && negb (is_text "desc" direction) = false).
    { destruct Hdirection as [-> | ->]; [reflexivity | apply andb_false_r]. }
    rewrite Hok, IH.
    + rewrite <- app_assoc. reflexivity.
    + intros k d Hin. apply Hvalid. right. exact Hin.
Qed.

Lemma order_terms_follow_the_entries_witness :
  let request :=
    Sample.get "/posts"
      [("orderBy", "{" ++ JsonText.q "createdAt" ++ ":" ++ JsonText.q "desc" ++ ","
                       ++ JsonText.q "title" ++ ":" ++ JsonText.q "asc" ++ "}")] in
  orderLoop Sample.config "posts" Sample.posts
    [("createdAt", JString "desc"); ("title", JString "asc")] []
  = normal (inr [desc (Some (own Sample.createdAtColumn));
                 asc (Some (own Sample.titleColumn))])
  /\ snd (run Sample.config request (listRecords JsonText.parse Sample.config request))
     = [select_from None Sample.posts None
          [desc (Some (own Sample.createdAtColumn)); asc (Some (own Sample.titleColumn))]
          None None].
Proof.
  intros request.
  assert (Hvalid : forall key direction,
             In (key, direction) [("createdAt", JString "desc"); ("title", JString "asc")] ->
             (key = "*" \/ has_key key Sample.posts = true)
             /\ (is_text "asc" direction = true \/ is_text "desc" direction = true)).
  { intros key direction [H | [H | []]]; inversion H; split; auto. }
  split; [|reflexivity].
  exact (order_terms_follow_the_entries Sample.config "posts" Sample.posts _
           eq_refl Hvalid []).
Defined.

(** X14. A list request whose order specification (a value without a
    property [hasOwnProperty] of its own, which would make the loop
    throw) has an entry with a key under which the table object has
    nothing and which is not [*] (so neither a column nor a name the
    table inherits), or with a direction other than the strings
    ['asc'] and ['desc'], is refused with [success: false] and no query is
    run: nothing is ordered by the entries that are valid.  The status is
    400, unless something throws on the way, which the [catch] of the
    handler answers with its 500: compiling the filter, which comes
    before the ordering, or quoting a refused direction that has no
    text (an object with a property [toString] of its own). *)
Theorem bad_order_entries_are_refused (JSON_parse : string -> option JSON)
  (config : Database) (request : Request) (tableName : string) (tableSchema : Table)
  (o : JSON) (key : string) (direction : JSON) :
  extractTableFromUrl request = Some tableName ->
  lookup tableName (schema config) = Some tableSchema ->
  orderBy (parseQueryParams JSON_parse request) = Some o ->
  truthy o = true ->
  has_property "hasOwnProperty" o = false ->
  In (key, direction) (ownEntries o) ->
  (key <> "*" /\ lookup key tableSchema = None /\ inherited_by_table key = false)
  \/ (is_text "asc" direction = false /\ is_text "desc" direction = false) ->
  exists response,
    run config request (listRecords JSON_parse config request) = (answers response, [])
    /\ success (json response) = false
    /\ (status response = 400
        \/ exists e,
             response = internalError e
             /\ (conditionOf tableSchema (parseQueryParams JSON_parse request) = throw e
                 \/ exists refused,
                      In refused (map snd (ownEntries o))
                      /\ toString refused = throw e)).
Proof.
  intros Htable Hknown Horder Htruthy Hown Hin Hbad.
  unfold listRecords. rewrite Htable, Hknown.
  destruct (selectionOf _ _ _ _) as [refused|fields] eqn:Hselection.
  - exists refused. split; [reflexivity|].
    unfold selectionOf in Hselection.
    destruct (select _) as [[|field fields]|]; try discriminate.
    destruct (Nat.eqb _ 0); [|destruct (existsb _ _); discriminate].
    injection Hselection as <-. split; [reflexivity | left; reflexivity].
  - destruct (conditionOf tableSchema _) as [whereCondition|e].
    + unfold orderingOf. rewrite Horder, Htruthy.
      rewrite (guardedEntries_unshadowed _ _ Hown). cbn [bind].
      assert (Hrejects : forall terms,
                 orderLoop config tableName tableSchema (ownEntries o) []
                 <> normal (inr terms)).
      { apply (orderLoop_rejects config tableName tableSchema Hknown).
        exists key, direction. split; [exact Hin|].
        destruct Hbad as [(Hstar & Hcolumn & Hinherited) | Hdirection];
          [left | right; exact Hdirection].
        split; [exact Hstar|]. apply member_none. split; assumption. }
      destruct (orderLoop config tableName tableSchema (ownEntries o) [])
        as [[response|terms]|e] eqn:Hloop.
      * destruct (orderLoop_refusal config tableName tableSchema _ _ _ Hloop)
          as [Hstatus Hsuccess].
        exists response. split; [reflexivity|].
        split; [exact Hsuccess | left; exact Hstatus].
      * destruct (Hrejects terms eq_refl).
      * destruct (orderLoop_throws config tableName tableSchema _ _ _ Hloop)
          as (k & d & Hd & Hthrows).
        eexists. split; [reflexivity|]. split; [reflexivity|].
        right. exists e. split; [reflexivity|]. right. exists d.
        split; [|exact Hthrows]. apply in_map_iff. exists (k, d). split; [reflexivity | exact Hd].
    + eexists. split; [reflexivity|]. split; [reflexivity|].
      right. exists e. split; [reflexivity | left; reflexivity].
Qed.

Lemma bad_order_entries_are_refused_witness :
  let request :=
    Sample.get "/posts"
      [("orderBy", "{" ++ JsonText.q "title" ++ ":" ++ JsonText.q "asc" ++ ","
                       ++ JsonText.q "createdAt" ++ ":" ++ JsonText.q "DESC" ++ "}")] in
  let inherits :=
    Sample.get "/posts"
      [("orderBy", "{" ++ JsonText.q "constructor" ++ ":" ++ JsonText.q "asc" ++ "}")] in
  let untexted :=
    Sample.get "/posts"
      [("orderBy", "{" ++ JsonText.q "title" ++ ":{" ++ JsonText.q "toString" ++ ":1}}")] in
  (exists response,
      run Sample.config request (listRecords JsonText.parse Sample.config request)
      = (answers response, [])
      /\ success (json response) = false
      /\ status response = 400)
  /\ snd (run Sample.config inherits (listRecords JsonText.parse Sample.config inherits))
     = [select_from None Sample.posts None [asc (Some (prototype "constructor"))]
          None None]
  /\ run Sample.config untexted (listRecords JsonText.parse Sample.config untexted)
     = (answers (internalError (NotPrimitive (JObject [("toString", JNumber 1)]))), []).
Proof.
  intros request inherits untexted.
  assert (Hin : In ("createdAt", JString "DESC")
                  (ownEntries (JObject [("title", JString "asc");
                                        ("createdAt", JString "DESC")]))).
  { right. left. reflexivity. }
  assert (Hbad : ("createdAt" <> "*" /\ lookup "createdAt" Sample.posts = None
                  /\ inherited_by_table "createdAt" = false)
                 \/ (is_text "asc" (JString "DESC") = false
                     /\ is_text "desc" (JString "DESC") = false)).
  { right. split; reflexivity. }
  split; [|split; reflexivity].
  destruct (bad_order_entries_are_refused JsonText.parse Sample.config request
              "posts" Sample.posts _ "createdAt" (JString "DESC")
              eq_refl eq_refl eq_refl eq_refl eq_refl Hin Hbad)
    as (response & Hrun & Hsuccess & [Hstatus | (e & Hresponse & _)]).
  - exists response. split; [exact Hrun|]. split; assumption.
  - exists response. split; [exact Hrun|]. split; [exact Hsuccess|].
    rewrite Hresponse in Hrun. discriminate Hrun.
Defined.

(** ** Creating records *)



(** ** The strategy of the posts table *)







(** ** The generated document *)

Import OpenAPIExamples OpenAPIPaths.

Lemma fieldsLoop_properties (tableName : string) (entries : list (string * Column)) :
  forall properties required key property,
    lookup key (fst (fieldsLoop tableName entries properties required)) = Some property ->
    lookup key properties = Some property
    \/ exists fieldDef, In (key, fieldDef) entries /\ key <> "enableRLS"
                        /\ property = propertyOf tableName key fieldDef.
Proof.
  induction entries as [|[fieldName fieldDef] entries IH];
    intros properties required key property H.
  - left. exact H.
  - cbn [fieldsLoop] in H. destruct (fieldName =? "enableRLS") eqn:E.
    + destruct (IH _ _ _ _ H) as [H' | (d & Hin & Hne & Hp)]; [left; exact H'|].
      right. exists d. split; [right; exact Hin | split; assumption].
    + destruct (IH _ _ _ _ H) as [H' | (d & Hin & Hne & Hp)].
      * destruct (String.eqb_spec fieldName key) as [-> | Hne].
        -- rewrite lookup_assign_same in H'. injection H' as <-.
           right. exists fieldDef. split; [left; reflexivity|].
           split; [|reflexivity]. intros ->. discriminate.
        -- rewrite lookup_assign_other in H' by exact Hne. left. exact H'.
      * right. exists d. split; [right; exact Hin | split; assumption].
Qed.

Lemma fieldsLoop_declares (tableName : string) (entries : list (string * Column)) :
  forall properties required key,
    (lookup key properties <> None
     \/ key <> "enableRLS" /\ In key (map fst entries)) ->
    lookup key (fst (fieldsLoop tableName entries properties required)) <> None.
Proof.
  induction entries as [|[fieldName fieldDef] entries IH];
    intros properties required key H.
  - destruct H as [H | [_ []]]. exact H.
  - cbn [fieldsLoop]. destruct (fieldName =? "enableRLS") eqn:E.
    + apply IH. destruct H as [H | [Hne [Heq | Hin]]]; [left; exact H | | right; auto].
      cbn [fst] in Heq. subst key. apply String.eqb_eq in E. contradiction.
    + apply IH. destruct (String.eqb_spec fieldName key) as [-> | Hne].
      * left. rewrite lookup_assign_same. discriminate.
      * destruct H as [H | [Hne' [Heq | Hin]]].
        -- left. rewrite lookup_assign_other by exact Hne. exact H.
        -- cbn [fst] in Heq. contradiction.
        -- right. auto.
Qed.

Lemma propertyOf_type (tableName fieldName : string) (fieldDef : Column) :
  let property := propertyOf tableName fieldName fieldDef in
  (type property = "number" \/ type property = "boolean" \/ type property = "string")
  /\ (format property = None
      \/ format property = Some "date-time" /\ type property = "string").
Proof.
  unfold propertyOf.
  destruct (includes "int" (dataTypeOf fieldDef) || (dataTypeOf fieldDef =? "number"));
    [cbn; auto|].
  destruct (dataTypeOf fieldDef =? "boolean"); [cbn; auto|].
  destruct ((dataTypeOf fieldDef =? "date") || (dataTypeOf fieldDef =? "timestamp"));
    cbn; auto.
Qed.

(** X17. In the schema generated for a table, the properties are the
    fields of the table other than [enableRLS], each described from a
    definition of that field; a property has the type number, boolean or
    string, and a format, date-time, only with the type string; every name
    in [required] is a property; and the input schema has the same
    properties and the same [required] list as the schema of the table. *)
Theorem schema_properties_follow_the_fields (tableName : string) (tableSchema : Table) :
  let generated := outputSchema tableName tableSchema in
  (forall key,
      lookup key (properties generated) <> None
      <-> key <> "enableRLS" /\ In key (map fst tableSchema))
  /\ (forall key property,
         lookup key (properties generated) = Some property ->
         exists fieldDef,
           In (key, fieldDef) tableSchema
           /\ property = propertyOf tableName key fieldDef
           /\ (type property = "number" \/ type property = "boolean"
               \/ type property = "string")
           /\ (format property = None
               \/ format property = Some "date-time" /\ type property = "string"))
  /\ (forall key, In key (required generated) ->
                  lookup key (properties generated) <> None)
  /\ properties (inputSchema tableName tableSchema) = properties generated
  /\ required (inputSchema tableName tableSchema) = required generated.
Proof.
  cbv zeta.
  assert (Hdefined : forall key property,
             lookup key (properties (outputSchema tableName tableSchema)) = Some property ->
             exists fieldDef,
               In (key, fieldDef) tableSchema /\ key <> "enableRLS"
               /\ property = propertyOf tableName key fieldDef).
  { intros key property H. unfold outputSchema in H.
    pose proof (fieldsLoop_properties tableName tableSchema [] [] key property) as Hloop.
    destruct (fieldsLoop tableName tableSchema [] []) as [ps rs]. cbn in H, Hloop.
    destruct (Hloop H) as [Hnone | Hsome]; [discriminate | exact Hsome]. }
  assert (Hdeclared : forall key,
             key <> "enableRLS" -> In key (map fst tableSchema) ->
             lookup key (properties (outputSchema tableName tableSchema)) <> None).
  { intros key Hne Hin. unfold outputSchema.
    pose proof (fieldsLoop_declares tableName tableSchema [] [] key
                  (or_intror (conj Hne Hin))) as Hloop.
    destruct (fieldsLoop tableName tableSchema [] []) as [ps rs]. exact Hloop. }
  split; [|split; [|split; [|split]]].
  - intros key. split.
    + intros H.
      destruct (lookup key (properties (outputSchema tableName tableSchema)))
        as [property|] eqn:E; [|contradiction].
      destruct (Hdefined key property E) as (d & Hin & Hne & _).
      split; [exact Hne|]. apply (in_map fst _ _ Hin).
    + intros [Hne Hin]. apply Hdeclared; assumption.
  - intros key property H. destruct (Hdefined key property H) as (d & Hin & Hne & Hp).
    exists d. split; [exact Hin|]. split; [exact Hp|]. subst property.
    apply propertyOf_type.
  - intros key Hin. rewrite outputSchema_required in Hin. unfold notNullFields in Hin.
    apply in_map_iff in Hin. destruct Hin as ([k d] & Hk & Hin). cbn [fst] in Hk. subst k.
    apply filter_In in Hin. destruct Hin as [Hin Htest]. cbn [fst snd] in Htest.
    apply andb_true_iff in Htest. destruct Htest as [Hne _].
    apply Hdeclared.
    + intros ->. discriminate.
    + apply (in_map fst _ _ Hin).
  - unfold inputSchema, outputSchema.
    destruct (fieldsLoop tableName tableSchema [] []). reflexivity.
  - unfold inputSchema, outputSchema.
    destruct (fieldsLoop tableName tableSchema [] []). reflexivity.
Qed.

(* ---- X18 ---- *)

Lemma componentSchemas_untouched (key : string) (schema : list (string * Table))
  (excludedTables : list string) :
  forall literal,
    (forall other, In other (map fst schema) ->
                   existsb (String.eqb other) excludedTables = false ->
                   other <> key /\ other ++ "Input" <> key) ->
    lookup key (componentSchemas schema excludedTables literal) = lookup key literal.
Proof.
  induction schema as [|[tableName tableSchema] schema IH]; intros literal H.
  - reflexivity.
  - rewrite componentSchemas_cons, IH.
    + destruct (existsb (String.eqb tableName) excludedTables) eqn:E; [reflexivity|].
      destruct (H tableName (or_introl eq_refl) E) as [H1 H2].
      rewrite !lookup_assign_other by assumption. reflexivity.
    + intros other Hin. apply H. right. exact Hin.
Qed.

Lemma append_inj_l (s1 s2 t : string) : s1 ++ t = s2 ++ t -> s1 = s2.
Proof.
  revert s2. induction s1 as [|c s1 IH]; intros [|c' s2] H; cbn [append] in H.
  - reflexivity.
  - apply (f_equal String.length) in H. cbn [String.length] in H.
    rewrite length_append in H. lia.
  - apply (f_equal String.length) in H. cbn [String.length] in H.
    rewrite length_append in H. lia.
  - injection H as -> H. f_equal. apply IH. exact H.
Qed.

(** X18. A table named in [excludedTables] gets no component: unless a
    table that is kept is called like its input schema, or has an input
    schema called like the table, the components under the table's name and
    under its input schema's name are what the literal held before the
    loop. *)
Theorem excluded_tables_get_no_component (schema : list (string * Table))
  (excludedTables : list string) (literal : list (string * SchemaObject))
  (tableName : string) :
  existsb (String.eqb tableName) excludedTables = true ->
  (forall other, In other (map fst schema) ->
                 existsb (String.eqb other) excludedTables = false ->
                 other <> tableName ++ "Input" /\ other ++ "Input" <> tableName) ->
  lookup tableName (componentSchemas schema excludedTables literal)
  = lookup tableName literal
  /\ lookup (tableName ++ "Input") (componentSchemas schema excludedTables literal)
     = lookup (tableName ++ "Input") literal.
Proof.
  intros Hexcluded Hnames.
  assert (Hother : forall other, existsb (String.eqb other) excludedTables = false ->
                                 other <> tableName).
  { intros other H ->. rewrite Hexcluded in H. discriminate. }
  split; apply componentSchemas_untouched; intros other Hin Hkept;
    destruct (Hnames other Hin Hkept) as [H1 H2].
  - split; [apply Hother; exact Hkept | exact H2].
  - split; [exact H1|]. intros H. apply append_inj_l in H. exact (Hother other Hkept H).
Qed.

Lemma excluded_tables_get_no_component_witness :
  let schema := [("users", Sample.posts); ("posts", Sample.posts)] in
  lookup "users" (componentSchemas schema ["users"] []) = None
  /\ lookup "usersInput" (componentSchemas schema ["users"] []) = None.
Proof.
  intros schema.
  assert (Hnames : forall other, In other (map fst schema) ->
                                 existsb (String.eqb other) ["users"] = false ->
                                 other <> "users" ++ "Input" /\ other ++ "Input" <> "users").
  { intros other [<- | [<- | []]] _; split; discriminate. }
  exact (excluded_tables_get_no_component schema ["users"] [] "users" eq_refl Hnames).
Defined.

Lemma componentSchemas_app (before after : list (string * Table))
  (excludedTables : list string) (literal : list (string * SchemaObject)) :
  componentSchemas (before ++ after) excludedTables literal
  = componentSchemas after excludedTables (componentSchemas before excludedTables literal).
Proof. unfold componentSchemas. apply fold_left_app. Qed.

(** X19. The components are assigned in the order of the tables, the input
    schema of a table under the table's name followed by [Input]; the last
    table to assign a name decides the component.  So a table called
    [postsInput] that follows [posts] replaces the input schema of [posts]
    by its own schema, and when it precedes [posts] its own schema is
    replaced by the input schema of [posts]. *)
Theorem the_last_table_to_write_a_component_wins
  (before after : list (string * Table)) (tableName : string) (tableSchema : Table)
  (excludedTables : list string) (literal : list (string * SchemaObject)) (key : string) :
  existsb (String.eqb tableName) excludedTables = false ->
  (forall other, In other (map fst after) ->
                 existsb (String.eqb other) excludedTables = false ->
                 other <> key /\ other ++ "Input" <> key) ->
  let generated :=
    componentSchemas (before ++ (tableName, tableSchema) :: after) excludedTables literal in
  (key = tableName ++ "Input" ->
   lookup key generated = Some (inputSchema tableName tableSchema))
  /\ (key = tableName ->
      lookup key generated = Some (outputSchema tableName tableSchema)).
Proof.
  intros Hkept Hafter generated. unfold generated.
  rewrite componentSchemas_app, componentSchemas_cons, Hkept.
  rewrite (componentSchemas_untouched key after excludedTables _ Hafter).
  split; intros ->.
  - apply lookup_assign_same.
  - rewrite lookup_assign_other by apply append_Input_differs.
    apply lookup_assign_same.
Qed.

Lemma the_last_table_to_write_a_component_wins_witness :
  let drafts : Table := [("id", Sample.idColumn)] in
  lookup "postsInput"
    (componentSchemas [("posts", Sample.posts); ("postsInput", drafts)] [] [])
  = Some (outputSchema "postsInput" drafts)
  /\ lookup "postsInput"
       (componentSchemas [("postsInput", drafts); ("posts", Sample.posts)] [] [])
     = Some (inputSchema "posts" Sample.posts).
Proof.
  intros drafts. split.
  - assert (Hafter : forall other, In other (map fst (@nil (string * Table))) ->
                                   existsb (String.eqb other) [] = false ->
                                   other <> "postsInput" /\ other ++ "Input" <> "postsInput").
    { intros other []. }
    exact (proj2 (the_last_table_to_write_a_component_wins
                    [("posts", Sample.posts)] [] "postsInput" drafts [] [] "postsInput"
                    eq_refl Hafter) eq_refl).
  - assert (Hafter : forall other, In other (map fst (@nil (string * Table))) ->
                                   existsb (String.eqb other) [] = false ->
                                   other <> "postsInput" /\ other ++ "Input" <> "postsInput").
    { intros other []. }
    exact (proj1 (the_last_table_to_write_a_component_wins
                    [("postsInput", drafts)] [] "posts" Sample.posts [] [] "postsInput"
                    eq_refl Hafter) eq_refl).
Defined.

(** ** The example payloads *)

Section Assigned.
Context {A B : Type} (keep : string -> A -> bool) (value : string -> A -> B).

Lemma assigned_defined (entries : list (string * A)) :
  forall start key v,
    lookup key (assigned keep value entries start) = Some v ->
    lookup key start = Some v
    \/ exists a, In (key, a) entries /\ keep key a = true /\ v = value key a.
Proof.
  induction entries as [|[k a] entries IH]; intros start key v H.
  - left. exact H.
  - unfold assigned in H. cbn [fold_left fst snd] in H. fold (assigned keep value) in H.
    destruct (IH _ _ _ H) as [H' | (a' & Hin & Hkeep & Hv)].
    + destruct (keep k a) eqn:E; [|left; exact H'].
      destruct (String.eqb_spec k key) as [-> | Hne].
      * rewrite lookup_assign_same in H'. injection H' as <-.
        right. exists a. split; [left; reflexivity | split; [exact E | reflexivity]].
      * rewrite lookup_assign_other in H' by exact Hne. left. exact H'.
    + right. exists a'. split; [right; exact Hin | split; assumption].
Qed.

Lemma assigned_declares (entries : list (string * A)) :
  forall start key,
    (lookup key start <> None
     \/ exists a, In (key, a) entries /\ keep key a = true) ->
    lookup key (assigned keep value entries start) <> None.
Proof.
  induction entries as [|[k a] entries IH]; intros start key H.
  - destruct H as [H | (a & [] & _)]. exact H.
  - unfold assigned. cbn [fold_left fst snd]. fold (assigned keep value).
    apply IH. destruct H as [H | (a' & [Heq | Hin] & Hkeep)].
    + left. destruct (keep k a); [|exact H].
      destruct (String.eqb_spec k key) as [-> | Hne].
      * rewrite lookup_assign_same. discriminate.
      * rewrite lookup_assign_other by exact Hne. exact H.
    + injection Heq as -> ->. rewrite Hkeep. left.
      rewrite lookup_assign_same. discriminate.
    + right. exists a'. split; assumption.
Qed.

Lemma assigned_keys (entries : list (string * A)) (key : string) :
  lookup key (assigned keep value entries []) <> None
  <-> exists a, In (key, a) entries /\ keep key a = true.
Proof.
  split.
  - intros H. destruct (lookup key (assigned keep value entries [])) as [v|] eqn:E;
      [|contradiction].
    destruct (assigned_defined entries [] key v E) as [Hnone | (a & Hin & Hkeep & _)];
      [discriminate|].
    exists a. split; assumption.
  - intros H. apply assigned_declares. right. exact H.
Qed.

Lemma assigned_absent (entries : list (string * A)) (key : string) :
  (forall a, In (key, a) entries -> keep key a = false) ->
  lookup key (assigned keep value entries []) = None.
Proof.
  intros H. destruct (lookup key (assigned keep value entries [])) as [v|] eqn:E;
    [|reflexivity].
  destruct (assigned_defined entries [] key v E) as [Hnone | (a & Hin & Hkeep & _)];
    [discriminate|].
  rewrite (H a Hin) in Hkeep. discriminate.
Qed.
End Assigned.

Lemma assigned_cons {A B : Type} (keep : string -> A -> bool) (value : string -> A -> B)
  (key : string) (a : A) (entries : list (string * A)) (start : list (string * B)) :
  assigned keep value ((key, a) :: entries) start
  = assigned keep value entries
      (if keep key a then assign key (value key a) start else start).
Proof. reflexivity. Qed.

Lemma unique_definition {A : Type} (entries : list (string * A)) (key : string) (a b : A) :
  NoDup (map fst entries) -> In (key, a) entries -> In (key, b) entries -> a = b.
Proof.
  induction entries as [|[k c] entries IH]; intros Hnodup Ha Hb; [destruct Ha|].
  cbn [map fst] in Hnodup. inversion Hnodup as [|? ? Hfresh Hnodup']; subst.
  destruct Ha as [Ha | Ha], Hb as [Hb | Hb].
  - congruence.
  - injection Ha as -> ->. exfalso. apply Hfresh. apply (in_map fst _ _ Hb).
  - injection Hb as -> ->. exfalso. apply Hfresh. apply (in_map fst _ _ Ha).
  - apply IH; assumption.
Qed.

Lemma buildExamplePayload_assigned (defaultNow defaultRandom : Column -> bool)
  (tableSchema : Table) :
  forall example,
    buildExamplePayload defaultNow defaultRandom tableSchema example
    = assigned
        (fun fieldName fieldDef =>
           negb (fieldName =? "enableRLS")
           && negb (isAuto defaultNow defaultRandom fieldName fieldDef))
        createValue tableSchema example.
Proof.
  induction tableSchema as [|[fieldName fieldDef] tableSchema IH]; intros example.
  - reflexivity.
  - cbn [buildExamplePayload]. rewrite assigned_cons.
    destruct (fieldName =? "enableRLS"); cbn [negb andb]; [apply IH|].
    destruct (isAuto defaultNow defaultRandom fieldName fieldDef); cbn [negb]; apply IH.
Qed.

Lemma updateExample_assigned (tableSchema : Table) :
  forall example,
    updateExample tableSchema example
    = assigned (fun fieldName _ => negb (named_in generatedNames fieldName))
        updateValue tableSchema example.
Proof.
  induction tableSchema as [|[fieldName fieldDef] tableSchema IH]; intros example.
  - reflexivity.
  - cbn [updateExample]. rewrite assigned_cons.
    change (named_in generatedNames fieldName)
      with (existsb (String.eqb fieldName) ["id"; "createdAt"; "updatedAt"; "enableRLS"]).
    destruct (existsb (String.eqb fieldName) ["id"; "createdAt"; "updatedAt"; "enableRLS"]);
      cbn [negb]; apply IH.
Qed.

Lemma isAuto_generated (defaultNow defaultRandom : Column -> bool)
  (fieldName : string) (fieldDef : Column) :
  named_in generatedNames fieldName = true ->
  negb (fieldName =? "enableRLS")
  && negb (isAuto defaultNow defaultRandom fieldName fieldDef) = false.
Proof.
  unfold named_in, generatedNames, isAuto. cbn [existsb].
  destruct (fieldName =? "enableRLS"); [reflexivity|].
  destruct (fieldName =? "id"); [reflexivity|].
  destruct (fieldName =? "createdAt"); [reflexivity|].
  destruct (fieldName =? "updatedAt"); [reflexivity|].
  discriminate.
Qed.

(** X20. The example of the request body of POST has a value for the
    fields that are not [enableRLS] and that [isAuto] does not hold of, and
    for no other key: none for [id], [createdAt], [updatedAt] and
    [enableRLS], none for a field with a default.  When the [id] column is
    not null, the input schema the example is given for lists [id] as
    required, and the example has no [id]. *)
Theorem create_example_leaves_out_generated_fields
  (defaultNow defaultRandom : Column -> bool) (tableSchema : Table) :
  let example := buildExamplePayload defaultNow defaultRandom tableSchema [] in
  (forall key,
      lookup key example <> None
      <-> exists fieldDef,
            In (key, fieldDef) tableSchema /\ key <> "enableRLS"
            /\ isAuto defaultNow defaultRandom key fieldDef = false)
  /\ (forall key, named_in generatedNames key = true -> lookup key example = None)
  /\ (forall key, (forall fieldDef, In (key, fieldDef) tableSchema ->
                                    hasDefault fieldDef = true) ->
                  lookup key example = None)
  /\ (forall tableName fieldDef,
         In ("id", fieldDef) tableSchema -> detectsNotNull fieldDef = true ->
         In "id" (required (inputSchema tableName tableSchema))
         /\ lookup "id" example = None).
Proof.
  cbv zeta. rewrite buildExamplePayload_assigned.
  assert (Hgenerated : forall key, named_in generatedNames key = true ->
            lookup key
              (assigned
                 (fun fieldName fieldDef =>
                    negb (fieldName =? "enableRLS")
                    && negb (isAuto defaultNow defaultRandom fieldName fieldDef))
                 createValue tableSchema []) = None).
  { intros key Hkey. apply assigned_absent. intros a _.
    apply isAuto_generated. exact Hkey. }
  split; [|split; [|split]].
  - intros key. rewrite assigned_keys. split.
    + intros (fieldDef & Hin & Hkeep). exists fieldDef. split; [exact Hin|].
      apply andb_true_iff in Hkeep. destruct Hkeep as [Hne Hauto].
      split.
      * intros ->. discriminate.
      * apply negb_true_iff. exact Hauto.
    + intros (fieldDef & Hin & Hne & Hauto). exists fieldDef. split; [exact Hin|].
      rewrite Hauto. destruct (String.eqb_spec key "enableRLS"); [contradiction|reflexivity].
  - exact Hgenerated.
  - intros key Hdefault. apply assigned_absent. intros a Hin.
    unfold isAuto. rewrite (Hdefault a Hin). rewrite !orb_true_r. apply andb_false_r.
  - intros tableName fieldDef Hin Hnotnull. split; [|apply Hgenerated; reflexivity].
    assert (Hrequired : required (inputSchema tableName tableSchema)
                        = notNullFields tableSchema).
    { rewrite <- (outputSchema_required tableName tableSchema).
      unfold inputSchema, outputSchema.
      destruct (fieldsLoop tableName tableSchema [] []). reflexivity. }
    rewrite Hrequired. unfold notNullFields.
    apply (in_map fst _ ("id", fieldDef)). apply filter_In. split; [exact Hin|].
    cbn [fst snd]. rewrite Hnotnull. reflexivity.
Qed.

Lemma create_example_leaves_out_generated_fields_witness :
  let never (_ : Column) := false in
  let example := buildExamplePayload never never Sample.posts [] in
  lookup "title" example <> None
  /\ lookup "updatedAt" example = None
  /\ In "id" (required (inputSchema "posts" Sample.posts))
  /\ lookup "id" example = None.
Proof.
  intros never example.
  destruct (create_example_leaves_out_generated_fields never never Sample.posts)
    as (Hkeys & Hgenerated & _ & Hid).
  assert (Hin : In ("id", Sample.idColumn) Sample.posts) by (left; reflexivity).
  assert (Htitle : exists fieldDef,
             In ("title", fieldDef) Sample.posts /\ "title" <> "enableRLS"
             /\ isAuto never never "title" fieldDef = false).
  { exists Sample.titleColumn. split; [simpl; auto|]. split; [discriminate | reflexivity]. }
  split; [exact (proj2 (Hkeys "title") Htitle)|].
  split; [exact (Hgenerated "updatedAt" eq_refl)|].
  exact (Hid "posts" Sample.idColumn Hin eq_refl).
Defined.

Lemma exampleValue_type (number : Z) (boolean : bool)
  (date email name title content tableName fieldName : string) (fieldDef : Column) :
  typeof (exampleValue number boolean date email name title content fieldName fieldDef)
  = type (propertyOf tableName fieldName fieldDef).
Proof.
  unfold exampleValue, propertyOf.
  destruct (includes "int" (dataTypeOf fieldDef) || (dataTypeOf fieldDef =? "number"));
    [reflexivity|].
  destruct (dataTypeOf fieldDef =? "boolean"); [reflexivity|].
  destruct ((dataTypeOf fieldDef =? "date") || (dataTypeOf fieldDef =? "timestamp"));
    [reflexivity|].
  destruct (includes "email" (toLowerCase fieldName)); [reflexivity|].
  destruct (includes "name" (toLowerCase fieldName)); [reflexivity|].
  destruct (includes "title" (toLowerCase fieldName)); [reflexivity|].
  destruct (includes "content" (toLowerCase fieldName)); reflexivity.
Qed.

Lemma declared_property (tableName : string) (tableSchema : Table)
  (key : string) (fieldDef : Column) :
  NoDup (map fst tableSchema) -> In (key, fieldDef) tableSchema -> key <> "enableRLS" ->
  lookup key (properties (inputSchema tableName tableSchema))
  = Some (propertyOf tableName key fieldDef).
Proof.
  intros Hnodup Hin Hne. unfold inputSchema.
  pose proof (fieldsLoop_declares tableName tableSchema [] [] key
                (or_intror (conj Hne (in_map fst _ _ Hin)))) as Hdeclared.
  pose proof (fieldsLoop_properties tableName tableSchema [] [] key) as Hdefined.
  destruct (fieldsLoop tableName tableSchema [] []) as [ps rs]. cbn [fst properties] in *.
  destruct (lookup key ps) as [property|] eqn:E; [|contradiction].
  destruct (Hdefined property eq_refl) as [Hnone | (d & Hd & _ & ->)]; [discriminate|].
  rewrite (unique_definition tableSchema key fieldDef d Hnodup Hin Hd). reflexivity.
Qed.

(** X21. In a table of distinct field names, every value of the example
    bodies of POST and of PUT and PATCH is of the type that the input
    schema declares for its key: a number, a boolean or a string. *)
Theorem example_values_have_the_declared_type
  (defaultNow defaultRandom : Column -> bool) (tableName : string) (tableSchema : Table) :
  NoDup (map fst tableSchema) ->
  forall key value,
    lookup key (buildExamplePayload defaultNow defaultRandom tableSchema []) = Some value
    \/ lookup key (updateExample tableSchema []) = Some value ->
    exists property,
      lookup key (properties (inputSchema tableName tableSchema)) = Some property
      /\ typeof value = type property.
Proof.
  intros Hnodup key value H.
  rewrite buildExamplePayload_assigned, updateExample_assigned in H.
  destruct H as [H | H];
    (apply assigned_defined in H;
     destruct H as [Hnone | (fieldDef & Hin & Hkeep & ->)]; [discriminate|];
     exists (propertyOf tableName key fieldDef); split;
     [apply declared_property; [exact Hnodup | exact Hin |]
     | apply exampleValue_type]).
  - intros ->. discriminate.
  - intros ->. discriminate.
Qed.

Lemma example_values_have_the_declared_type_witness :
  let never (_ : Column) := false in
  exists property,
    lookup "title" (properties (inputSchema "posts" Sample.posts)) = Some property
    /\ typeof (JString "Updated Post Title") = type property.
Proof.
  intros never.
  assert (Hnodup : NoDup (map fst Sample.posts)).
  { repeat constructor; simpl; intuition discriminate. }
  exact (example_values_have_the_declared_type never never "posts" Sample.posts Hnodup
           "title" (JString "Updated Post Title") (or_intror eq_refl)).
Defined.

(** X22. The example of the request body of PUT and PATCH has a value for
    every field but [id], [createdAt], [updatedAt] and [enableRLS]; it has
    every key of the example of POST, and, unlike that one, it keeps the
    fields that have a default. *)
Theorem update_example_keeps_defaulted_fields
  (defaultNow defaultRandom : Column -> bool) (tableSchema : Table) :
  let created := buildExamplePayload defaultNow defaultRandom tableSchema [] in
  let updated := updateExample tableSchema [] in
  (forall key,
      lookup key updated <> None
      <-> In key (map fst tableSchema) /\ named_in generatedNames key = false)
  /\ (forall key, lookup key created <> None -> lookup key updated <> None)
  /\ (forall key fieldDef,
         NoDup (map fst tableSchema) ->
         In (key, fieldDef) tableSchema -> hasDefault fieldDef = true ->
         named_in generatedNames key = false ->
         lookup key updated = Some (updateValue key fieldDef)
         /\ lookup key created = None).
Proof.
  cbv zeta. rewrite buildExamplePayload_assigned.
  assert (Hkeys : forall key,
             lookup key (updateExample tableSchema []) <> None
             <-> In key (map fst tableSchema) /\ named_in generatedNames key = false).
  { intros key. rewrite updateExample_assigned, assigned_keys. split.
    - intros (fieldDef & Hin & Hkeep). split; [apply (in_map fst _ _ Hin)|].
      apply negb_true_iff. exact Hkeep.
    - intros [Hin Hkeep]. apply in_map_iff in Hin. destruct Hin as ([k d] & Hk & Hin).
      cbn [fst] in Hk. subst k. exists d. split; [exact Hin|]. rewrite Hkeep. reflexivity. }
  split; [exact Hkeys|split].
  - intros key H. apply Hkeys. apply assigned_keys in H.
    destruct H as (fieldDef & Hin & Hkeep). split; [apply (in_map fst _ _ Hin)|].
    destruct (named_in generatedNames key) eqn:E; [|reflexivity].
    rewrite (isAuto_generated defaultNow defaultRandom key fieldDef E) in Hkeep.
    discriminate.
  - intros key fieldDef Hnodup Hin Hdefault Hname. split.
    + destruct (lookup key (updateExample tableSchema [])) as [value|] eqn:E.
      * rewrite updateExample_assigned in E. apply assigned_defined in E.
        destruct E as [Hnone | (d & Hd & _ & ->)]; [discriminate|].
        rewrite (unique_definition tableSchema key fieldDef d Hnodup Hin Hd). reflexivity.
      * exfalso. apply (proj2 (Hkeys key)); [|exact E].
        split; [apply (in_map fst _ _ Hin) | exact Hname].
    + apply assigned_absent. intros d Hd.
      rewrite <- (unique_definition tableSchema key fieldDef d Hnodup Hin Hd).
      unfold isAuto. rewrite Hdefault, !orb_true_r. apply andb_false_r.
Qed.

Lemma update_example_keeps_defaulted_fields_witness :
  let never (_ : Column) := false in
  let status := Sample.column "status" "string" "PgVarchar" true in
  let tasks : Table := [("id", Sample.idColumn); ("status", status)] in
  lookup "status" (updateExample tasks []) = Some (updateValue "status" status)
  /\ lookup "status" (buildExamplePayload never never tasks []) = None.
Proof.
  intros never status tasks.
  assert (Hnodup : NoDup (map fst tasks)).
  { repeat constructor; simpl; intuition discriminate. }
  assert (Hin : In ("status", status) tasks) by (right; left; reflexivity).
  exact (proj2 (proj2 (update_example_keeps_defaulted_fields never never tasks))
           "status" status Hnodup Hin eq_refl eq_refl).
Defined.

(** ** Custom routes *)

Lemma lookup_store_same {A : Type} (key : string) (value : A)
  (props : list (string * A)) :
  key <> "__proto__" -> lookup key (store key value props) = Some value.
Proof.
  intros Hne. unfold store.
  destruct (String.eqb_spec key "__proto__") as [H | _]; [contradiction|].
  apply lookup_assign_same.
Qed.

Lemma lookup_store_other {A : Type} (key key' : string) (value : A)
  (props : list (string * A)) :
  key <> key' -> lookup key' (store key value props) = lookup key' props.
Proof.
  intros Hne. unfold store. destruct (key =? "__proto__"); [reflexivity|].
  apply lookup_assign_other. exact Hne.
Qed.

Lemma lookup_store_proto {A : Type} (key key' : string) (value : A)
  (props : list (string * A)) :
  key' = "__proto__" -> lookup key' (store key value props) = lookup key' props.
Proof.
  intros ->. unfold store.
  destruct (String.eqb_spec key "__proto__") as [_ | Hne]; [reflexivity|].
  apply lookup_assign_other. exact Hne.
Qed.

Lemma methodsLoop_written (schema : list (string * Table)) (routePath : string)
  (methods : list (string * bool)) :
  forall pathItem key operation,
    lookup key (methodsLoop schema routePath methods pathItem) = Some operation ->
    lookup key pathItem = Some operation
    \/ exists method,
         In (method, true) methods /\ toLowerCase method = key
         /\ operation = JObject (customOperation schema routePath method).
Proof.
  induction methods as [|[method enabled] methods IH]; intros pathItem key operation H.
  - left. exact H.
  - cbn [methodsLoop] in H. destruct enabled.
    + destruct (IH _ _ _ H) as [H' | (m & Hin & Hm & Hop)].
      * destruct (String.eqb_spec (toLowerCase method) key) as [Heq | Hne].
        -- destruct (String.eqb_spec key "__proto__") as [Hproto | Hproto].
           ++ rewrite lookup_store_proto in H' by exact Hproto. left. exact H'.
           ++ rewrite <- Heq in H', Hproto.
              rewrite (lookup_store_same _ _ _ Hproto) in H'. injection H' as <-.
              right. exists method.
              split; [left; reflexivity | split; [exact Heq | reflexivity]].
        -- rewrite lookup_store_other in H' by exact Hne. left. exact H'.
      * right. exists m. split; [right; exact Hin | split; assumption].
    + destruct (IH _ _ _ H) as [H' | (m & Hin & Hm & Hop)]; [left; exact H'|].
      right. exists m. split; [right; exact Hin | split; assumption].
Qed.

Lemma methodsLoop_kept (schema : list (string * Table)) (routePath : string)
  (methods : list (string * bool)) :
  forall pathItem key,
    (forall method, In (method, true) methods -> toLowerCase method <> key) ->
    lookup key (methodsLoop schema routePath methods pathItem) = lookup key pathItem.
Proof.
  induction methods as [|[method enabled] methods IH]; intros pathItem key H.
  - reflexivity.
  - cbn [methodsLoop]. destruct enabled.
    + rewrite IH by (intros m Hin; apply H; right; exact Hin).
      apply lookup_store_other. apply H. left. reflexivity.
    + apply IH. intros m Hin. apply H. right. exact Hin.
Qed.

Lemma methodsLoop_proto (schema : list (string * Table)) (routePath : string)
  (methods : list (string * bool)) :
  forall pathItem,
    lookup "__proto__" (methodsLoop schema routePath methods pathItem)
    = lookup "__proto__" pathItem.
Proof.
  induction methods as [|[method enabled] methods IH]; intros pathItem.
  - reflexivity.
  - cbn [methodsLoop]. destruct enabled; [|apply IH].
    rewrite IH. apply lookup_store_proto. reflexivity.
Qed.

Lemma methodsLoop_app (schema : list (string * Table)) (routePath : string)
  (before after : list (string * bool)) :
  forall pathItem,
    methodsLoop schema routePath (before ++ after) pathItem
    = methodsLoop schema routePath after (methodsLoop schema routePath before pathItem).
Proof.
  induction before as [|[method enabled] before IH]; intros pathItem; [reflexivity|].
  cbn [app methodsLoop]. destruct enabled; apply IH.
Qed.

(** The operation of the last enabled method of a name is the one the
    path has under that name. *)
Lemma methodsLoop_last (schema : list (string * Table)) (routePath : string)
  (before after : list (string * bool)) (method : string)
  (pathItem : list (string * JSON)) :
  (forall later, In (later, true) after -> toLowerCase later <> toLowerCase method) ->
  toLowerCase method <> "__proto__" ->
  lookup (toLowerCase method)
    (methodsLoop schema routePath (before ++ (method, true) :: after) pathItem)
  = Some (JObject (customOperation schema routePath method)).
Proof.
  intros Hlater Hproto. rewrite methodsLoop_app. cbn [methodsLoop].
  rewrite methodsLoop_kept by exact Hlater.
  apply lookup_store_same. exact Hproto.
Qed.

Lemma split_chars_nonempty (sep : ascii) (cs : list ascii) :
  forall cur, split_chars sep cur cs <> [].
Proof.
  induction cs as [|c cs IH]; intros cur; cbn [split_chars]; [discriminate|].
  destruct (Ascii.eqb c sep); [discriminate | apply IH].
Qed.

(** X23. The loop over the methods of a custom route writes, for every
    enabled method, the custom operation of that method under the
    method's name in lower case: where several enabled methods have one
    name, the operation of the last; under the name [__proto__], which an
    assignment does not make a property, nothing.  The operations under
    the other names are the ones the path had, and there is no other
    operation.  A custom operation has a request body exactly for post,
    put and patch, the [q] parameter exactly for get, a description that
    quotes the method and the route, and one tag: the first segment of
    the route when it is a table of the schema (excluded or not),
    [Custom] otherwise. *)
Theorem custom_operations_follow_the_method (schema : list (string * Table))
  (routePath : string) (methods : list (string * bool))
  (pathItem : list (string * JSON)) :
  let written := methodsLoop schema routePath methods pathItem in
  (forall before method after,
      methods = (before ++ (method, true) :: after)%list ->
      (forall later, In (later, true) after ->
                     toLowerCase later <> toLowerCase method) ->
      toLowerCase method <> "__proto__" ->
      lookup (toLowerCase method) written
      = Some (JObject (customOperation schema routePath method)))
  /\ lookup "__proto__" written = lookup "__proto__" pathItem
  /\ (forall key operation,
        lookup key written = Some operation ->
        lookup key pathItem = Some operation
        \/ exists method,
             In (method, true) methods /\ toLowerCase method = key
             /\ operation = JObject (customOperation schema routePath method))
  /\ (forall key,
         (forall method, In (method, true) methods -> toLowerCase method <> key) ->
         lookup key written = lookup key pathItem)
  /\ (forall method,
         let operation := customOperation schema routePath method in
         has_key "requestBody" operation
         = named_in ["post"; "put"; "patch"] (toLowerCase method)
         /\ has_key "parameters" operation = (toLowerCase method =? "get")
         /\ lookup "description" operation
            = Some (JString ("Custom " ++ method ++ " endpoint for " ++ routePath))
         /\ exists first rest,
              split "/" routePath = first :: rest
              /\ (inherited first = false ->
                  lookup "tags" operation
                  = Some (JArray [JString (if has_key first schema
                                           then first else "Custom")]))).
Proof.
  cbv zeta. split; [|split; [|split; [|split]]].
  - intros before method after -> Hlater Hproto.
    apply methodsLoop_last; assumption.
  - apply methodsLoop_proto.
  - apply methodsLoop_written.
  - apply methodsLoop_kept.
  - intros method. unfold customOperation, named_in.
    destruct (split "/" routePath) as [|first rest] eqn:Hsplit;
      [destruct (split_chars_nonempty _ _ _ Hsplit)|].
    cbn [nth_error].
    set (summary := JString _). set (description := JString _).
    destruct (existsb (String.eqb (toLowerCase method)) ["post"; "put"; "patch"]) eqn:Ebody;
      destruct (toLowerCase method =? "get") eqn:Eget;
      (split; [reflexivity
              | split; [reflexivity
                       | split; [reflexivity
                                | exists first, rest; split; [reflexivity|];
                                  intros _; reflexivity]]]).
Qed.

Lemma custom_operations_follow_the_method_witness :
  let written :=
    methodsLoop Sample.config.(schema) "posts/popular"
      [("GET", true); ("POST", false); ("get", true)] [("put", JNull)] in
  lookup "get" written
  = Some (JObject (customOperation Sample.config.(schema) "posts/popular" "get"))
  /\ lookup "tags" (customOperation Sample.config.(schema) "posts/popular" "get")
     = Some (JArray [JString "posts"])
  /\ has_key "parameters" (customOperation Sample.config.(schema) "posts/popular" "get")
     = true
  /\ lookup "put" written = Some JNull
  /\ lookup "post" written = None.
Proof.
  intros written.
  destruct (custom_operations_follow_the_method Sample.config.(schema) "posts/popular"
              [("GET", true); ("POST", false); ("get", true)] [("put", JNull)])
    as (Hlast & _ & _ & Hkept & Hoperation).
  assert (Hlater : forall later, In (later, true) [] ->
                                 toLowerCase later <> toLowerCase "get")
    by (intros later []).
  assert (Hproto : toLowerCase "get" <> "__proto__") by discriminate.
  assert (Hput : forall method,
             In (method, true) [("GET", true); ("POST", false); ("get", true)] ->
             toLowerCase method <> "put").
  { intros method [H | [H | [H | []]]]; inversion H; discriminate. }
  assert (Hpost : forall method,
             In (method, true) [("GET", true); ("POST", false); ("get", true)] ->
             toLowerCase method <> "post").
  { intros method [H | [H | [H | []]]]; inversion H; discriminate. }
  destruct (Hoperation "get") as (_ & Hparameters & _ & first & rest & Hsplit & Htag).
  injection Hsplit as <- <-.
  split; [exact (Hlast [("GET", true); ("POST", false)] "get" [] eq_refl Hlater Hproto)|].
  split; [exact (Htag eq_refl)|]. split; [exact Hparameters|].
  split; [exact (Hkept "put" Hput) | exact (Hkept "post" Hpost)].
Defined.

Lemma customRoutesLoop_kept (schema : list (string * Table))
  (customRoutes : list (string * list (string * bool))) :
  forall paths key,
    (forall routePath, In routePath (map fst customRoutes) ->
                       apiPrefix ++ "/" ++ routePath <> key) ->
    lookup key (customRoutesLoop schema customRoutes paths) = lookup key paths.
Proof.
  induction customRoutes as [|[routePath methods] customRoutes IH]; intros paths key H.
  - reflexivity.
  - cbn [customRoutesLoop]. rewrite IH by (intros r Hin; apply H; right; exact Hin).
    apply lookup_assign_other. apply H. left. reflexivity.
Qed.

Lemma customRoutesLoop_declares (schema : list (string * Table))
  (customRoutes : list (string * list (string * bool))) :
  forall paths key,
    (lookup key paths <> None
     \/ exists routePath, In routePath (map fst customRoutes)
                          /\ key = apiPrefix ++ "/" ++ routePath) ->
    lookup key (customRoutesLoop schema customRoutes paths) <> None.
Proof.
  induction customRoutes as [|[routePath methods] customRoutes IH]; intros paths key H.
  - destruct H as [H | (r & [] & _)]. exact H.
  - cbn [customRoutesLoop]. apply IH.
    destruct (String.eqb_spec (apiPrefix ++ "/" ++ routePath) key) as [Heq | Hne].
    + left. rewrite <- Heq. rewrite lookup_assign_same. discriminate.
    + destruct H as [H | (r & [Hr | Hin] & Hkey)].
      * left. rewrite lookup_assign_other by exact Hne. exact H.
      * cbn [fst] in Hr. subst r. symmetry in Hkey. contradiction.
      * right. exists r. split; assumption.
Qed.

(** X24. The loop over the custom routes changes the paths of its routes
    only, and leaves a path object for every route, also for a route none
    of whose methods is enabled: such a route alone keeps the operations
    its path had, and adds an empty path object when there was none. *)
Theorem custom_routes_write_their_own_paths (schema : list (string * Table))
  (customRoutes : list (string * list (string * bool)))
  (paths : list (string * list (string * JSON))) :
  let written := customRoutesLoop schema customRoutes paths in
  (forall key,
      (forall routePath, In routePath (map fst customRoutes) ->
                         apiPrefix ++ "/" ++ routePath <> key) ->
      lookup key written = lookup key paths)
  /\ (forall routePath,
         In routePath (map fst customRoutes) ->
         lookup (apiPrefix ++ "/" ++ routePath) written <> None)
  /\ (forall routePath methods,
         customRoutes = [(routePath, methods)] ->
         (forall method enabled, In (method, enabled) methods -> enabled = false) ->
         lookup (apiPrefix ++ "/" ++ routePath) written
         = Some (match lookup (apiPrefix ++ "/" ++ routePath) paths with
                 | Some pathItem => pathItem
                 | None => []
                 end)).
Proof.
  cbv zeta. split; [|split].
  - apply customRoutesLoop_kept.
  - intros routePath Hin. apply customRoutesLoop_declares. right.
    exists routePath. split; [exact Hin | reflexivity].
  - intros routePath methods -> Hdisabled. cbn [customRoutesLoop].
    rewrite lookup_assign_same. f_equal.
    generalize (match lookup (apiPrefix ++ "/" ++ routePath) paths with
                | Some pathItem => pathItem
                | None => []
                end).
    induction methods as [|[method enabled] methods IH]; intros pathItem; [reflexivity|].
    cbn [methodsLoop]. rewrite (Hdisabled method enabled (or_introl eq_refl)).
    apply IH. intros m e Hin. apply (Hdisabled m e). right. exact Hin.
Qed.

Lemma custom_routes_write_their_own_paths_witness :
  let written :=
    customRoutesLoop Sample.config.(schema) [("users/stats", [("GET", false)])]
      [("/api/v1/posts", [("get", JNull)])] in
  lookup "/api/v1/posts" written = Some [("get", JNull)]
  /\ lookup "/api/v1/users/stats" written = Some [].
Proof.
  intros written.
  destruct (custom_routes_write_their_own_paths Sample.config.(schema)
              [("users/stats", [("GET", false)])] [("/api/v1/posts", [("get", JNull)])])
    as (Hkept & _ & Hempty).
  assert (Hother : forall routePath,
             In routePath (map fst [("users/stats", [("GET", false)])]) ->
             apiPrefix ++ "/" ++ routePath <> "/api/v1/posts").
  { intros routePath [<- | []]. discriminate. }
  assert (Hdisabled : forall method enabled,
             In (method, enabled) [("GET", false)] -> enabled = false).
  { intros method enabled [H | []]. inversion H. reflexivity. }
  split; [exact (Hkept "/api/v1/posts" Hother)|].
  exact (Hempty "users/stats" [("GET", false)] eq_refl Hdisabled).
Defined.

(** ** Filters that compile to nothing, in update and delete *)






(** ** Numbers in the query string *)

Lemma digits_prefix_append (ds rest : list ascii) :
  forallb is_digit ds = true ->
  match rest with c :: _ => is_digit c = false | [] => True end ->
  digits_prefix (ds ++ rest) = ds.
Proof.
  intros Hds Hrest. induction ds as [|d ds IH].
  - destruct rest as [|c rest]; [reflexivity|]. cbn. rewrite Hrest. reflexivity.
  - cbn in Hds |- *. apply andb_true_iff in Hds. destruct Hds as [Hd Hds].
    rewrite Hd, (IH Hds). reflexivity.
Qed.

Lemma digit_first (c : ascii) (cs : list ascii) :
  is_digit c = true ->
  is_space c = false
  /\ match c :: cs with
     | "-"%char :: rest => (true, rest)
     | "+"%char :: rest => (false, rest)
     | _ => (false, c :: cs)
     end = (false, c :: cs).
Proof.
  destruct c as [[] [] [] [] [] [] [] []]; intros H; try discriminate H;
    split; reflexivity.
Qed.

Lemma parseInt_digits_then_text (digits suffix : string) :
  all_digits digits = true -> no_leading_digit suffix = true ->
  parseInt (digits ++ suffix) = Number digits.
Proof.
  unfold all_digits, Number, parseInt. intros Hdigits Hsuffix.
  rewrite list_ascii_of_string_app.
  destruct (list_ascii_of_string digits) as [|d ds] eqn:E; [discriminate|].
  assert (Hd : is_digit d = true).
  { cbn in Hdigits. apply andb_true_iff in Hdigits. apply Hdigits. }
  destruct (digit_first d (ds ++ list_ascii_of_string suffix)%list Hd) as [Hspace Hsign].
  cbn [app skip_spaces]. rewrite Hspace, Hsign.
  change (d :: (ds ++ list_ascii_of_string suffix)%list)
    with ((d :: ds) ++ list_ascii_of_string suffix)%list.
  rewrite digits_prefix_append.
  - reflexivity.
  - exact Hdigits.
  - destruct suffix as [|c suffix]; [exact I|]. cbn.
    cbn in Hsuffix. apply negb_true_iff. exact Hsuffix.
Qed.

Lemma parseNumber_digits_then_text (accept : Num -> bool) (digits suffix : string) :
  all_digits digits = true -> no_leading_digit suffix = true ->
  parseNumber accept (Some (digits ++ suffix)) = parseNumber accept (Some digits).
Proof.
  intros Hdigits Hsuffix. unfold parseNumber.
  rewrite (parseInt_digits_then_text digits suffix Hdigits Hsuffix).
  pose proof (parseInt_digits_then_text digits "" Hdigits eq_refl) as Hplain.
  assert (Hnil : digits ++ "" = digits).
  { clear. induction digits as [|c digits IH]; [reflexivity|]. cbn. rewrite IH. reflexivity. }
  rewrite Hnil in Hplain. rewrite Hplain.
  destruct digits as [|c digits]; [discriminate Hdigits|]. reflexivity.
Qed.

Lemma all_digits_append (digits : string) (c : ascii) (rest : string) :
  is_digit c = false -> all_digits (digits ++ String c rest) = false.
Proof.
  intros Hc. unfold all_digits. rewrite list_ascii_of_string_app.
  destruct (list_ascii_of_string digits ++ list_ascii_of_string (String c rest))%list
    as [|d ds] eqn:E; [reflexivity|].
  rewrite <- E. rewrite forallb_app. cbn [list_ascii_of_string forallb].
  rewrite Hc. apply andb_false_r.
Qed.

(** X26. The numbers of the query string are read by [parseInt]: the text
    after the digits is ignored, so a list request with [limit=2nd] is
    handled as the one with [limit=2].  The id of a path is read
    otherwise: followed by such a text, it is compared as a string. *)
Theorem text_after_a_number_is_ignored (JSON_parse : string -> option JSON)
  (config : Database) (request request' : Request) (digits suffix : string) :
  all_digits digits = true -> no_leading_digit suffix = true ->
  pathname request = pathname request' ->
  lookup "limit" (searchParams request) = Some (digits ++ suffix) ->
  lookup "limit" (searchParams request') = Some digits ->
  (forall key, key <> "limit" ->
               lookup key (searchParams request) = lookup key (searchParams request')) ->
  (forall accept,
      parseNumber accept (Some (digits ++ suffix)) = parseNumber accept (Some digits))
  /\ listRecords JSON_parse config request = listRecords JSON_parse config request'
  /\ (suffix <> "" -> idValueOf (digits ++ suffix) = JString (digits ++ suffix)).
Proof.
  intros Hdigits Hsuffix Hpath Hlimit Hlimit' Hothers. split; [|split].
  - intros accept. apply parseNumber_digits_then_text; assumption.
  - apply listRecords_ext; [exact Hpath|].
    unfold parseQueryParams. cbv zeta beta. rewrite Hlimit, Hlimit'.
    rewrite (parseNumber_digits_then_text _ digits suffix Hdigits Hsuffix).
    rewrite !(Hothers "select"), !(Hothers "where"), !(Hothers "orderBy"),
      !(Hothers "page"), !(Hothers "offset") by discriminate.
    reflexivity.
  - intros Hne. destruct suffix as [|c rest]; [contradiction|].
    unfold idValueOf. rewrite all_digits_append; [reflexivity|].
    cbn in Hsuffix. apply negb_true_iff. exact Hsuffix.
Qed.

Lemma text_after_a_number_is_ignored_witness :
  listRecords JsonText.parse Sample.config (Sample.get "/posts" [("limit", "2nd")])
  = listRecords JsonText.parse Sample.config (Sample.get "/posts" [("limit", "2")])
  /\ idValueOf "2nd" = JString "2nd".
Proof.
  assert (Hothers : forall key, key <> "limit" ->
             lookup key (searchParams (Sample.get "/posts" [("limit", "2nd")]))
             = lookup key (searchParams (Sample.get "/posts" [("limit", "2")]))).
  { intros key Hkey. unfold Sample.get. cbn [searchParams lookup].
    destruct ("limit" =? key) eqn:E; [|reflexivity].
    apply String.eqb_eq in E. symmetry in E. contradiction. }
  assert (Hsuffix : "nd" <> "") by discriminate.
  destruct (text_after_a_number_is_ignored JsonText.parse Sample.config
              (Sample.get "/posts" [("limit", "2nd")])
              (Sample.get "/posts" [("limit", "2")]) "2" "nd"
              eq_refl eq_refl eq_refl eq_refl eq_refl Hothers) as (_ & Hlist & Hid).
  split; [exact Hlist | exact (Hid Hsuffix)].
Defined.

(** ** The parameters a handler reads *)

Lemma extractTableFromUrl_ext (request request' : Request) :
  pathname request = pathname request' ->
  pathParts request = pathParts request'
  /\ extractTableFromUrl request = extractTableFromUrl request'.
Proof.
  intros Hpath. unfold extractTableFromUrl, pathParts. rewrite Hpath. split; reflexivity.
Qed.

(** X27. What a handler does with a request depends, beside the path and
    the body, on the first value of the parameters it reads, and on no
    other part of the query string: [select], [where], [orderBy], [limit],
    [page] and [offset] for the list handler, [where] for update and
    delete, none for the handlers of one record and of creation. *)
Theorem handlers_read_their_own_parameters (JSON_parse : string -> option JSON)
  (config : Database) (request request' : Request) :
  pathname request = pathname request' ->
  ((forall key, In key listParameters ->
                lookup key (searchParams request) = lookup key (searchParams request')) ->
   listRecords JSON_parse config request = listRecords JSON_parse config request')
  /\ (lookup "where" (searchParams request) = lookup "where" (searchParams request') ->
      updateRecords JSON_parse config request = updateRecords JSON_parse config request'
      /\ deleteRecords JSON_parse config request
         = deleteRecords JSON_parse config request')
  /\ getRecordById config request = getRecordById config request'
  /\ createRecords config request = createRecords config request'.
Proof.
  intros Hpath. destruct (extractTableFromUrl_ext request request' Hpath) as [Hparts Htable].
  split; [|split; [|split]].
  - intros Hparams. apply listRecords_ext; [exact Hpath|].
    unfold parseQueryParams. cbv zeta beta.
    rewrite !(Hparams "select"), !(Hparams "where"), !(Hparams "orderBy"),
      !(Hparams "limit"), !(Hparams "page"), !(Hparams "offset")
      by (unfold listParameters; simpl; auto 7).
    reflexivity.
  - intros Hwhere.
    assert (Hw : where_ (parseQueryParams JSON_parse request)
                 = where_ (parseQueryParams JSON_parse request')).
    { unfold parseQueryParams. cbn [where_]. rewrite Hwhere. reflexivity. }
    unfold updateRecords, deleteRecords, byIdOnly. cbv zeta.
    rewrite Htable, Hw. split; reflexivity.
  - unfold getRecordById. rewrite Hparts. reflexivity.
  - unfold createRecords. rewrite Htable. reflexivity.
Qed.

Lemma handlers_read_their_own_parameters_witness :
  let narrow := Sample.get "/posts/1" [("where", Sample.whereId1)] in
  let wide :=
    Sample.get "/posts/1" [("where", Sample.whereId1); ("limit", "1"); ("select", "title")] in
  deleteRecords JsonText.parse Sample.config wide
  = deleteRecords JsonText.parse Sample.config narrow
  /\ getRecordById Sample.config wide = getRecordById Sample.config narrow.
Proof.
  intros narrow wide.
  destruct (handlers_read_their_own_parameters JsonText.parse Sample.config wide narrow
              eq_refl) as (_ & Hmutations & Hrecord & _).
  split; [exact (proj2 (Hmutations eq_refl)) | exact Hrecord].
Defined.
